(** * python_package_updater: a shallow embedding and its properties

    The development follows [Utilities/Scripts/python_package_updater.py]:
    the listing parser ([parse_pip_list_output]), the delimiter validator
    ([validate_external_project_python_package_hints]), the release
    selector and block rewriter
    ([update_external_project_python_packages]) and the orchestrator
    ([main]).

    Text is modelled as a list of 8-bit characters (code points below 256);
    the character classes are the ones Python gives on that range.  A
    directory tree is the list of its files, in the order [os.walk] yields
    them, each with the text [open(filepath).read()] returns.

    Of [re], the patterns and the replacements are modelled that the
    program builds from a name whose only special character is the dot
    and from a block without a group reference.  What [re.sub] does
    outside of this fragment is taken from the environment of the run
    ([re_sub_other]), so that an exception of the model is an exception
    of the program. *)

From Stdlib Require Import Ascii String Bool Arith Lia List.
Import ListNotations.

(** ** Python strings *)

Module Py.

Definition str := list ascii.

(** A literal of the source. *)
Definition lit (s : string) : str := list_ascii_of_string s.

Arguments lit : simpl never.

Definition nl : ascii := "010"%char.
Definition backslash : ascii := "\"%char.

Fixpoint str_eqb (a b : str) : bool :=
  match a, b with
  | [], [] => true
  | x :: a', y :: b' => Ascii.eqb x y && str_eqb a' b'
  | _, _ => false
  end.

(** [str.isspace] on one character: the ASCII white space table of
    CPython (9-13, 28-32) and, above it, U+0085 and U+00A0. *)
Definition isspace (c : ascii) : bool :=
  let n := nat_of_ascii c in
  ((9 <=? n) && (n <=? 13)) || ((28 <=? n) && (n <=? 32))
  || (n =? 133) || (n =? 160).

Fixpoint lstrip (s : str) : str :=
  match s with
  | c :: s' => if isspace c then lstrip s' else s
  | [] => []
  end.

Definition rstrip (s : str) : str := rev (lstrip (rev s)).

(** [s.strip()] *)
Definition strip (s : str) : str := rstrip (lstrip s).

(** [s.split()]: split on runs of white space; [cur] is the token being
    read, reversed. *)
Fixpoint split_from (cur : str) (s : str) : list str :=
  match s with
  | [] => match cur with [] => [] | _ => [rev cur] end
  | c :: s' =>
      if isspace c
      then match cur with
           | [] => split_from [] s'
           | _ => rev cur :: split_from [] s'
           end
      else split_from (c :: cur) s'
  end.

Definition split (s : str) : list str := split_from [] s.

(** [s.split(sep)] for a one-character separator. *)
Fixpoint split_on_from (sep : ascii) (cur : str) (s : str) : list str :=
  match s with
  | [] => [rev cur]
  | c :: s' =>
      if Ascii.eqb c sep
      then rev cur :: split_on_from sep [] s'
      else split_on_from sep (c :: cur) s'
  end.

Definition split_on (sep : ascii) (s : str) : list str :=
  split_on_from sep [] s.

Fixpoint startswith (s p : str) {struct p} : bool :=
  match p, s with
  | [], _ => true
  | x :: p', y :: s' => Ascii.eqb x y && startswith s' p'
  | _ :: _, [] => false
  end.

(** [s.endswith(p)] *)
Definition endswith (s p : str) : bool := startswith (rev s) (rev p).

(** [p in s] for strings *)
Fixpoint contains (s p : str) : bool :=
  startswith s p || match s with [] => false | _ :: s' => contains s' p end.

(** [sep.join(parts)] *)
Fixpoint join (sep : str) (parts : list str) : str :=
  match parts with
  | [] => []
  | [p] => p
  | p :: ps => p ++ sep ++ join sep ps
  end.

(** [" " * n] *)
Definition spaces (n : nat) : str := repeat " "%char n.

(** [x in xs] for a list of strings *)
Definition mem (x : str) (xs : list str) : bool := existsb (str_eqb x) xs.

(** ** Dictionaries

    A [dict] keeps its keys in insertion order; assigning to a key that is
    present replaces the value in place. *)

Definition dict (V : Type) := list (str * V).

Fixpoint dict_get {V} (d : dict V) (k : str) : option V :=
  match d with
  | [] => None
  | (k', v) :: d' => if str_eqb k k' then Some v else dict_get d' k
  end.

Fixpoint dict_set {V} (d : dict V) (k : str) (v : V) : dict V :=
  match d with
  | [] => [(k, v)]
  | (k', v') :: d' =>
      if str_eqb k k' then (k', v) :: d' else (k', v') :: dict_set d' k v
  end.

Definition keys {V} (d : dict V) : list str := map fst d.

End Py.

Import Py.

(** ** Listing parser *)

Definition Versions : Type := str * str.

(** The body of the loop of [parse_pip_list_output] over the lines
    [packages_to_update[2 : len - 1]].  [None] is the [IndexError] of
    [details[1]] on a line with one token. *)
Fixpoint parse_rows (rows : list str) (packages : dict Versions)
  : option (dict Versions) :=
  match rows with
  | [] => Some packages
  | line :: rows' =>
      match strip line with
      | [] => Some packages
      | _ =>
          match split line with
          | package_name :: current_version :: rest =>
              let latest_version :=
                match rest with
                | third :: _ => third
                | [] => current_version
                end in
              parse_rows rows'
                (dict_set packages package_name
                   (current_version, latest_version))
          | _ => None
          end
      end
  end.

(** [range(2, len(packages_to_update) - 1)] *)
Definition data_lines (packages_to_update : list str) : list str :=
  removelast (skipn 2 packages_to_update).

Definition parse_pip_list_output (packages_to_update : list str)
  : option (dict Versions) :=
  parse_rows (data_lines packages_to_update) [].

(** ** Regular expressions

    The fragment of Python's [re] the program uses, with the backtracking
    semantics of the [re] module: alternatives are tried in priority order
    (greedy: longest first; lazy: shortest first) and the first one that
    lets the rest of the pattern succeed is the match. *)

Module Re.

Inductive charset : Type :=
| CChar (c : ascii)            (* a literal character *)
| CAny                         (* [.] under [re.DOTALL] *)
| CSpace                       (* [\s] *)
| CWord                        (* [\w] *)
| CUnion (a b : charset).      (* members of a bracketed class *)

(** [\w] on a [str] pattern: [str.isalnum] or the underscore. *)
Definition isword (c : ascii) : bool :=
  let n := nat_of_ascii c in
  ((48 <=? n) && (n <=? 57)) || ((65 <=? n) && (n <=? 90))
  || ((97 <=? n) && (n <=? 122)) || (n =? 95)
  || (n =? 170) || (n =? 178) || (n =? 179) || (n =? 181)
  || (n =? 185) || (n =? 186) || ((188 <=? n) && (n <=? 190))
  || ((192 <=? n) && (n <=? 214)) || ((216 <=? n) && (n <=? 246))
  || (248 <=? n).

Fixpoint cs_mem (cs : charset) (c : ascii) : bool :=
  match cs with
  | CChar x => Ascii.eqb c x
  | CAny => true
  | CSpace => isspace c
  | CWord => isword c
  | CUnion a b => cs_mem a c || cs_mem b c
  end.

Inductive regex : Type :=
| Eps
| Chr (cs : charset)
| Bol                          (* [^] under [re.MULTILINE] *)
| Eol                          (* [$] under [re.MULTILINE] *)
| Seq (r1 r2 : regex)
| Opt (r : regex)              (* [r?] *)
| Star (greedy : bool) (cs : charset)   (* [cs*] and [cs*?] *)
| Plus (cs : charset)          (* [cs+] *)
| Group (n : nat) (r : regex). (* the [n]-th capturing group *)

(** The matcher's position: the character before it (for [^]), the text
    ahead, and the groups captured so far (latest first). *)
Record mstate : Type := MState {
  prev : option ascii;
  rest : str;
  caps : list (nat * str)
}.

Definition at_bol (p : option ascii) : bool :=
  match p with
  | None => true
  | Some c => Ascii.eqb c nl
  end.

Definition at_eol (s : str) : bool :=
  match s with
  | [] => true
  | c :: _ => Ascii.eqb c nl
  end.

Section Matcher.

Variable A : Type.

Fixpoint star_greedy (cs : charset) (k : option ascii -> str -> option A)
  (p : option ascii) (s : str) : option A :=
  match s with
  | c :: s' =>
      if cs_mem cs c
      then match star_greedy cs k (Some c) s' with
           | Some r => Some r
           | None => k p s
           end
      else k p s
  | [] => k p s
  end.

Fixpoint star_lazy (cs : charset) (k : option ascii -> str -> option A)
  (p : option ascii) (s : str) : option A :=
  match k p s with
  | Some r => Some r
  | None =>
      match s with
      | c :: s' => if cs_mem cs c then star_lazy cs k (Some c) s' else None
      | [] => None
      end
  end.

(** The text between two positions of one scan. *)
Definition captured (from to : str) : str :=
  firstn (length from - length to) from.

Fixpoint m (r : regex) (k : mstate -> option A) (st : mstate) : option A :=
  match r with
  | Eps => k st
  | Chr cs =>
      match rest st with
      | c :: s' =>
          if cs_mem cs c then k (MState (Some c) s' (caps st)) else None
      | [] => None
      end
  | Bol => if at_bol (prev st) then k st else None
  | Eol => if at_eol (rest st) then k st else None
  | Seq r1 r2 => m r1 (m r2 k) st
  | Opt r1 =>
      match m r1 k st with
      | Some x => Some x
      | None => k st
      end
  | Star greedy cs =>
      (if greedy then star_greedy else star_lazy) cs
        (fun p s => k (MState p s (caps st))) (prev st) (rest st)
  | Plus cs =>
      match rest st with
      | c :: s' =>
          if cs_mem cs c
          then star_greedy cs (fun p s => k (MState p s (caps st)))
                 (Some c) s'
          else None
      | [] => None
      end
  | Group n r1 =>
      m r1 (fun st' =>
              k (MState (prev st') (rest st')
                   ((n, captured (rest st) (rest st')) :: caps st')))
        st
  end.

End Matcher.

Arguments star_greedy {A} cs k p s.
Arguments star_lazy {A} cs k p s.
Arguments m {A} r k st.

(** One match attempt at a position: the length of the match and its
    groups. *)
Definition match_at (r : regex) (p : option ascii) (s : str)
  : option (nat * list (nat * str)) :=
  match m r (fun st => Some st) (MState p s []) with
  | Some st => Some (length s - length (rest st), caps st)
  | None => None
  end.

Fixpoint group (n : nat) (cs : list (nat * str)) : str :=
  match cs with
  | [] => []
  | (i, t) :: cs' => if Nat.eqb i n then t else group n cs'
  end.

(** [re.findall] for a pattern with one group: the scan goes left to
    right; [skip] counts the characters still inside the last match.  The
    patterns of this program contain a literal, so no match is empty and
    the scan treats a match of length 0 as no match. *)
Fixpoint findall_from (r : regex) (p : option ascii) (s : str) (skip : nat)
  : list str :=
  match s with
  | [] => []
  | c :: s' =>
      match skip with
      | S j => findall_from r (Some c) s' j
      | 0 =>
          match match_at r p s with
          | Some (S n, cs) => group 1 cs :: findall_from r (Some c) s' n
          | _ => findall_from r (Some c) s' 0
          end
      end
  end.

Definition findall (r : regex) (s : str) : list str :=
  findall_from r None s 0.

Inductive escape : Type :=
| EscChar (c : ascii)     (* an escape of the table [ESCAPES] *)
| EscKeep                 (* the backslash and the character stay *)
| EscRefused.             (* group references and bad escapes *)

Definition isdigit (c : ascii) : bool :=
  let n := nat_of_ascii c in (48 <=? n) && (n <=? 57).

Definition isasciiletter (c : ascii) : bool :=
  let n := nat_of_ascii c in
  ((65 <=? n) && (n <=? 90)) || ((97 <=? n) && (n <=? 122)).

Definition classify_escape (c : ascii) : escape :=
  if Ascii.eqb c "a" then EscChar "007"
  else if Ascii.eqb c "b" then EscChar "008"
  else if Ascii.eqb c "f" then EscChar "012"
  else if Ascii.eqb c "n" then EscChar "010"
  else if Ascii.eqb c "r" then EscChar "013"
  else if Ascii.eqb c "t" then EscChar "009"
  else if Ascii.eqb c "v" then EscChar "011"
  else if Ascii.eqb c backslash then EscChar backslash
  else if isdigit c || isasciiletter c then EscRefused
  else EscKeep.

(** The replacement template of [re.sub].  A backslash followed by a
    character that is neither a letter nor a digit stays as it is; the
    escapes of the table are translated.  [None] is no exception: it
    marks a template outside this fragment, one with a group reference
    ([\g<..>], [\1]) or an octal escape, which [re] expands, or one
    that [re] rejects (a backslash before another ASCII letter or at
    the end).  What [re.sub] does with these is left to the environment
    of the run. *)
Fixpoint expand_template (t : str) : option str :=
  match t with
  | [] => Some []
  | c :: t' =>
      if Ascii.eqb c backslash
      then match t' with
           | [] => None
           | e :: t'' =>
               match classify_escape e with
               | EscChar x => option_map (cons x) (expand_template t'')
               | EscKeep =>
                   option_map (fun o => backslash :: e :: o)
                     (expand_template t'')
               | EscRefused => None
               end
           end
      else option_map (cons c) (expand_template t')
  end.

(** [re.sub] with an expanded template: every non-overlapping match,
    leftmost first, is replaced by [repl]. *)
Fixpoint sub_from (r : regex) (repl : str) (p : option ascii) (s : str)
  (skip : nat) : str :=
  match s with
  | [] => []
  | c :: s' =>
      match skip with
      | S j => sub_from r repl (Some c) s' j
      | 0 =>
          match match_at r p s with
          | Some (S n, _) => repl ++ sub_from r repl (Some c) s' n
          | _ => c :: sub_from r repl (Some c) s' 0
          end
      end
  end.

Definition sub (r : regex) (template : str) (s : str) : option str :=
  match expand_template template with
  | Some repl => Some (sub_from r repl None s 0)
  | None => None
  end.

(** A sequence of one-character items. *)
Fixpoint chars (l : list charset) : regex :=
  match l with
  | [] => Eps
  | cs :: l' => Seq (Chr cs) (chars l')
  end.

Definition literal (s : str) : list charset := map CChar s.

(** The characters with a special meaning in a pattern. *)
Definition ismeta (c : ascii) : bool :=
  existsb (Ascii.eqb c) (lit ".^$*+?{}[]\|()").

(** A string pasted into a pattern, read as pattern source: an ordinary
    character stands for itself and the dot for any character.  [None] is
    no exception: the string has another special character and the
    pattern is outside this fragment; what [re.sub] does with it is left
    to the environment of the run. *)
Fixpoint pasted (s : str) : option (list charset) :=
  match s with
  | [] => Some []
  | c :: s' =>
      match pasted s' with
      | Some l =>
          if Ascii.eqb c "." then Some (CAny :: l)
          else if ismeta c then None
          else Some (CChar c :: l)
      | None => None
      end
  end.

End Re.

Import Re.

(** ** The world of a run

    The files of the searched tree with their text, and what the run did
    to its surroundings, oldest event first. *)

Definition Directory : Type := dict str.

Inductive Event : Type :=
| EvRead (filepath : str)
| EvWrite (filepath : str) (file_text : str)
| EvPipList (installation_path : option str) (outdated : bool)
| EvGet (package_name : str).

Record World : Type := MkWorld {
  disk : Directory;
  log : list Event
}.

(** One entry of a release list of the package index. *)
Record ReleaseFile : Type := MkReleaseFile {
  python_version : str;
  filename : str;
  packagetype : str;
  sha256 : str
}.

(** What the run reads and does not change: the tag of the running
    interpreter, the text [pip list] prints, the ["releases"] table the
    index answers for a package ([None]: the request or the lookup
    raises), the directory [main] searches by default, and what
    [re.sub(pattern, repl, string, flags=re.DOTALL)] returns for a
    pattern or a replacement outside the fragment of [re] modelled here
    ([None]: it raises). *)
Record Env : Type := MkEnv {
  interpreter_cpython_tag : str;
  pip_list_output : option str -> bool -> str;
  pypi_releases : str -> option (dict (list ReleaseFile));
  default_search_directory : str;
  re_sub_other : str -> str -> str -> option str
}.

(** State and exceptions: [None] is an exception that ends the run. *)
Definition M (A : Type) : Type := World -> option (A * World).

Definition ret {A} (a : A) : M A := fun w => Some (a, w).

Definition bind {A B} (c : M A) (f : A -> M B) : M B :=
  fun w =>
    match c w with
    | Some (a, w') => f a w'
    | None => None
    end.

Definition raise {A} : M A := fun _ => None.

Definition lift {A} (o : option A) : M A :=
  match o with
  | Some a => ret a
  | None => raise
  end.

Definition emit (e : Event) : M unit :=
  fun w => Some (tt, MkWorld (disk w) (log w ++ [e])).

Declare Scope monad_scope.
Delimit Scope monad_scope with monad.
Notation "x <- c1 ;; c2" := (bind c1 (fun x => c2))
  (at level 61, c1 at next level, right associativity) : monad_scope.
Notation "c1 ;;; c2" := (bind c1 (fun _ => c2))
  (at level 61, right associativity) : monad_scope.
Open Scope monad_scope.

(** [open(filepath).read()] *)
Definition read_file (filepath : str) : M str :=
  emit (EvRead filepath) ;;;
  fun w => lift (dict_get (disk w) filepath) w.

(** [open(filepath, "w").write(file_text)] *)
Definition write_file (filepath : str) (file_text : str) : M unit :=
  emit (EvWrite filepath file_text) ;;;
  fun w => Some (tt, MkWorld (dict_set (disk w) filepath file_text) (log w)).

(** [execute_pip_list]: the lines of what [pip list] prints. *)
Definition execute_pip_list (env : Env) (installation_path : option str)
  (outdated : bool) : M (list str) :=
  emit (EvPipList installation_path outdated) ;;;
  ret (split_on nl (pip_list_output env installation_path outdated)).

Definition get_installed_packages (env : Env)
  (installation_path : option str) : M (list str) :=
  execute_pip_list env installation_path false.

Definition get_outdated_packages (env : Env)
  (installation_path : option str) : M (list str) :=
  execute_pip_list env installation_path true.

(** The file paths under [directory]; the world holds the tree of the
    directory that is searched. *)
Definition external_project_filepaths (directory : str) : M (list str) :=
  fun w => Some (keys (disk w), w).

(** ** Delimiter validator *)

Definition Mismatch : Type := str * str * str.

Definition hint_validation_mismatch_summary (mismatches : list Mismatch)
  : str :=
  join [nl]
    (map (fun '(filepath, first, second) =>
            filepath ++ [nl] ++ lit "  " ++ first ++ lit " != " ++ second)
       mismatches).

(** [_pairwise]: [zip(a, a)] on one iterator. *)
Fixpoint _pairwise {A} (s : list A) : list (A * A) :=
  match s with
  | s0 :: s1 :: s' => (s0, s1) :: _pairwise s'
  | _ => []
  end.

(** The class [[\w\-\])\])]] *)
Definition hint_class : charset :=
  CUnion CWord (CUnion (CChar "-") (CUnion (CChar "]") (CChar ")"))).

(** [^\s*# \[(\/?[\w\-\])\])]+)\]$] *)
Definition hint_regex : regex :=
  Seq Bol
    (Seq (Star true CSpace)
       (Seq (chars (literal (lit "# [")))
          (Seq (Group 1 (Seq (Opt (Chr (CChar "/"))) (Plus hint_class)))
             (Seq (Chr (CChar "]")) Eol)))).

Fixpoint check_pairs (filepath : str) (pairs : list (str * str))
  : list Mismatch :=
  match pairs with
  | [] => []
  | (first, second) :: pairs' =>
      if negb (str_eqb first (tl second))
      then (filepath, first, tl second) :: check_pairs filepath pairs'
      else check_pairs filepath pairs'
  end.

(** The mismatches of one file. *)
Definition file_mismatches (filepath file_text : str) : list Mismatch :=
  let hint_pairs := findall hint_regex file_text in
  check_pairs filepath (_pairwise hint_pairs).

Fixpoint validate_files (filepaths : list str) (mismatches : list Mismatch)
  : M (list Mismatch) :=
  match filepaths with
  | [] => ret mismatches
  | filepath :: filepaths' =>
      file_text <- read_file filepath ;;
      validate_files filepaths'
        (mismatches ++ file_mismatches filepath file_text)
  end.

Definition validate_external_project_python_package_hints
  (directory : str) : M (list Mismatch) :=
  filepaths <- external_project_filepaths directory ;;
  validate_files filepaths [].

(** ** Release selector *)

Definition indentation : nat := 2.

(** The three tests of the loop over [desired_version_files]. *)
Definition tag_accepted (cpython_tag : str) (release_file : ReleaseFile)
  : bool :=
  mem (python_version release_file) [lit "py3"; lit "py2.py3"; cpython_tag]
  || contains (filename release_file) (lit "abi3").

Definition is_wheel (release_file : ReleaseFile) : bool :=
  str_eqb (packagetype release_file) (lit "bdist_wheel").

Definition suffix_accepted (release_file : ReleaseFile) : bool :=
  existsb (endswith (filename release_file))
    [lit "py3-none-any.whl"; lit "64.whl"; lit "universal2.whl"].

(** The loop over [desired_version_files], with the two lists it fills. *)
Fixpoint select_files (cpython_tag : str) (files : list ReleaseFile)
  (filenames hashes : list str) : list str * list str :=
  match files with
  | [] => (filenames, hashes)
  | release_file :: files' =>
      if negb (mem (python_version release_file)
                 [lit "py3"; lit "py2.py3"; cpython_tag])
         && negb (contains (filename release_file) (lit "abi3"))
      then select_files cpython_tag files' filenames hashes
      else if negb (str_eqb (packagetype release_file) (lit "bdist_wheel"))
      then select_files cpython_tag files' filenames hashes
      else if negb (existsb (endswith (filename release_file))
                      [lit "py3-none-any.whl"; lit "64.whl";
                       lit "universal2.whl"])
      then select_files cpython_tag files' filenames hashes
      else
        let wheel_hash := sha256 release_file in
        select_files cpython_tag files'
          (filenames
           ++ [spaces indentation ++ lit "#  - " ++ filename release_file])
          (hashes ++ [lit "--hash=sha256:" ++ wheel_hash])
  end.

Definition simple_package_version (package_name desired_version : str)
  : str :=
  spaces indentation ++ package_name ++ lit "==" ++ desired_version
  ++ lit " ".

Definition hashes_joiner_text (package_name desired_version : str) : str :=
  lit " " ++ [backslash; nl]
  ++ spaces (length (simple_package_version package_name desired_version)).

Definition all_hashes (package_name desired_version : str)
  (hashes : list str) : str :=
  simple_package_version package_name desired_version
  ++ join (hashes_joiner_text package_name desired_version) hashes.

(** The text of a package's block, from the two lists of the loop. *)
Definition block_text (package_name desired_version : str)
  (filenames hashes : list str) : str :=
  if 1 <? length filenames
  then
    join [nl]
      ((spaces indentation
        ++ lit "# Hashes correspond to the following packages:")
       :: filenames)
    ++ [nl] ++ all_hashes package_name desired_version hashes
  else all_hashes package_name desired_version hashes.

Definition desired_version_of (env : Env) (cpython_tag : str)
  (versions : Versions) : str :=
  let (current_version, latest_version) := versions in
  if str_eqb cpython_tag (interpreter_cpython_tag env)
  then latest_version
  else current_version.

(** [requests.get(url).json()["releases"]] *)
Definition get_releases (env : Env) (package_name : str)
  : M (dict (list ReleaseFile)) :=
  emit (EvGet package_name) ;;;
  lift (pypi_releases env package_name).

(** The first loop of [update_external_project_python_packages]. *)
Fixpoint generate_blocks (env : Env) (cpython_tag : str)
  (packages_to_update : list (str * Versions)) (lines_to_write : dict str)
  : M (dict str) :=
  match packages_to_update with
  | [] => ret lines_to_write
  | (package_name, versions) :: packages' =>
      if mem package_name [lit "vtk"; lit "simpleitk"]
      then generate_blocks env cpython_tag packages' lines_to_write
      else
        releases <- get_releases env package_name ;;
        let desired_version := desired_version_of env cpython_tag versions in
        let desired_version_files :=
          match dict_get releases desired_version with
          | Some files => files
          | None => []
          end in
        let (filenames, hashes) :=
          select_files cpython_tag desired_version_files [] [] in
        match hashes with
        | [] => generate_blocks env cpython_tag packages' lines_to_write
        | _ =>
            let text :=
              block_text package_name desired_version filenames hashes in
            generate_blocks env cpython_tag packages'
              (dict_set lines_to_write package_name (text ++ [nl]))
        end
  end.

(** ** Block rewriter *)

(** The two delimiters as pattern items: [# \[{name}\]] and
    [# \[/{name}\]]. *)
Definition opening_items (name : list charset) : list charset :=
  literal (lit "# [") ++ name ++ literal (lit "]").

Definition closing_items (name : list charset) : list charset :=
  literal (lit "# [/") ++ name ++ literal (lit "]").

Arguments opening_items : simpl never.
Arguments closing_items : simpl never.

(** [(# \[{package_name}\]).*?(# \[/{package_name}\])], the name pasted
    in as pattern source. *)
Definition block_pattern (name : list charset) : regex :=
  Seq (Group 1 (chars (opening_items name)))
    (Seq (Star false CAny) (Group 2 (chars (closing_items name)))).

Definition block_regex (package_name : str) : option regex :=
  option_map block_pattern (pasted package_name).

(** The replacement built for a package. *)
Definition block_template (package_name updated_line : str) : str :=
  lit "# [" ++ package_name ++ lit "]" ++ [nl] ++ updated_line
  ++ spaces indentation ++ lit "# [/" ++ package_name ++ lit "]".

(** One [re.sub] of the inner loop, inside the modelled fragment: the
    result is what [re.sub] returns.  [None]: the name or the replacement
    is outside the fragment. *)
Definition substitute_block (package_name updated_line file_text : str)
  : option str :=
  match block_regex package_name with
  | Some regex =>
      Re.sub regex (block_template package_name updated_line) file_text
  | None => None
  end.

(** The pattern as the source writes it,
    [rf"(# \[{package_name}\]).*?(# \[/{package_name}\])"]. *)
Definition regex_source (package_name : str) : str :=
  lit "(# \[" ++ package_name ++ lit "\]).*?(# \[/" ++ package_name
  ++ lit "\])".

(** One [re.sub] of the inner loop as the run makes it: the substitution
    above inside the fragment, and what [re] does outside of it.
    [None]: [re.sub] raises. *)
Definition re_sub (env : Env) (package_name updated_line file_text : str)
  : option str :=
  match substitute_block package_name updated_line file_text with
  | Some file_text' => Some file_text'
  | None =>
      re_sub_other env (regex_source package_name)
        (block_template package_name updated_line) file_text
  end.

(** The inner loop: one substitution and one write per package. *)
Fixpoint rewrite_file (env : Env) (filepath : str)
  (lines_to_write : list (str * str)) (file_text : str) : M unit :=
  match lines_to_write with
  | [] => ret tt
  | (package_name, updated_line) :: lines' =>
      file_text' <- lift (re_sub env package_name updated_line
                            file_text) ;;
      write_file filepath file_text' ;;;
      rewrite_file env filepath lines' file_text'
  end.

Fixpoint rewrite_files (env : Env) (filepaths : list str)
  (lines_to_write : dict str) : M unit :=
  match filepaths with
  | [] => ret tt
  | filepath :: filepaths' =>
      file_text <- read_file filepath ;;
      rewrite_file env filepath lines_to_write file_text ;;;
      rewrite_files env filepaths' lines_to_write
  end.

Definition update_external_project_python_packages (env : Env)
  (packages_to_update : dict Versions) (directory : str)
  (cpython_tag : str) : M unit :=
  lines_to_write <- generate_blocks env cpython_tag packages_to_update [] ;;
  filepaths <- external_project_filepaths directory ;;
  rewrite_files env filepaths lines_to_write.

(** ** Orchestrator *)

Record Args : Type := MkArgs {
  search_directory : option str;
  cpython_tag_arg : option str;
  from_installed_packages : bool;
  validate : bool;
  path : option str
}.

(** How [main] ends: it returns, or [sys.exit] is called with an integer
    or with a string. *)
Inductive Outcome : Type :=
| Returned
| SysExitInt (code : nat)
| SysExitStr (message : str).

(** The exit status of the process: [sys.exit] with a string prints it and
    exits with status 1. *)
Definition exit_status (o : Outcome) : nat :=
  match o with
  | Returned => 0
  | SysExitInt code => code
  | SysExitStr _ => 1
  end.

(** [x if x else default], for an optional string. *)
Definition or_default (x : option str) (default : str) : str :=
  match x with
  | Some (c :: s) => c :: s
  | _ => default
  end.

Definition main (env : Env) (args : Args) : M Outcome :=
  let search_directory :=
    or_default (search_directory args) (default_search_directory env) in
  mismatches <-
    validate_external_project_python_package_hints search_directory ;;
  if validate args || (0 <? length mismatches)
  then
    ret (if length mismatches =? 0
         then SysExitInt 0
         else SysExitStr (hint_validation_mismatch_summary mismatches))
  else
    let cpython_tag :=
      or_default (cpython_tag_arg args) (interpreter_cpython_tag env) in
    let installation_path := path args in
    lines <-
      (if from_installed_packages args
       then get_installed_packages env installation_path
       else if str_eqb cpython_tag (interpreter_cpython_tag env)
       then get_outdated_packages env installation_path
       else get_installed_packages env installation_path) ;;
    packages_to_update <- lift (parse_pip_list_output lines) ;;
    update_external_project_python_packages env packages_to_update
      search_directory cpython_tag ;;;
    ret Returned.

(** ** Statements about the listing parser *)

(** The entry a data row stands for: [name A B ...] gives [(A, B)] and
    [name A] gives [(A, A)]. *)
Definition row_entry (line : str) : option (str * Versions) :=
  match split line with
  | name :: a :: b :: _ => Some (name, (a, b))
  | [name; a] => Some (name, (a, a))
  | _ => None
  end.

(** What one data row does to the mapping. *)
Definition add_row (packages : dict Versions) (line : str) : dict Versions :=
  match row_entry line with
  | Some (name, v) => dict_set packages name v
  | None => packages
  end.

(** The versions of the last row that names [name]. *)
Fixpoint last_entry (rows : list str) (name : str) : option Versions :=
  match rows with
  | [] => None
  | line :: rows' =>
      match last_entry rows' name with
      | Some v => Some v
      | None =>
          match row_entry line with
          | Some (n, v) => if str_eqb name n then Some v else None
          | None => None
          end
      end
  end.

Definition row_name (line : str) : str := hd [] (split line).

(** The listing parser reads exactly the rows [rows] of the text [lines]:
    one entry per distinct name, each holding the versions of the last row
    with that name. *)
Definition parses_rows (lines rows : list str) : Prop :=
  exists packages,
    parse_pip_list_output lines = Some packages
    /\ (forall name, dict_get packages name = last_entry rows name)
    /\ length packages
       = length (nodup (list_eq_dec ascii_dec) (map row_name rows))
    /\ length packages <= length rows
    /\ (NoDup (map row_name rows) -> length packages = length rows).

(** ** Statements about the release selector *)

(** A release file is kept when it passes the three tests. *)
Definition keep_release_file (cpython_tag : str)
  (release_file : ReleaseFile) : bool :=
  tag_accepted cpython_tag release_file
  && is_wheel release_file
  && suffix_accepted release_file.

(** The two lines a kept release file adds. *)
Definition filename_line (release_file : ReleaseFile) : str :=
  spaces indentation ++ lit "#  - " ++ filename release_file.

Definition hash_line (release_file : ReleaseFile) : str :=
  lit "--hash=sha256:" ++ sha256 release_file.

(** File names of wheels for 32-bit platforms: the platform tags [win32],
    [i686] and [armv7l]. *)
Definition is_32bit_wheel_name (name : str) : Prop :=
  exists pre suffix,
    In suffix [lit "win32.whl"; lit "i686.whl"; lit "armv7l.whl"]
    /\ name = pre ++ suffix.

(** The number of spaces a line starts with. *)
Fixpoint leading_spaces (line : str) : nat :=
  match line with
  | c :: line' => if Ascii.eqb c " " then S (leading_spaces line') else 0
  | [] => 0
  end.

(** The block of a package from the release files of its version. *)
Definition generated_text (cpython_tag package_name desired_version : str)
  (desired_version_files : list ReleaseFile) : str :=
  let (filenames, hashes) :=
    select_files cpython_tag desired_version_files [] [] in
  block_text package_name desired_version filenames hashes.

(** ** Statements about the block rewriter *)

(** A sequence of one-character items matches at the start of a text. *)
Fixpoint pmatch (pat : list charset) (s : str) {struct pat} : bool :=
  match pat, s with
  | [], _ => true
  | cs :: pat', c :: s' => cs_mem cs c && pmatch pat' s'
  | _ :: _, [] => false
  end.

(** The first position of a text where the items match. *)
Fixpoint find_first (pat : list charset) (s : str) : option nat :=
  if pmatch pat s then Some 0
  else match s with
       | [] => None
       | _ :: s' => option_map S (find_first pat s')
       end.

(** The items match somewhere in the text. *)
Definition occurs (pat : list charset) (s : str) : bool :=
  match find_first pat s with
  | Some _ => true
  | None => false
  end.

(** The span a block pattern matches at the start of a text: the opening
    delimiter, then as little as possible up to the closing one. *)
Definition block_match_len (name : list charset) (s : str) : option nat :=
  if pmatch (opening_items name) s
  then
    match find_first (closing_items name)
            (skipn (length (opening_items name)) s) with
    | Some j =>
        Some (length (opening_items name) + j
              + length (closing_items name))
    | None => None
    end
  else None.

(** [rewritten span repl s t]: the text [t] is the text [s] with each
    span replaced by [repl], the spans taken leftmost first and without
    overlap; what lies before, between and after them is kept. *)
Inductive rewritten (span : str -> option nat) (repl : str)
  : str -> str -> Prop :=
| rewritten_rest (s : str) :
    (forall i, i < length s -> span (skipn i s) = None) ->
    rewritten span repl s s
| rewritten_span (before matched after out : str) :
    (forall i, i < length before ->
               span (skipn i (before ++ matched ++ after)) = None) ->
    span (matched ++ after) = Some (length matched) ->
    matched <> [] ->
    rewritten span repl after out ->
    rewritten span repl (before ++ matched ++ after)
      (before ++ repl ++ out).

(** The replacement of a package's block holds a match of the closing
    delimiter at its end and nowhere before. *)
Definition block_closed_once (package_name updated_line : str) : bool :=
  match pasted package_name,
        expand_template (block_template package_name updated_line) with
  | Some name, Some repl =>
      negb (occurs (closing_items name) (removelast repl))
  | _, _ => false
  end.

(** ** Statements about a run *)

(** The packages the first loop skips. *)
Definition skipped (package_name : str) : bool :=
  mem package_name [lit "vtk"; lit "simpleitk"].

Definition not_skipped (item : str * Versions) : bool :=
  negb (skipped (fst item)).

(** The release files kept for a package, given what the index answers. *)
Definition kept_files (env : Env) (cpython_tag : str)
  (releases : dict (list ReleaseFile)) (versions : Versions)
  : list ReleaseFile :=
  filter (keep_release_file cpython_tag)
    match dict_get releases (desired_version_of env cpython_tag versions) with
    | Some files => files
    | None => []
    end.

(** The mismatches of a tree, file by file. *)
Definition mismatches_of (d : Directory) : list Mismatch :=
  flat_map
    (fun filepath =>
       match dict_get d filepath with
       | Some file_text => file_mismatches filepath file_text
       | None => []
       end)
    (keys d).

(** A computation only adds events to the log. *)
Definition log_grows {A} (c : M A) : Prop :=
  forall w a w', c w = Some (a, w') -> exists evs, log w' = log w ++ evs.

(** ** Sample data *)

Module Sample.

Definition nopip (installation_path : option str) (outdated : bool) : str :=
  lit "Package Version" ++ [nl] ++ lit "------- -------" ++ [nl].

(** The names and the blocks of the samples are inside the modelled
    fragment of [re]; outside of it the [re.sub] of their environments
    raises. *)
Definition no_other (pattern repl text : str) : option str := None.

(** An index with one version of [foo]: a 32-bit wheel and a pure-Python
    wheel. *)
Definition foo_win32 : ReleaseFile :=
  MkReleaseFile (lit "cp311") (lit "foo-2.0.0-cp311-cp311-win32.whl")
    (lit "bdist_wheel") (lit "0badc0de").

Definition foo_any : ReleaseFile :=
  MkReleaseFile (lit "py3") (lit "foo-2.0.0-py3-none-any.whl")
    (lit "bdist_wheel") (lit "deadbeef").

Definition foo_index (package_name : str)
  : option (dict (list ReleaseFile)) :=
  if str_eqb package_name (lit "foo")
  then Some [(lit "2.0.0", [foo_win32; foo_any])]
  else Some [].

Definition foo_env : Env :=
  MkEnv (lit "cp311") nopip foo_index (lit "SuperBuild") no_other.

(** The scenario of the rewriter: a file, the block text and the result. *)
Definition foo_file : str :=
  lit "# [foo]" ++ [nl] ++ lit "old text" ++ [nl] ++ lit "  # [/foo]".

Definition foo_continued_block : str :=
  lit "  foo==2.0.0 " ++ [backslash; nl] ++ lit "    --hash=sha256:deadbeef".

Definition foo_rewritten : str :=
  lit "# [foo]" ++ [nl] ++ lit "  foo==2.0.0 " ++ [backslash; nl]
  ++ lit "    --hash=sha256:deadbeef" ++ [nl] ++ lit "  # [/foo]".

(** A tree in which a block of [vtk] lies inside the span of [foo]. *)
Definition nested_file : str :=
  lit "# [foo] # [vtk]" ++ [nl] ++ lit "  vtk==9.2.6" ++ [nl]
  ++ lit "  # [/vtk] # [/foo]" ++ [nl].

Definition nested_world : World :=
  MkWorld [(lit "SuperBuild/External_python-foo.cmake", nested_file)] [].

(** What [pip list --outdated] prints when [vtk] and [foo] are outdated. *)
Definition nested_listing (installation_path : option str) (outdated : bool)
  : str :=
  lit "Package Version Latest Type" ++ [nl]
  ++ lit "------- ------- ------ -----" ++ [nl]
  ++ lit "vtk     9.2.6   9.3.0  wheel" ++ [nl]
  ++ lit "foo     1.0.0   2.0.0  wheel" ++ [nl].

Definition nested_env : Env :=
  MkEnv (lit "cp311") nested_listing foo_index (lit "SuperBuild") no_other.

Definition nested_packages : dict Versions :=
  [(lit "vtk", (lit "9.2.6", lit "9.3.0"));
   (lit "foo", (lit "1.0.0", lit "2.0.0"))].

(** An index whose package name has a dot, and a file with a block of
    another package. *)
Definition dotted_index (package_name : str)
  : option (dict (list ReleaseFile)) :=
  if str_eqb package_name (lit "a.b")
  then Some [(lit "1.0",
              [MkReleaseFile (lit "py3") (lit "a.b-1.0-py3-none-any.whl")
                 (lit "bdist_wheel") (lit "ab12")])]
  else Some [].

Definition dotted_listing (installation_path : option str) (outdated : bool)
  : str :=
  lit "Package Version Latest Type" ++ [nl]
  ++ lit "------- ------- ------ -----" ++ [nl]
  ++ lit "a.b     0.9     1.0    wheel" ++ [nl].

Definition dotted_env : Env :=
  MkEnv (lit "cp311") dotted_listing dotted_index (lit "SuperBuild")
    no_other.

Definition other_file : str :=
  lit "# [acb]" ++ [nl] ++ lit "  acb==0.1 --hash=sha256:cd34" ++ [nl]
  ++ lit "  # [/acb]" ++ [nl].

Definition other_world : World :=
  MkWorld [(lit "SuperBuild/External_python-acb.cmake", other_file)] [].

Definition other_rewritten : str :=
  lit "# [a.b]" ++ [nl] ++ lit "  a.b==1.0 --hash=sha256:ab12" ++ [nl]
  ++ lit "  # [/a.b]" ++ [nl].

End Sample.

(** ** Statements about the delimiter validator *)

(** The identifier of a hint and what follows it: one or more characters
    of the class, of which the last one read back is the closing bracket
    that ends the line.  [ident_end v] is the longest [r] with
    [v = r ++ "]" ++ rest], [r] in the class and [rest] at an end of
    line. *)
Fixpoint ident_end (v : str) : option str :=
  match v with
  | [] => None
  | c :: v' =>
      if cs_mem hint_class c
      then match ident_end v' with
           | Some r => Some (c :: r)
           | None =>
               if Ascii.eqb c "]" && at_eol v' then Some [] else None
           end
      else None
  end.

Definition hint_ident (v : str) : option str :=
  match v with
  | c :: v' =>
      if cs_mem hint_class c then option_map (cons c) (ident_end v')
      else None
  | [] => None
  end.

(** The hint that starts at the beginning of a line of the text [s]:
    white space, [# [], an optional slash and the identifier.  The result
    is the identifier (with its slash) and the length of what is read. *)
Definition hint_at (s : str) : option (nat * str) :=
  let t := lstrip s in
  let white := length s - length t in
  if startswith t (lit "# [")
  then
    let u := skipn 3 t in
    match
      match u with
      | c :: v => if Ascii.eqb c "/" then hint_ident v else None
      | [] => None
      end
    with
    | Some g => Some (white + 3 + 1 + length g + 1, "/"%char :: g)
    | None =>
        match hint_ident u with
        | Some g => Some (white + 3 + length g + 1, g)
        | None => None
        end
    end
  else None.

(** The hint of one line, if the line is a delimiter line. *)
Definition hint_of_line (line : str) : list str :=
  match hint_at line with
  | Some (_, g) => [g]
  | None => []
  end.

(** A name that can stand between the brackets of a delimiter. *)
Definition hint_name (name : str) : Prop :=
  name <> [] /\ Forall (fun c => cs_mem hint_class c = true) name.

(** The two delimiter lines of a package, behind some white space. *)
Definition opening_line (white name : str) : str :=
  white ++ lit "# [" ++ name ++ lit "]".

Definition closing_line (white name : str) : str :=
  white ++ lit "# [/" ++ name ++ lit "]".

Definition blank (white : str) : Prop :=
  Forall (fun c => isspace c = true /\ c <> nl) white.

(** A file as its lines. *)
Definition unlines (lines : list str) : str := join [nl] lines.

Definition is_lines (lines : list str) : Prop :=
  Forall (fun line => ~ In nl line) lines.




(** The text of a file has exactly one delimiter line, an opening one. *)
Definition one_opening (file_text name : str) : Prop :=
  exists before after white,
    file_text = unlines (before ++ opening_line white name :: after)
    /\ is_lines (before ++ opening_line white name :: after)
    /\ blank white /\ hint_name name
    /\ Forall (fun line => hint_of_line line = []) (before ++ after).

(** ** Further statements about the listing parser *)

(** A token of a listing: not empty and without white space. *)
Definition is_token (t : str) : Prop :=
  t <> [] /\ Forall (fun c => isspace c = false) t.

(** The row of an entry, its three tokens one space apart. *)
Definition listing_row (entry : str * Versions) : str :=
  fst entry ++ lit " " ++ fst (snd entry) ++ lit " " ++ snd (snd entry).

Definition entry_tokens (entry : str * Versions) : Prop :=
  is_token (fst entry) /\ is_token (fst (snd entry))
  /\ is_token (snd (snd entry)).

(** The text of some lines, each ended by a newline. *)
Definition terminated (lines : list str) : str :=
  concat (map (fun line => line ++ [nl]) lines).

(** ** Further statements about the delimiter validator *)

(** The two lines of the summary for one mismatch. *)
Definition mismatch_lines (mismatch : Mismatch) : list str :=
  let '(filepath, first, second) := mismatch in
  [filepath; lit "  " ++ first ++ lit " != " ++ second].

Definition mismatch_one_line (mismatch : Mismatch) : Prop :=
  let '(filepath, first, second) := mismatch in
  ~ In nl filepath /\ ~ In nl first /\ ~ In nl second.

(** The text of a file has exactly two delimiter lines, both opening
    ones. *)
Definition two_openings (file_text first second : str) : Prop :=
  exists before body after white1 white2,
    file_text
    = unlines (before ++ opening_line white1 first
               :: body ++ opening_line white2 second :: after)
    /\ is_lines (before ++ opening_line white1 first
                 :: body ++ opening_line white2 second :: after)
    /\ blank white1 /\ blank white2
    /\ hint_name first /\ hint_name second
    /\ Forall (fun line => hint_of_line line = []) (before ++ body ++ after).

(** Lines that look like a delimiter line and are none for the validator:
    a delimiter with something outside the class behind its bracket, and a
    line with something else than white space before the marker. *)
Inductive hidden_line : str -> Prop :=
| hidden_opening (white name : str) (c : ascii) (t : str) :
    blank white -> hint_name name -> cs_mem hint_class c = false ->
    hidden_line (opening_line white name ++ c :: t)
| hidden_closing (white name : str) (c : ascii) (t : str) :
    blank white -> hint_name name -> cs_mem hint_class c = false ->
    hidden_line (closing_line white name ++ c :: t)
| hidden_inline (white : str) (c : ascii) (t : str) :
    blank white -> isspace c = false -> c <> "#"%char ->
    hidden_line (white ++ c :: t).

(** ** Further statements about a run *)

(** The substitutions of the inner loop, one after the other. *)
Fixpoint substitute_all (env : Env) (lines_to_write : list (str * str))
  (file_text : str) : option str :=
  match lines_to_write with
  | [] => Some file_text
  | (package_name, updated_line) :: lines' =>
      match re_sub env package_name updated_line file_text with
      | Some file_text' => substitute_all env lines' file_text'
      | None => None
      end
  end.

(** The accesses to files in a log: [(false, path)] for a read and
    [(true, path)] for a write. *)
Definition accesses (events : list Event) : list (bool * str) :=
  flat_map
    (fun e =>
       match e with
       | EvRead filepath => [(false, filepath)]
       | EvWrite filepath _ => [(true, filepath)]
       | _ => []
       end)
    events.

(** A read or a write of a file. *)
Definition file_access (e : Event) : bool :=
  match e with
  | EvRead _ | EvWrite _ _ => true
  | _ => false
  end.

(** The comment line above the file names of a block. *)
Definition hashes_header : str :=
  spaces indentation ++ lit "# Hashes correspond to the following packages:".

(** The text of the delimiters of a package. *)
Definition opening_tag (package_name : str) : str :=
  lit "# [" ++ package_name ++ lit "]".

Definition closing_tag (package_name : str) : str :=
  lit "# [/" ++ package_name ++ lit "]".

(** The characters of the package names of the index: letters, digits,
    the dot, the hyphen and the underscore. *)
Definition name_char (c : ascii) : bool :=
  isasciiletter c || isdigit c || Ascii.eqb c "." || Ascii.eqb c "-"
  || Ascii.eqb c "_".

(** A character other than the opening bracket. *)
Definition no_bracket (c : ascii) : bool := negb (Ascii.eqb c "[").

(** The characters of what else goes into a block (versions, the names
    of wheels, hex digests): anything but an opening bracket and a
    backslash. *)
Definition block_char (c : ascii) : bool :=
  no_bracket c && negb (Ascii.eqb c backslash).

(** A replacement inside the modelled fragment: [re] accepts it and it
    has neither a group reference nor an octal escape. *)
Definition plain_template (template : str) : Prop :=
  expand_template template <> None.

(** * Properties *)

(** ** Strings and dictionaries *)

Lemma str_eqb_eq (a b : str) : str_eqb a b = true <-> a = b.
Proof.
  revert b; induction a as [|x a IH]; intros [|y b]; simpl;
    try (split; congruence).
  rewrite andb_true_iff, Ascii.eqb_eq, IH. split.
  - intros [-> ->]; reflexivity.
  - intros H; inversion H; auto.
Qed.

Lemma str_eqb_refl (a : str) : str_eqb a a = true.
Proof. apply str_eqb_eq; reflexivity. Qed.

Lemma str_eqb_neq (a b : str) : str_eqb a b = false <-> a <> b.
Proof.
  rewrite <- str_eqb_eq. destruct (str_eqb a b); split; congruence.
Qed.

Lemma str_eqb_sym (a b : str) : str_eqb a b = str_eqb b a.
Proof.
  destruct (str_eqb a b) eqn:E.
  - apply str_eqb_eq in E; subst; symmetry; apply str_eqb_refl.
  - symmetry; apply str_eqb_neq. apply str_eqb_neq in E. congruence.
Qed.

Lemma startswith_spec (s p : str) :
  startswith s p = true <-> exists t, s = p ++ t.
Proof.
  revert s; induction p as [|x p IH]; intros s; simpl.
  - split; [intros _; exists s; reflexivity | reflexivity].
  - destruct s as [|y s].
    + split; [discriminate | intros [t H]; discriminate].
    + rewrite andb_true_iff, Ascii.eqb_eq, IH. split.
      * intros [-> [t ->]]; eauto.
      * intros [t H]; inversion H; eauto.
Qed.

Lemma endswith_spec (s p : str) :
  endswith s p = true <-> exists t, s = t ++ p.
Proof.
  unfold endswith. rewrite startswith_spec. split.
  - intros [t H]. exists (rev t).
    rewrite <- (rev_involutive s), H, rev_app_distr, rev_involutive.
    reflexivity.
  - intros [t ->]. exists (rev t). apply rev_app_distr.
Qed.

Lemma contains_spec (s p : str) :
  contains s p = true <-> exists a b, s = a ++ p ++ b.
Proof.
  induction s as [|c s IH].
  - simpl. rewrite orb_false_r, startswith_spec. split.
    + intros [t H]. exists [], t. exact H.
    + intros [a [b H]]. destruct a; [eauto | discriminate].
  - simpl. rewrite orb_true_iff, startswith_spec, IH. split.
    + intros [[t H] | [a [b H]]].
      * exists [], t. exact H.
      * exists (c :: a), b. simpl; congruence.
    + intros [[|x a] [b H]].
      * left; eauto.
      * right. inversion H. eauto.
Qed.

Lemma mem_spec (x : str) (xs : list str) : mem x xs = true <-> In x xs.
Proof.
  unfold mem. rewrite existsb_exists. split.
  - intros [y [Hy E]]. apply str_eqb_eq in E; subst; auto.
  - intros H. exists x. split; [auto | apply str_eqb_refl].
Qed.

Lemma spaces_length (n : nat) : length (spaces n) = n.
Proof. apply repeat_length. Qed.

Section Dict.

Variable V : Type.
Implicit Types (d : dict V) (k : str) (v : V).

Lemma dict_get_set d k v k' :
  dict_get (dict_set d k v) k'
  = if str_eqb k' k then Some v else dict_get d k'.
Proof.
  induction d as [|[k0 v0] d IH]; simpl.
  - reflexivity.
  - destruct (str_eqb k k0) eqn:E; simpl.
    + apply str_eqb_eq in E; subst.
      destruct (str_eqb k' k0); reflexivity.
    + rewrite IH. destruct (str_eqb k' k0) eqn:E0; [|reflexivity].
      apply str_eqb_eq in E0; subst.
      rewrite str_eqb_sym, E. reflexivity.
Qed.

Lemma dict_get_in d k : dict_get d k <> None <-> In k (keys d).
Proof.
  induction d as [|[k0 v0] d IH]; simpl.
  - split; [congruence | tauto].
  - destruct (str_eqb k k0) eqn:E.
    + apply str_eqb_eq in E; subst. split; [auto | congruence].
    + rewrite IH. apply str_eqb_neq in E. split; [auto | ].
      intros [H | H]; [congruence | exact H].
Qed.

Lemma keys_set d k v :
  keys (dict_set d k v) = if mem k (keys d) then keys d else keys d ++ [k].
Proof.
  induction d as [|[k0 v0] d IH]; simpl.
  - reflexivity.
  - destruct (str_eqb k k0) eqn:E; simpl.
    + reflexivity.
    + unfold keys in *. rewrite IH. fold (mem k (map fst d)).
      destruct (mem k (map fst d)); reflexivity.
Qed.

Lemma keys_set_nodup d k v : NoDup (keys d) -> NoDup (keys (dict_set d k v)).
Proof.
  intros H. rewrite keys_set. destruct (mem k (keys d)) eqn:E; [exact H|].
  apply NoDup_app; [exact H | repeat constructor; simpl; tauto |].
  intros x Hx [<- | []].
  apply mem_spec in Hx. congruence.
Qed.

End Dict.

(** ** Listing parser *)

Lemma lstrip_nil (s : str) : lstrip s = [] <-> forallb isspace s = true.
Proof.
  induction s as [|c s IH]; simpl.
  - tauto.
  - destruct (isspace c); simpl; [exact IH | split; discriminate].
Qed.

Lemma lstrip_head (s : str) c t : lstrip s = c :: t -> isspace c = false.
Proof.
  induction s as [|x s IH]; simpl; [discriminate|].
  destruct (isspace x) eqn:E; [exact IH | congruence].
Qed.

Lemma strip_nil (s : str) : strip s = [] -> forallb isspace s = true.
Proof.
  unfold strip, rstrip. intros H. apply lstrip_nil.
  destruct (lstrip s) as [|c t] eqn:E; [reflexivity|].
  exfalso.
  assert (Hs : forallb isspace (rev (c :: t)) = true).
  { apply lstrip_nil. destruct (lstrip (rev (c :: t))); [reflexivity|].
    apply (f_equal (@length ascii)) in H.
    rewrite length_rev in H. discriminate. }
  rewrite forallb_forall in Hs.
  specialize (Hs c). rewrite (lstrip_head _ _ _ E) in Hs.
  assert (false = true); [|discriminate].
  apply Hs. rewrite <- in_rev. left; reflexivity.
Qed.

Lemma split_blank (s : str) : forallb isspace s = true -> split s = [].
Proof.
  unfold split. induction s as [|c s IH]; simpl; [reflexivity|].
  intros H. apply andb_true_iff in H as [-> H]. auto.
Qed.

Lemma row_not_blank (line : str) :
  2 <= length (split line) -> strip line <> [].
Proof.
  intros H E. apply strip_nil, split_blank in E.
  rewrite E in H. simpl in H. lia.
Qed.

Lemma parse_rows_app (rows tail : list str) (packages : dict Versions) :
  Forall (fun line => 2 <= length (split line)) rows ->
  parse_rows (rows ++ tail) packages
  = parse_rows tail (fold_left add_row rows packages).
Proof.
  intros H; revert packages. induction H as [|line rows Hl _ IH];
    intros packages; simpl; [reflexivity|].
  pose proof (row_not_blank _ Hl) as Hs.
  destruct (strip line) as [|c t]; [congruence|].
  unfold add_row at 2, row_entry.
  destruct (split line) as [|name [|a [|b more]]]; simpl in Hl; try lia;
    apply IH.
Qed.

Lemma row_entry_name (line : str) :
  2 <= length (split line) ->
  exists v, row_entry line = Some (row_name line, v).
Proof.
  unfold row_entry, row_name.
  destruct (split line) as [|name [|a [|b more]]]; simpl; try lia; eauto.
Qed.

Lemma fold_add_row_get (rows : list str) (packages : dict Versions) name :
  dict_get (fold_left add_row rows packages) name
  = match last_entry rows name with
    | Some v => Some v
    | None => dict_get packages name
    end.
Proof.
  revert packages; induction rows as [|line rows IH]; intros packages;
    simpl; [reflexivity|].
  rewrite IH. destruct (last_entry rows name); [reflexivity|].
  unfold add_row. destruct (row_entry line) as [[n v]|]; [|reflexivity].
  rewrite dict_get_set. destruct (str_eqb name n); reflexivity.
Qed.

Lemma fold_add_row_nodup (rows : list str) (packages : dict Versions) :
  NoDup (keys packages) -> NoDup (keys (fold_left add_row rows packages)).
Proof.
  revert packages; induction rows as [|line rows IH]; intros packages H;
    simpl; [exact H|].
  apply IH. unfold add_row. destruct (row_entry line) as [[n v]|]; [|exact H].
  apply keys_set_nodup, H.
Qed.

Lemma last_entry_in (rows : list str) name :
  Forall (fun line => 2 <= length (split line)) rows ->
  last_entry rows name <> None <-> In name (map row_name rows).
Proof.
  induction 1 as [|line rows Hl _ IH]; simpl; [tauto|].
  destruct (row_entry_name _ Hl) as [v Hv]. rewrite Hv.
  destruct (last_entry rows name).
  - split; [intros _; right; apply IH; congruence | congruence].
  - destruct (str_eqb name (row_name line)) eqn:E.
    + apply str_eqb_eq in E. split; [auto | congruence].
    + apply str_eqb_neq in E. split; [congruence|].
      intros [H | H]; [congruence | apply IH in H; congruence].
Qed.

Lemma rows_parsed (rows : list str) :
  Forall (fun line => 2 <= length (split line)) rows ->
  let packages := fold_left add_row rows [] in
  (forall name, dict_get packages name = last_entry rows name)
  /\ length packages
     = length (nodup (list_eq_dec ascii_dec) (map row_name rows))
  /\ length packages <= length rows
  /\ (NoDup (map row_name rows) -> length packages = length rows).
Proof.
  intros H packages.
  assert (Hget : forall name, dict_get packages name = last_entry rows name).
  { intros name. unfold packages. rewrite fold_add_row_get.
    destruct (last_entry rows name); reflexivity. }
  assert (Hnd : NoDup (keys packages)).
  { apply fold_add_row_nodup. constructor. }
  assert (Hin : forall name,
             In name (keys packages) <-> In name (map row_name rows)).
  { intros name. rewrite <- dict_get_in, Hget. apply last_entry_in, H. }
  assert (Hlen : length packages
                 = length (nodup (list_eq_dec ascii_dec)
                             (map row_name rows))).
  { rewrite <- (length_map fst packages). fold (keys packages).
    apply Nat.le_antisymm; apply NoDup_incl_length;
      try exact Hnd; try apply NoDup_nodup;
      intros x Hx;
      [apply nodup_In, Hin, Hx | apply Hin; apply nodup_In in Hx; exact Hx]. }
  repeat split; auto.
  - rewrite Hlen, <- (length_map row_name rows).
    apply NoDup_incl_length; [apply NoDup_nodup|].
    intros x Hx. apply nodup_In in Hx. exact Hx.
  - intros Hn. rewrite Hlen, nodup_fixed_point, length_map; auto.
Qed.

(** C2, as the code has it: for every listing of two header lines, [N]
    data rows of at least two tokens each and a blank line after them
    (any further lines may follow), [parse_pip_list_output] returns a
    mapping with one entry per distinct name, [N] of them when no name is
    repeated, in which a row [name A B ...] maps [name] to [(A, B)], a row
    [name A] maps it to [(A, A)] and the last row of a name wins.  The
    blank line is needed: the last line of the sequence is never read. *)
Theorem parse_pip_list_output_rows (h1 h2 : str) (rows : list str)
  (blank : str) (more : list str) :
  Forall (fun line => 2 <= length (split line)) rows ->
  strip blank = [] ->
  parses_rows (h1 :: h2 :: rows ++ blank :: more) rows.
Proof.
  intros Hrows Hblank.
  exists (fold_left add_row rows []). split; [|apply rows_parsed, Hrows].
  unfold parse_pip_list_output, data_lines. simpl skipn.
  rewrite removelast_app by discriminate.
  rewrite parse_rows_app by exact Hrows.
  destruct more as [|x more]; simpl; [reflexivity|].
  rewrite Hblank. reflexivity.
Qed.

Lemma parse_pip_list_output_rows_witness :
  parses_rows
    [lit "Package Version Latest Type"; lit "------- ------- ------ -----";
     lit "asn1crypto 0.24.0 1.4.0 wheel"; lit "six 1.16.0"; lit ""]
    [lit "asn1crypto 0.24.0 1.4.0 wheel"; lit "six 1.16.0"].
Proof.
  apply (parse_pip_list_output_rows
           (lit "Package Version Latest Type")
           (lit "------- ------- ------ -----")
           [lit "asn1crypto 0.24.0 1.4.0 wheel"; lit "six 1.16.0"]
           (lit "") []).
  - repeat constructor.
  - reflexivity.
Defined.

(** C2 fails as stated: a listing of two header lines and one data row,
    without the trailing blank line, gives no entry at all. *)
Lemma parse_pip_list_output_no_trailing_blank :
  ~ parses_rows
      [lit "Package Version"; lit "------- -------"; lit "six 1.16.0"]
      [lit "six 1.16.0"].
Proof.
  intros [packages [Hparse [Hget _]]].
  vm_compute in Hparse. injection Hparse as <-.
  specialize (Hget (lit "six")). vm_compute in Hget. discriminate.
Qed.

(** ** Release selector *)

Lemma select_files_filter (cpython_tag : str) (files : list ReleaseFile)
  (filenames hashes : list str) :
  select_files cpython_tag files filenames hashes
  = (filenames
     ++ map filename_line (filter (keep_release_file cpython_tag) files),
     hashes ++ map hash_line (filter (keep_release_file cpython_tag) files)).
Proof.
  revert filenames hashes.
  induction files as [|rf files IH]; intros filenames hashes;
    cbn [select_files filter].
  - cbn [map]. rewrite !app_nil_r. reflexivity.
  - unfold keep_release_file, tag_accepted, is_wheel, suffix_accepted.
    destruct (mem (python_version rf) [lit "py3"; lit "py2.py3"; cpython_tag]);
      destruct (contains (filename rf) (lit "abi3"));
      destruct (str_eqb (packagetype rf) (lit "bdist_wheel"));
      destruct (existsb (endswith (filename rf))
                  [lit "py3-none-any.whl"; lit "64.whl";
                   lit "universal2.whl"]);
      cbn [negb andb orb map]; rewrite IH; rewrite <- ?app_assoc;
      reflexivity.
Qed.

Lemma suffix_accepted_spec (rf : ReleaseFile) :
  suffix_accepted rf = true
  <-> exists pre suffix,
        In suffix [lit "py3-none-any.whl"; lit "64.whl";
                   lit "universal2.whl"]
        /\ filename rf = pre ++ suffix.
Proof.
  unfold suffix_accepted. rewrite existsb_exists. split.
  - intros [suffix [Hin H]]. apply endswith_spec in H as [pre H]. eauto.
  - intros [pre [suffix [Hin H]]]. exists suffix. split; [exact Hin|].
    apply endswith_spec. eauto.
Qed.

Lemma is_32bit_rejected (rf : ReleaseFile) :
  is_32bit_wheel_name (filename rf) -> suffix_accepted rf = false.
Proof.
  intros [pre [suffix [Hin H]]]. unfold suffix_accepted, endswith.
  rewrite H, rev_app_distr.
  simpl in Hin. destruct Hin as [<- | [<- | [<- | []]]]; reflexivity.
Qed.

Lemma keep_release_file_spec (cpython_tag : str) (rf : ReleaseFile) :
  keep_release_file cpython_tag rf = true
  <-> (In (python_version rf) [lit "py3"; lit "py2.py3"; cpython_tag]
       \/ exists a b, filename rf = a ++ lit "abi3" ++ b)
      /\ packagetype rf = lit "bdist_wheel"
      /\ exists pre suffix,
           In suffix [lit "py3-none-any.whl"; lit "64.whl";
                      lit "universal2.whl"]
           /\ filename rf = pre ++ suffix.
Proof.
  unfold keep_release_file, tag_accepted, is_wheel.
  rewrite !andb_true_iff, orb_true_iff, mem_spec, contains_spec,
    str_eqb_eq, suffix_accepted_spec.
  tauto.
Qed.

(** C5: the loop over the release files of the desired version fills its
    two lists from exactly the files that pass the three tests: the
    declared [python_version] is [py3], [py2.py3] or the target tag, or
    the file name contains [abi3]; the [packagetype] is [bdist_wheel]; the
    file name ends with [py3-none-any.whl], [64.whl] or [universal2.whl].
    A file that is not a wheel, or whose name is a 32-bit platform wheel's,
    is never kept, and a version that has only such files yields nothing. *)
Theorem select_files_keeps (cpython_tag : str) (files : list ReleaseFile) :
  select_files cpython_tag files [] []
  = (map filename_line (filter (keep_release_file cpython_tag) files),
     map hash_line (filter (keep_release_file cpython_tag) files))
  /\ (forall rf,
        In rf (filter (keep_release_file cpython_tag) files)
        <-> In rf files
            /\ (In (python_version rf) [lit "py3"; lit "py2.py3"; cpython_tag]
                \/ exists a b, filename rf = a ++ lit "abi3" ++ b)
            /\ packagetype rf = lit "bdist_wheel"
            /\ exists pre suffix,
                 In suffix [lit "py3-none-any.whl"; lit "64.whl";
                            lit "universal2.whl"]
                 /\ filename rf = pre ++ suffix)
  /\ (forall rf,
        packagetype rf <> lit "bdist_wheel"
        \/ is_32bit_wheel_name (filename rf) ->
        keep_release_file cpython_tag rf = false)
  /\ ((forall rf, In rf files ->
         packagetype rf <> lit "bdist_wheel"
         \/ is_32bit_wheel_name (filename rf)) ->
      select_files cpython_tag files [] [] = ([], [])).
Proof.
  assert (Hrej : forall rf,
             packagetype rf <> lit "bdist_wheel"
             \/ is_32bit_wheel_name (filename rf) ->
             keep_release_file cpython_tag rf = false).
  { intros rf [H | H]; unfold keep_release_file.
    - apply str_eqb_neq in H. unfold is_wheel. rewrite H.
      rewrite andb_false_r. reflexivity.
    - rewrite (is_32bit_rejected _ H). apply andb_false_r. }
  split; [apply select_files_filter|].
  split; [|split; [exact Hrej|]].
  - intros rf. rewrite filter_In, keep_release_file_spec. tauto.
  - intros Hall. rewrite select_files_filter. simpl.
    replace (filter (keep_release_file cpython_tag) files) with
      (@nil ReleaseFile); [reflexivity|].
    symmetry. induction files as [|rf files IH]; simpl; [reflexivity|].
    rewrite (Hrej rf) by (apply Hall; left; reflexivity).
    apply IH. intros rf' Hin. apply Hall. right; exact Hin.
Qed.

Lemma select_files_keeps_witness :
  select_files (lit "cp311")
    [MkReleaseFile (lit "cp311") (lit "pkg-1.0-cp311-cp311-win32.whl")
       (lit "bdist_wheel") (lit "aa");
     MkReleaseFile (lit "source") (lit "pkg-1.0.tar.gz")
       (lit "sdist") (lit "bb")] [] []
  = ([], []).
Proof.
  apply (select_files_keeps (lit "cp311")).
  intros rf [<- | [<- | []]].
  - right. exists (lit "pkg-1.0-cp311-cp311-"), (lit "win32.whl").
    split; [left; reflexivity | reflexivity].
  - left. discriminate.
Defined.

(** ** Generated blocks *)

Lemma join_cons (sep p : str) (ps : list str) :
  join sep (p :: ps) = p ++ concat (map (fun x => sep ++ x) ps).
Proof.
  revert p; induction ps as [|q ps IH]; intros p.
  - simpl. rewrite app_nil_r. reflexivity.
  - change (join sep (p :: q :: ps)) with (p ++ sep ++ join sep (q :: ps)).
    rewrite IH. simpl. rewrite <- app_assoc. reflexivity.
Qed.

Lemma leading_spaces_indent (n : nat) (release_file : ReleaseFile) :
  leading_spaces (spaces n ++ hash_line release_file) = n.
Proof.
  unfold spaces. induction n as [|n IH]; [reflexivity|].
  cbn [repeat app leading_spaces]. rewrite IH. reflexivity.
Qed.

Lemma simple_package_version_length (package_name desired_version : str) :
  length (simple_package_version package_name desired_version)
  = 2 + length package_name + 2 + length desired_version + 1.
Proof.
  unfold simple_package_version. rewrite !length_app. simpl. lia.
Qed.

(** C7: when more than one release file is kept, the hash of the first
    follows the prefix [  <name>==<version> ] on its line, and the hash of
    every further one starts a new line, after a space and a backslash,
    behind exactly as many spaces as the prefix is long:
    [2 + len(name) + 2 + len(version) + 1]. *)
Theorem continuation_lines_aligned (package_name desired_version : str)
  (first second : ReleaseFile) (others : list ReleaseFile) :
  let prefix := simple_package_version package_name desired_version in
  let kept := first :: second :: others in
  let continuation (release_file : ReleaseFile) :=
    lit " " ++ [backslash; nl]
    ++ spaces (length prefix) ++ hash_line release_file in
  all_hashes package_name desired_version (map hash_line kept)
  = prefix ++ hash_line first ++ concat (map continuation (second :: others))
  /\ (exists header,
        block_text package_name desired_version
          (map filename_line kept) (map hash_line kept)
        = header
          ++ all_hashes package_name desired_version (map hash_line kept))
  /\ (forall release_file,
        In release_file (second :: others) ->
        leading_spaces (spaces (length prefix) ++ hash_line release_file)
        = length prefix)
  /\ length prefix
     = 2 + length package_name + 2 + length desired_version + 1.
Proof.
  intros prefix kept continuation. repeat split.
  - unfold all_hashes, kept. rewrite map_cons, join_cons, map_map.
    unfold hashes_joiner_text. fold prefix.
    reflexivity.
  - unfold block_text, kept. cbn [map length Nat.ltb Nat.leb].
    eexists. rewrite app_assoc. reflexivity.
  - intros rf _. apply leading_spaces_indent.
  - apply simple_package_version_length.
Qed.

Lemma continuation_lines_aligned_witness :
  leading_spaces
    (spaces (length (simple_package_version (lit "numpy") (lit "1.26.4")))
     ++ hash_line (MkReleaseFile (lit "cp311")
                     (lit "numpy-1.26.4-cp311-cp311-win_amd64.whl")
                     (lit "bdist_wheel") (lit "cafe")))
  = 16.
Proof.
  apply (continuation_lines_aligned (lit "numpy") (lit "1.26.4")
           (MkReleaseFile (lit "cp311")
              (lit "numpy-1.26.4-cp311-cp311-manylinux_x86_64.whl")
              (lit "bdist_wheel") (lit "beef"))
           (MkReleaseFile (lit "cp311")
              (lit "numpy-1.26.4-cp311-cp311-win_amd64.whl")
              (lit "bdist_wheel") (lit "cafe"))
           []).
Defined.

(** ** The matcher on the block pattern *)

Lemma pmatch_length (pat : list charset) (s : str) :
  pmatch pat s = true -> length pat <= length s.
Proof.
  revert s; induction pat as [|cs pat IH]; intros [|c s]; simpl;
    try lia; try discriminate.
  intros H. apply andb_true_iff in H as [_ H]. apply IH in H. lia.
Qed.

Lemma pmatch_app (pat : list charset) (s t : str) :
  length pat <= length s -> pmatch pat (s ++ t) = pmatch pat s.
Proof.
  revert s; induction pat as [|cs pat IH]; intros [|c s]; simpl;
    try lia; try reflexivity.
  intros H. rewrite IH by lia. reflexivity.
Qed.

Lemma m_chars (A : Type) (pat : list charset) (k : mstate -> option A)
  (st : mstate) :
  m (chars pat) k st
  = if pmatch pat (rest st)
    then k (MState
              (fold_left (fun _ c => Some c)
                 (firstn (length pat) (rest st)) (prev st))
              (skipn (length pat) (rest st)) (caps st))
    else None.
Proof.
  revert st; induction pat as [|cs pat IH]; intros [p s cs0]; simpl.
  - reflexivity.
  - destruct s as [|c s]; [reflexivity|].
    destruct (cs_mem cs c); simpl; [|reflexivity].
    rewrite IH. reflexivity.
Qed.

Lemma star_lazy_any (A : Type) (pat : list charset)
  (f : option ascii -> str -> A) (p : option ascii) (s : str) :
  star_lazy CAny (fun p' s' => if pmatch pat s' then Some (f p' s') else None)
    p s
  = match find_first pat s with
    | Some j =>
        Some (f (fold_left (fun _ c => Some c) (firstn j s) p) (skipn j s))
    | None => None
    end.
Proof.
  revert p; induction s as [|c s IH]; intros p; simpl.
  - destruct (pmatch pat []); reflexivity.
  - destruct (pmatch pat (c :: s)); [reflexivity|].
    rewrite IH. destruct (find_first pat s); reflexivity.
Qed.

Lemma find_first_some (pat : list charset) (s : str) (j : nat) :
  find_first pat s = Some j ->
  pmatch pat (skipn j s) = true /\ j + length pat <= length s
  /\ forall i, i < j -> pmatch pat (skipn i s) = false.
Proof.
  revert j; induction s as [|c s IH]; intros j; simpl.
  - destruct (pmatch pat []) eqn:E; [|discriminate].
    intros [= <-]. simpl. rewrite E.
    apply pmatch_length in E. simpl in E. repeat split; lia.
  - destruct (pmatch pat (c :: s)) eqn:E.
    + intros [= <-]. simpl. rewrite E.
      apply pmatch_length in E. simpl in E. repeat split; lia.
    + destruct (find_first pat s) as [j'|]; [|discriminate].
      intros [= <-]. destruct (IH j' eq_refl) as [H1 [H2 H3]].
      simpl. repeat split; [exact H1 | lia |].
      intros [|i] Hi; simpl; [exact E | apply H3; lia].
Qed.

Lemma find_first_none (pat : list charset) (s : str) (i : nat) :
  find_first pat s = None -> pmatch pat (skipn i s) = false.
Proof.
  revert i; induction s as [|c s IH]; intros i; simpl.
  - destruct (pmatch pat []) eqn:E; [discriminate|].
    intros _. destruct i; exact E.
  - destruct (pmatch pat (c :: s)) eqn:E; [discriminate|].
    destruct (find_first pat s); [discriminate|].
    intros _. destruct i; simpl; [exact E | apply IH; reflexivity].
Qed.

Lemma find_first_least (pat : list charset) (s : str) (j : nat) :
  pmatch pat (skipn j s) = true ->
  (forall i, i < j -> pmatch pat (skipn i s) = false) ->
  find_first pat s = Some j.
Proof.
  intros H Hlt. destruct (find_first pat s) as [j'|] eqn:E.
  - destruct (find_first_some _ _ _ E) as [H1 [_ H3]].
    destruct (Nat.lt_trichotomy j j') as [L | [-> | L]]; [| reflexivity |].
    + rewrite (H3 _ L) in H. discriminate.
    + rewrite (Hlt _ L) in H1. discriminate.
  - rewrite (find_first_none _ _ j E) in H. discriminate.
Qed.

Lemma m_seq (A : Type) (r1 r2 : regex) (k : mstate -> option A) st :
  m (Seq r1 r2) k st = m r1 (m r2 k) st.
Proof. reflexivity. Qed.

Lemma m_group (A : Type) (n : nat) (r : regex) (k : mstate -> option A) st :
  m (Group n r) k st
  = m r (fun st' =>
           k (MState (prev st') (rest st')
                ((n, captured (rest st) (rest st')) :: caps st'))) st.
Proof. reflexivity. Qed.

Lemma m_star_lazy (A : Type) (cs : charset) (k : mstate -> option A) st :
  m (Star false cs) k st
  = star_lazy cs (fun p s => k (MState p s (caps st))) (prev st) (rest st).
Proof. reflexivity. Qed.

Lemma star_lazy_ext (A : Type) (cs : charset)
  (k k' : option ascii -> str -> option A) (p : option ascii) (s : str) :
  (forall p' s', k p' s' = k' p' s') ->
  star_lazy cs k p s = star_lazy cs k' p s.
Proof.
  intros H. revert p; induction s as [|c s IH]; intros p; simpl;
    rewrite H; [reflexivity|].
  destruct (k' p (c :: s)); [reflexivity|].
  destruct (cs_mem cs c); [apply IH | reflexivity].
Qed.

Lemma match_at_block (name : list charset) (p : option ascii) (s : str) :
  option_map fst (match_at (block_pattern name) p s)
  = block_match_len name s.
Proof.
  unfold block_pattern.
  unfold match_at, block_match_len.
  rewrite m_seq, m_group, m_chars. cbn [rest prev caps].
  destruct (pmatch (opening_items name) s) eqn:Ho; [|reflexivity].
  rewrite m_seq, m_star_lazy. cbn [rest prev caps].
  erewrite star_lazy_ext.
  2:{ intros p' s'. rewrite m_group, m_chars. cbn [rest prev caps].
      reflexivity. }
  rewrite star_lazy_any.
  destruct (find_first (closing_items name)
              (skipn (length (opening_items name)) s)) as [j|] eqn:Hc;
    [|reflexivity].
  cbn [option_map fst rest]. f_equal.
  apply find_first_some in Hc as [H1 [H2 _]].
  apply pmatch_length in Ho.
  rewrite length_skipn in H2.
  rewrite !length_skipn. lia.
Qed.

(** ** The scan of [re.sub] *)

Section Scan.

Variables (r : regex) (repl : str) (span : str -> option nat).

Hypothesis span_spec :
  forall p s, option_map fst (match_at r p s) = span s.

Hypothesis span_bounds :
  forall s n, span s = Some n -> 0 < n <= length s.

Lemma sub_from_prev (p p' : option ascii) (s : str) (skip : nat) :
  sub_from r repl p s skip = sub_from r repl p' s skip.
Proof.
  destruct s as [|c s]; [reflexivity|]. simpl.
  destruct skip; [|reflexivity].
  pose proof (span_spec p (c :: s)) as H.
  pose proof (span_spec p' (c :: s)) as H'.
  destruct (match_at r p (c :: s)) as [[n cs]|];
    destruct (match_at r p' (c :: s)) as [[n' cs']|];
    simpl in H, H'; try congruence.
  assert (n = n') by congruence. subst. reflexivity.
Qed.

Lemma sub_from_skip (p : option ascii) (s : str) (skip : nat) :
  sub_from r repl p s skip = sub_from r repl None (skipn skip s) 0.
Proof.
  revert p skip; induction s as [|c s IH]; intros p skip.
  - destruct skip; reflexivity.
  - destruct skip as [|j].
    + apply sub_from_prev.
    + simpl. apply IH.
Qed.

Lemma sub_from_match (p : option ascii) (s : str) (n : nat) :
  span s = Some n ->
  sub_from r repl p s 0 = repl ++ sub_from r repl None (skipn n s) 0.
Proof.
  intros H. pose proof (span_bounds _ _ H) as Hn.
  destruct s as [|c s]; [simpl in Hn; lia|].
  simpl. pose proof (span_spec p (c :: s)) as Hs. rewrite H in Hs.
  destruct (match_at r p (c :: s)) as [[n' cs]|]; simpl in Hs;
    [|discriminate].
  injection Hs as ->. destruct n as [|n]; [lia|].
  rewrite sub_from_skip. reflexivity.
Qed.

Lemma sub_from_nomatch (p : option ascii) (c : ascii) (s : str) :
  span (c :: s) = None ->
  sub_from r repl p (c :: s) 0 = c :: sub_from r repl None s 0.
Proof.
  intros H. simpl. pose proof (span_spec p (c :: s)) as Hs.
  rewrite H in Hs.
  destruct (match_at r p (c :: s)) as [[n' cs]|]; simpl in Hs;
    [discriminate|].
  f_equal. apply sub_from_prev.
Qed.

Lemma sub_from_before (p : option ascii) (before after : str) :
  (forall i, i < length before -> span (skipn i (before ++ after)) = None) ->
  sub_from r repl p (before ++ after) 0
  = before ++ sub_from r repl None after 0.
Proof.
  revert p; induction before as [|c before IH]; intros p H.
  - apply sub_from_prev.
  - simpl app. rewrite sub_from_nomatch.
    + f_equal. apply IH. intros i Hi. apply (H (S i)). simpl; lia.
    + apply (H 0). simpl; lia.
Qed.

Lemma rewritten_cons (c : ascii) (s t : str) :
  span (c :: s) = None ->
  rewritten span repl s t -> rewritten span repl (c :: s) (c :: t).
Proof.
  intros Hc H. destruct H as [s Hs | before matched after out Hb Hm Hne H].
  - apply rewritten_rest. intros [|i] Hi; simpl; [exact Hc|].
    apply Hs. simpl in Hi; lia.
  - apply (rewritten_span span repl (c :: before) matched after out);
      auto.
    intros [|i] Hi; simpl; [exact Hc|]. apply Hb. simpl in Hi; lia.
Qed.

Lemma sub_from_rewritten (s : str) :
  rewritten span repl s (sub_from r repl None s 0).
Proof.
  remember (length s) as n eqn:Hn. revert s Hn.
  induction n as [n IH] using lt_wf_ind. intros s Hn.
  destruct s as [|c s].
  - apply rewritten_rest. simpl; intros; lia.
  - destruct (span (c :: s)) as [k|] eqn:E.
    + pose proof (span_bounds _ _ E) as Hk.
      rewrite (sub_from_match None _ _ E).
      rewrite <- (firstn_skipn k (c :: s)) at 1.
      apply (rewritten_span span repl [] (firstn k (c :: s))
               (skipn k (c :: s))).
      * simpl; intros; lia.
      * rewrite firstn_skipn, length_firstn, Nat.min_l by lia. exact E.
      * intros H. apply (f_equal (@length ascii)) in H.
        rewrite length_firstn, Nat.min_l in H by lia. simpl in H. lia.
      * apply (IH (length (skipn k (c :: s)))); [|reflexivity].
        rewrite length_skipn. subst n. lia.
    + rewrite (sub_from_nomatch None _ _ E).
      apply rewritten_cons; [exact E|].
      apply (IH (length s)); [subst n; simpl; lia | reflexivity].
Qed.

End Scan.

(** ** Replacement templates *)

Lemma expand_template_plain (a b : str) :
  Forall (fun c => c <> backslash) a ->
  expand_template (a ++ b) = option_map (app a) (expand_template b).
Proof.
  induction 1 as [|c a Hc _ IH]; simpl.
  - destruct (expand_template b); reflexivity.
  - apply Ascii.eqb_neq in Hc. rewrite Hc, IH.
    destruct (expand_template b); reflexivity.
Qed.

Lemma expand_template_tail (x : str) (c0 : ascii) (t r : str) :
  classify_escape c0 = EscKeep ->
  Forall (fun c => c <> backslash) (c0 :: t) ->
  expand_template (x ++ c0 :: t) = Some r ->
  exists r0, r = r0 ++ c0 :: t.
Proof.
  intros Hk Ht. remember (length x) as n eqn:Hn. revert x r Hn.
  induction n as [n IH] using lt_wf_ind. intros x r Hn.
  destruct x as [|c x].
  - simpl app. intros H. exists [].
    rewrite <- (app_nil_r (c0 :: t)) in H.
    rewrite expand_template_plain in H by exact Ht.
    simpl in H. rewrite app_nil_r in H. injection H as <-. reflexivity.
  - simpl app. simpl expand_template.
    destruct (Ascii.eqb c backslash) eqn:Ec.
    + destruct x as [|e x]; cbn [app].
      * rewrite Hk. inversion Ht as [|? ? _ Ht']; subst.
        rewrite <- (app_nil_r t).
        rewrite expand_template_plain by exact Ht'.
        simpl. rewrite app_nil_r. intros [= <-].
        exists [backslash]. reflexivity.
      * destruct (classify_escape e); [| |discriminate].
        -- destruct (expand_template (x ++ c0 :: t)) as [r'|] eqn:E;
             [|discriminate].
           intros [= <-].
           destruct (IH (length x)) with (x := x) (r := r') as [r0 ->];
             [subst n; simpl; lia | reflexivity | exact E |].
           exists (c1 :: r0). reflexivity.
        -- destruct (expand_template (x ++ c0 :: t)) as [r'|] eqn:E;
             [|discriminate].
           intros [= <-].
           destruct (IH (length x)) with (x := x) (r := r') as [r0 ->];
             [subst n; simpl; lia | reflexivity | exact E |].
           exists (backslash :: e :: r0). reflexivity.
    + destruct (expand_template (x ++ c0 :: t)) as [r'|] eqn:E;
        [|discriminate].
      intros [= <-].
      destruct (IH (length x)) with (x := x) (r := r') as [r0 ->];
        [subst n; simpl; lia | reflexivity | exact E |].
      exists (c :: r0). reflexivity.
Qed.

(** ** Names pasted into a pattern *)

Lemma pasted_cons (c : ascii) (s : str) (name : list charset) :
  pasted (c :: s) = Some name ->
  exists cs name',
    name = cs :: name' /\ pasted s = Some name' /\ cs_mem cs c = true
    /\ c <> "]"%char /\ c <> backslash.
Proof.
  simpl. destruct (pasted s) as [name'|]; [|discriminate].
  destruct (Ascii.eqb c ".") eqn:Ed.
  - apply Ascii.eqb_eq in Ed; subst. intros [= <-].
    exists CAny, name'. repeat split; discriminate.
  - destruct (ismeta c) eqn:Em; [discriminate|]. intros [= <-].
    exists (CChar c), name'. repeat split.
    + simpl. apply Ascii.eqb_refl.
    + intros ->. discriminate.
    + intros ->. discriminate.
Qed.

Lemma pasted_spec (s : str) (name : list charset) :
  pasted s = Some name ->
  length name = length s
  /\ (forall t, pmatch name (s ++ t) = true)
  /\ ~ In "]"%char s /\ Forall (fun c => c <> backslash) s.
Proof.
  revert name; induction s as [|c s IH]; intros name H.
  - injection H as <-. repeat split; auto.
  - apply pasted_cons in H as [cs [name' [-> [H [Hm [Hb Hs]]]]]].
    destruct (IH _ H) as [H1 [H2 [H3 H4]]].
    repeat split.
    + simpl; lia.
    + intros t. simpl. rewrite Hm, H2. reflexivity.
    + simpl. intros [E | E]; [congruence | tauto].
    + constructor; assumption.
Qed.

(** ** The block pattern on a text *)

Lemma pmatch_literal (x : str) (pat : list charset) (t : str) :
  pmatch (literal x ++ pat) (x ++ t) = pmatch pat t.
Proof.
  induction x as [|c x IH]; simpl; [reflexivity|].
  rewrite Ascii.eqb_refl. exact IH.
Qed.

Lemma pmatch_pasted (s : str) (name pat : list charset) (t : str) :
  pasted s = Some name -> pmatch (name ++ pat) (s ++ t) = pmatch pat t.
Proof.
  revert name; induction s as [|c s IH]; intros name H.
  - injection H as <-. reflexivity.
  - apply pasted_cons in H as [cs [name' [-> [H [Hm _]]]]].
    simpl. rewrite Hm. apply IH, H.
Qed.

Lemma opening_items_match (s : str) (name : list charset) (t : str) :
  pasted s = Some name ->
  pmatch (opening_items name) ((lit "# [" ++ s ++ lit "]") ++ t) = true.
Proof.
  intros H. unfold opening_items. rewrite <- !app_assoc.
  rewrite pmatch_literal, (pmatch_pasted _ _ _ _ H). reflexivity.
Qed.

Lemma closing_items_match (s : str) (name : list charset) (t : str) :
  pasted s = Some name ->
  pmatch (closing_items name) ((lit "# [/" ++ s ++ lit "]") ++ t) = true.
Proof.
  intros H. unfold closing_items. rewrite <- !app_assoc.
  rewrite pmatch_literal, (pmatch_pasted _ _ _ _ H). reflexivity.
Qed.

Lemma opening_items_length (name : list charset) :
  length (opening_items name) = 4 + length name.
Proof. unfold opening_items. rewrite !length_app. simpl. lia. Qed.

Lemma closing_items_length (name : list charset) :
  length (closing_items name) = 5 + length name.
Proof. unfold closing_items. rewrite !length_app. simpl. lia. Qed.

Lemma pmatch_last (l : list charset) (x : ascii) (s : str) :
  pmatch (l ++ [CChar x]) s = true -> nth_error s (length l) = Some x.
Proof.
  revert s; induction l as [|cs l IH]; intros [|c s]; simpl;
    try discriminate.
  - rewrite andb_true_iff, Ascii.eqb_eq. intros [-> _]. reflexivity.
  - rewrite andb_true_iff. intros [_ H]. apply IH, H.
Qed.

Lemma block_match_len_bounds (name : list charset) (s : str) (n : nat) :
  block_match_len name s = Some n -> 0 < n <= length s.
Proof.
  unfold block_match_len.
  destruct (pmatch (opening_items name) s) eqn:Ho; [|discriminate].
  destruct (find_first _ _) as [j|] eqn:Hc; [|discriminate].
  apply pmatch_length in Ho.
  apply find_first_some in Hc as [_ [Hc _]].
  rewrite length_skipn in Hc.
  rewrite opening_items_length, closing_items_length in *.
  intros [= <-]. lia.
Qed.

Lemma skipn_app_le (i : nat) (u v : str) :
  i <= length u -> skipn i (u ++ v) = skipn i u ++ v.
Proof.
  intros H. rewrite skipn_app.
  replace (i - length u) with 0 by lia. reflexivity.
Qed.

Lemma skipn_app_ge (i : nat) (u v : str) :
  length u <= i -> skipn i (u ++ v) = skipn (i - length u) v.
Proof.
  intros H. rewrite skipn_app, skipn_all2 by lia. reflexivity.
Qed.

Section Block.

Variables (package_name : str) (name : list charset).
Variables (repl inner : str).

Hypothesis name_pasted : pasted package_name = Some name.

Hypothesis repl_shape :
  repl = (lit "# [" ++ package_name ++ lit "]") ++ inner
         ++ (lit "# [/" ++ package_name ++ lit "]").

Lemma no_match_before (u matched after out : str) :
  u <> [] ->
  block_match_len name (u ++ matched ++ after) = None ->
  block_match_len name (matched ++ after) = Some (length matched) ->
  block_match_len name (u ++ repl ++ out) = None.
Proof.
  intros Hu Hnone Hm.
  destruct (block_match_len name (u ++ repl ++ out)) as [n|] eqn:E;
    [exfalso | reflexivity].
  unfold block_match_len in E.
  destruct (pmatch (opening_items name) (u ++ repl ++ out)) eqn:Eo;
    [clear E | discriminate].
  destruct (pasted_spec _ _ name_pasted) as [Hlen [_ [Hbr _]]].
  destruct (le_lt_dec (length (opening_items name)) (length u)) as [L | L].
  - rewrite pmatch_app in Eo by exact L.
    unfold block_match_len in Hnone, Hm.
    rewrite pmatch_app, Eo in Hnone by exact L.
    destruct (find_first (closing_items name)
                (skipn (length (opening_items name))
                   (u ++ matched ++ after))) eqn:F; [discriminate|].
    destruct (pmatch (opening_items name) (matched ++ after));
      [|discriminate].
    destruct (find_first (closing_items name)
                (skipn (length (opening_items name)) (matched ++ after)))
      as [j|] eqn:G; [|discriminate].
    apply find_first_some in G as [G _].
    apply (find_first_none _ _ (length u + j)) in F.
    rewrite !skipn_skipn in *.
    rewrite skipn_app_ge in F by lia.
    replace (length u + j + length (opening_items name) - length u)
      with (j + length (opening_items name)) in F by lia.
    congruence.
  - unfold opening_items in Eo. rewrite app_assoc in Eo.
    apply pmatch_last in Eo.
    rewrite length_app in Eo.
    rewrite opening_items_length in L.
    assert (Hu' : 0 < length u) by (destruct u; [congruence | simpl; lia]).
    change (length (literal (lit "# ["))) with 3 in Eo.
    rewrite nth_error_app2 in Eo by lia.
    rewrite repl_shape in Eo. rewrite <- !app_assoc in Eo.
    rewrite (app_assoc (lit "# [") package_name) in Eo.
    assert (Hl : length (lit "# [" ++ package_name)
                 = 3 + length package_name)
      by (rewrite length_app; reflexivity).
    rewrite nth_error_app1 in Eo by lia.
    apply nth_error_In in Eo. apply in_app_or in Eo as [Eo | Eo].
    + simpl in Eo. intuition discriminate.
    + exact (Hbr Eo).
Qed.

Hypothesis repl_closed :
  occurs (closing_items name) (removelast repl) = false.

Lemma replacement_matches (out : str) :
  block_match_len name (repl ++ out) = Some (length repl).
Proof.
  destruct (pasted_spec _ _ name_pasted) as [Hlen _].
  assert (Hrl : length repl
                = length (opening_items name) + length inner
                  + length (closing_items name)).
  { rewrite repl_shape, opening_items_length, closing_items_length.
    rewrite !length_app. simpl. lia. }
  unfold block_match_len.
  assert (Ho : pmatch (opening_items name) (repl ++ out) = true).
  { rewrite repl_shape, <- app_assoc.
    apply opening_items_match, name_pasted. }
  rewrite Ho.
  rewrite (find_first_least _ _ (length inner)).
  - rewrite Hrl. reflexivity.
  - rewrite skipn_skipn, repl_shape.
    rewrite (app_assoc _ inner), <- app_assoc.
    rewrite skipn_app_ge
      by (rewrite !length_app, opening_items_length; simpl; lia).
    replace (_ - _) with 0
      by (rewrite !length_app, opening_items_length; simpl; lia).
    apply closing_items_match, name_pasted.
  - intros i Hi. rewrite skipn_skipn.
    assert (Hne : repl <> []).
    { intros E. rewrite E in Hrl. rewrite opening_items_length in Hrl.
      simpl in Hrl. lia. }
    rewrite (app_removelast_last " "%char Hne), <- app_assoc.
    assert (Hrm : length (removelast repl) = length repl - 1).
    { pose proof (app_removelast_last " "%char Hne) as E.
      apply (f_equal (@length ascii)) in E.
      rewrite length_app in E. simpl in E. lia. }
    rewrite skipn_app_le by lia.
    rewrite pmatch_app by (rewrite length_skipn; lia).
    unfold occurs in repl_closed.
    destruct (find_first (closing_items name) (removelast repl)) eqn:F;
      [discriminate|].
    apply find_first_none. exact F.
Qed.

Lemma rewritten_fixed (s t : str) :
  rewritten (block_match_len name) repl s t ->
  sub_from (block_pattern name) repl None t 0 = t.
Proof.
  induction 1 as [s Hs | before matched after out Hb Hm Hne _ IH].
  - rewrite <- (app_nil_r s) at 1.
    rewrite (sub_from_before _ _ _ (match_at_block name)).
    + apply app_nil_r.
    + intros i Hi. rewrite app_nil_r. apply Hs, Hi.
  - rewrite (sub_from_before _ _ _ (match_at_block name)).
    + rewrite (sub_from_match _ _ _ (match_at_block name)
                 (block_match_len_bounds name) None _ _
                 (replacement_matches out)).
      rewrite skipn_app_ge, Nat.sub_diag by lia. simpl skipn.
      rewrite IH. reflexivity.
    + intros i Hi. specialize (Hb i Hi).
      rewrite skipn_app_le in * by lia.
      apply (no_match_before _ matched after); [| exact Hb | exact Hm].
      intros E. apply (f_equal (@length ascii)) in E.
      rewrite length_skipn in E. simpl in E. lia.
Qed.

End Block.

(** ** One substitution *)

Lemma block_template_expands (package_name updated_line : str)
  (name : list charset) (repl : str) :
  pasted package_name = Some name ->
  expand_template (block_template package_name updated_line) = Some repl ->
  exists inner,
    repl = (lit "# [" ++ package_name ++ lit "]") ++ inner
           ++ (lit "# [/" ++ package_name ++ lit "]").
Proof.
  intros Hp. destruct (pasted_spec _ _ Hp) as [_ [_ [_ Hb]]].
  unfold block_template.
  rewrite (app_assoc (lit "# [")), (app_assoc _ (lit "]")),
    (app_assoc _ [nl]).
  rewrite expand_template_plain.
  2:{ repeat (apply Forall_app; split); try exact Hb;
        repeat constructor; discriminate. }
  destruct (expand_template _) as [r|] eqn:E; [|discriminate].
  intros [= <-].
  apply (expand_template_tail updated_line " "%char
           (" "%char :: lit "# [/" ++ package_name ++ lit "]")) in E.
  - destruct E as [r0 ->]. exists ([nl] ++ r0 ++ lit "  ").
    rewrite <- !app_assoc. reflexivity.
  - reflexivity.
  - repeat constructor; try discriminate.
    repeat (apply Forall_app; split); try exact Hb;
      repeat constructor; discriminate.
Qed.

Lemma substitute_block_eq (package_name updated_line : str)
  (name : list charset) (repl : str) (file_text : str) :
  pasted package_name = Some name ->
  expand_template (block_template package_name updated_line) = Some repl ->
  substitute_block package_name updated_line file_text
  = Some (sub_from (block_pattern name) repl None file_text 0).
Proof.
  intros Hp He. unfold substitute_block, block_regex, Re.sub.
  rewrite Hp. cbn [option_map]. rewrite He. reflexivity.
Qed.

Lemma substitute_block_inv (package_name updated_line file_text t : str) :
  substitute_block package_name updated_line file_text = Some t ->
  exists name repl,
    pasted package_name = Some name
    /\ expand_template (block_template package_name updated_line)
       = Some repl
    /\ t = sub_from (block_pattern name) repl None file_text 0.
Proof.
  unfold substitute_block, block_regex, Re.sub.
  destruct (pasted package_name) as [name|]; [|discriminate].
  cbn [option_map].
  destruct (expand_template _) as [repl|]; [|discriminate].
  intros [= <-]. eauto.
Qed.

(** The frame of one substitution: the new text is the old one with each
    span of the block pattern replaced; everything before, between and
    after the spans is kept. *)
Lemma substitute_block_frame (package_name updated_line file_text t : str) :
  substitute_block package_name updated_line file_text = Some t ->
  exists name repl,
    pasted package_name = Some name
    /\ expand_template (block_template package_name updated_line)
       = Some repl
    /\ rewritten (block_match_len name) repl file_text t.
Proof.
  intros H. apply substitute_block_inv in H as [name [repl [Hp [He ->]]]].
  exists name, repl. repeat split; auto.
  apply (sub_from_rewritten _ _ _ (match_at_block name)
           (block_match_len_bounds name)).
Qed.

(** A text in which the opening delimiter's pattern matches nowhere is
    left as it is. *)
Lemma substitute_block_no_opening (package_name updated_line : str)
  (name : list charset) (file_text t : str) :
  pasted package_name = Some name ->
  occurs (opening_items name) file_text = false ->
  substitute_block package_name updated_line file_text = Some t ->
  t = file_text.
Proof.
  intros Hp Ho H. apply substitute_block_inv in H as [name' [repl [Hp' [_ ->]]]].
  assert (name' = name) by congruence. subst name'.
  rewrite <- (app_nil_r file_text) at 1.
  rewrite (sub_from_before _ _ _ (match_at_block name)).
  - apply app_nil_r.
  - intros i _. rewrite app_nil_r. unfold block_match_len.
    unfold occurs in Ho.
    destruct (find_first (opening_items name) file_text) eqn:F;
      [discriminate|].
    rewrite (find_first_none _ _ i F). reflexivity.
Qed.

(** When the replacement holds a match of the closing delimiter only at
    its end, substituting in any file gives a text that substituting
    again leaves as it is. *)
Lemma closed_block_idempotent
  (package_name updated_line file_text : str) :
  block_closed_once package_name updated_line = true ->
  exists t,
    substitute_block package_name updated_line file_text = Some t
    /\ substitute_block package_name updated_line t = Some t.
Proof.
  unfold block_closed_once.
  destruct (pasted package_name) as [name|] eqn:Hp; [|discriminate].
  destruct (expand_template (block_template package_name updated_line))
    as [repl|] eqn:He; [|discriminate].
  intros Hc. apply negb_true_iff in Hc.
  exists (sub_from (block_pattern name) repl None file_text 0).
  rewrite !(fun text => substitute_block_eq _ _ _ _ text Hp He).
  split; [reflexivity|]. f_equal.
  destruct (block_template_expands _ _ _ _ Hp He) as [inner Hshape].
  apply (rewritten_fixed package_name name repl inner Hp Hshape Hc
           file_text).
  apply (sub_from_rewritten _ _ _ (match_at_block name)
           (block_match_len_bounds name)).
Qed.

(** ** The block of a single release file *)

Lemma generated_text_kept (cpython_tag package_name desired_version : str)
  (files : list ReleaseFile) :
  generated_text cpython_tag package_name desired_version files
  = block_text package_name desired_version
      (map filename_line (filter (keep_release_file cpython_tag) files))
      (map hash_line (filter (keep_release_file cpython_tag) files)).
Proof.
  unfold generated_text. rewrite select_files_filter. reflexivity.
Qed.

(** C6, as the code has it: when exactly one release file is kept, the
    block is the prefix [  <name>==<version> ] and, on the same line, the
    one hash; there is neither a line continuation nor a comment header.
    Substituting the block text [  foo==2.0.0 \] / [    --hash=sha256:deadbeef]
    into the file [# [foo]] / [old text] / [  # [/foo]] gives the opening
    delimiter, the two lines of the block and the indented closing
    delimiter. *)
Theorem single_file_block (cpython_tag package_name desired_version : str)
  (files : list ReleaseFile) (release_file : ReleaseFile) :
  filter (keep_release_file cpython_tag) files = [release_file] ->
  generated_text cpython_tag package_name desired_version files
  = simple_package_version package_name desired_version
    ++ hash_line release_file
  /\ substitute_block (lit "foo") (Sample.foo_continued_block ++ [nl])
       Sample.foo_file
     = Some Sample.foo_rewritten.
Proof.
  intros H. split; [|vm_compute; reflexivity].
  rewrite generated_text_kept, H. reflexivity.
Qed.

Lemma single_file_block_witness :
  generated_text (lit "cp311") (lit "foo") (lit "2.0.0")
    [Sample.foo_win32; Sample.foo_any]
  = lit "  foo==2.0.0 --hash=sha256:deadbeef"
  /\ substitute_block (lit "foo") (Sample.foo_continued_block ++ [nl])
       Sample.foo_file
     = Some Sample.foo_rewritten.
Proof.
  apply (single_file_block (lit "cp311") (lit "foo") (lit "2.0.0")
           [Sample.foo_win32; Sample.foo_any] Sample.foo_any).
  reflexivity.
Defined.

(** C6 fails as stated: with one kept release file ([foo_any]; the 32-bit
    wheel is dropped) the text generated for [foo] has no line
    continuation, whatever the indentation of the continuation line. *)
Lemma single_file_block_not_continued :
  generate_blocks Sample.foo_env (lit "cp311")
    [(lit "foo", (lit "1.0.0", lit "2.0.0"))] []
    (MkWorld [] [])
  = Some ([(lit "foo", lit "  foo==2.0.0 --hash=sha256:deadbeef" ++ [nl])],
          MkWorld [] [EvGet (lit "foo")])
  /\ forall n,
       lit "  foo==2.0.0 --hash=sha256:deadbeef"
       <> lit "  foo==2.0.0 " ++ [backslash; nl] ++ spaces n
          ++ lit "--hash=sha256:deadbeef".
Proof.
  split; [vm_compute; reflexivity|].
  intros n H. vm_compute in H. discriminate.
Qed.

(** ** Runs of the update *)

(** C1 fails on the code: the package name is pasted into the pattern as
    it is, so the dot of [a.b] matches any character.  The file has no
    delimiter of [a.b], only a block of [acb], and the run replaces that
    block. *)
Theorem dotted_name_rewrites_other_block :
  let filepath := lit "SuperBuild/External_python-acb.cmake" in
  contains Sample.other_file (lit "# [a.b]") = false
  /\ contains Sample.other_file (lit "# [/a.b]") = false
  /\ dict_get (disk Sample.other_world) filepath = Some Sample.other_file
  /\ exists w',
       update_external_project_python_packages Sample.dotted_env
         [(lit "a.b", (lit "1.0", lit "1.0"))] (lit "SuperBuild")
         (lit "cp311") Sample.other_world
       = Some (tt, w')
       /\ dict_get (disk w') filepath = Some Sample.other_rewritten
       /\ Sample.other_rewritten <> Sample.other_file
       /\ mismatches_of (disk Sample.other_world) = []
       /\ exists w'',
            main Sample.dotted_env (MkArgs None None false false None)
              Sample.other_world
            = Some (Returned, w'')
            /\ dict_get (disk w'') filepath = Some Sample.other_rewritten.
Proof.
  repeat split; try (vm_compute; reflexivity).
  eexists. repeat split; try (vm_compute; reflexivity).
  - intros H. vm_compute in H. discriminate.
  - eexists. split; vm_compute; reflexivity.
Qed.

(** ** The first loop *)

Lemma get_releases_run (env : Env) (package_name : str) (w : World) :
  get_releases env package_name w
  = match pypi_releases env package_name with
    | Some releases =>
        Some (releases, MkWorld (disk w) (log w ++ [EvGet package_name]))
    | None => None
    end.
Proof.
  unfold get_releases, bind, emit, lift. simpl.
  destruct (pypi_releases env package_name); reflexivity.
Qed.

Lemma generate_blocks_filter (env : Env) (cpython_tag : str)
  (packages : list (str * Versions)) (lines_to_write : dict str)
  (w : World) :
  generate_blocks env cpython_tag packages lines_to_write w
  = generate_blocks env cpython_tag (filter not_skipped packages)
      lines_to_write w.
Proof.
  revert lines_to_write w.
  induction packages as [|[package_name versions] packages IH];
    intros lines_to_write w; [reflexivity|].
  cbn [generate_blocks filter]. unfold not_skipped at 1, skipped.
  cbn [fst].
  destruct (mem package_name [lit "vtk"; lit "simpleitk"]) eqn:Em;
    cbn [negb generate_blocks]; [apply IH|].
  rewrite Em. unfold bind. rewrite get_releases_run.
  destruct (pypi_releases env package_name) as [releases|]; [|reflexivity].
  destruct (select_files _ _ _ _) as [filenames [|h hashes]]; apply IH.
Qed.

Lemma generate_blocks_spec (env : Env) (cpython_tag : str)
  (packages : list (str * Versions)) (lines_to_write r : dict str)
  (w w' : World) :
  generate_blocks env cpython_tag packages lines_to_write w = Some (r, w') ->
  disk w' = disk w
  /\ log w' = log w ++ map EvGet (map fst (filter not_skipped packages))
  /\ forall k, dict_get r k <> None ->
               dict_get lines_to_write k <> None \/ skipped k = false.
Proof.
  revert lines_to_write w.
  induction packages as [|[package_name versions] packages IH];
    intros lines_to_write w.
  - simpl. intros [= <- <-]. rewrite app_nil_r. auto.
  - cbn [generate_blocks filter]. unfold not_skipped at 1, skipped at 1.
    cbn [fst]. fold (skipped package_name).
    destruct (skipped package_name) eqn:Es; cbn [negb]; [apply IH|].
    unfold bind. rewrite get_releases_run.
    destruct (pypi_releases env package_name) as [releases|];
      [|discriminate].
    destruct (select_files _ _ _ _) as [filenames [|h hashes]]; intros H;
      apply IH in H as [H1 [H2 H3]]; cbn [disk log] in *;
      (split; [exact H1|]);
      (split; [rewrite H2, <- app_assoc; reflexivity|]);
      intros k Hk; specialize (H3 k Hk); [exact H3|].
    destruct H3 as [H3 | H3]; [|right; exact H3].
    rewrite dict_get_set in H3.
    destruct (str_eqb k package_name) eqn:Ek; [|left; exact H3].
    apply str_eqb_eq in Ek; subst. right; exact Es.
Qed.

Lemma not_skipped_names (packages : list (str * Versions)) (k : str) :
  skipped k = true -> ~ In k (map fst (filter not_skipped packages)).
Proof.
  intros Hk Hin. apply in_map_iff in Hin as [[n v] [<- Hin]].
  apply filter_In in Hin as [_ Hin]. unfold not_skipped in Hin.
  simpl in *. rewrite Hk in Hin. discriminate.
Qed.

(** C10: [vtk] and [simpleitk] are skipped before the index is asked,
    whatever their versions: the run is the run on the mapping without
    them, the index is asked about no package of that name, and no block
    text is produced for them, so no substitution is made with their
    delimiters. *)
Theorem skipped_packages_left_out (env : Env) (cpython_tag : str)
  (packages : dict Versions) (directory : str) (w : World) :
  update_external_project_python_packages env packages directory
    cpython_tag w
  = update_external_project_python_packages env
      (filter not_skipped packages) directory cpython_tag w
  /\ forall lines_to_write w',
       generate_blocks env cpython_tag packages [] w
       = Some (lines_to_write, w') ->
       dict_get lines_to_write (lit "vtk") = None
       /\ dict_get lines_to_write (lit "simpleitk") = None
       /\ disk w' = disk w
       /\ exists asked,
            log w' = log w ++ map EvGet asked
            /\ ~ In (lit "vtk") asked /\ ~ In (lit "simpleitk") asked.
Proof.
  split.
  - unfold update_external_project_python_packages, bind.
    rewrite generate_blocks_filter. reflexivity.
  - intros lines_to_write w' H.
    apply generate_blocks_spec in H as [H1 [H2 H3]].
    assert (Hk : forall k, skipped k = true ->
                           dict_get lines_to_write k = None).
    { intros k Hk. destruct (dict_get lines_to_write k) eqn:E; [|reflexivity].
      destruct (H3 k) as [H | H]; [congruence | simpl in H; congruence |].
      congruence. }
    repeat split; try (apply Hk; reflexivity); try exact H1.
    exists (map fst (filter not_skipped packages)).
    repeat split; [exact H2 | |]; apply not_skipped_names; reflexivity.
Qed.

Lemma skipped_packages_left_out_witness :
  dict_get [(lit "foo", lit "  foo==2.0.0 --hash=sha256:deadbeef" ++ [nl])]
    (lit "vtk") = None.
Proof.
  apply (proj2 (skipped_packages_left_out Sample.foo_env (lit "cp311")
                  Sample.nested_packages (lit "SuperBuild")
                  Sample.nested_world)
           [(lit "foo", lit "  foo==2.0.0 --hash=sha256:deadbeef" ++ [nl])]
           (MkWorld (disk Sample.nested_world) [EvGet (lit "foo")])).
  reflexivity.
Defined.

(** ** The validator and the orchestrator *)

Lemma read_file_run (filepath : str) (w : World) :
  read_file filepath w
  = match dict_get (disk w) filepath with
    | Some file_text =>
        Some (file_text, MkWorld (disk w) (log w ++ [EvRead filepath]))
    | None => None
    end.
Proof.
  unfold read_file, bind, emit, lift. simpl.
  destruct (dict_get (disk w) filepath); reflexivity.
Qed.

Lemma validate_files_run (filepaths : list str) (mismatches : list Mismatch)
  (w : World) :
  (forall filepath, In filepath filepaths -> In filepath (keys (disk w))) ->
  validate_files filepaths mismatches w
  = Some (mismatches
          ++ flat_map
               (fun filepath =>
                  match dict_get (disk w) filepath with
                  | Some file_text => file_mismatches filepath file_text
                  | None => []
                  end)
               filepaths,
          MkWorld (disk w) (log w ++ map EvRead filepaths)).
Proof.
  revert mismatches w.
  induction filepaths as [|filepath filepaths IH]; intros mismatches w Hin.
  - simpl. rewrite !app_nil_r. destruct w; reflexivity.
  - cbn [validate_files]. unfold bind. rewrite read_file_run.
    destruct (dict_get (disk w) filepath) as [file_text|] eqn:E.
    + rewrite IH by (intros p Hp; apply Hin; right; exact Hp).
      cbn [disk log flat_map map]. rewrite E, <- !app_assoc. reflexivity.
    + exfalso. apply (dict_get_in _ (disk w) filepath); [|exact E].
      apply Hin. left; reflexivity.
Qed.

Lemma validate_run (directory : str) (w : World) :
  validate_external_project_python_package_hints directory w
  = Some (mismatches_of (disk w),
          MkWorld (disk w) (log w ++ map EvRead (keys (disk w)))).
Proof.
  unfold validate_external_project_python_package_hints, bind,
    external_project_filepaths.
  rewrite validate_files_run by auto. reflexivity.
Qed.

Section LogGrows.

Lemma log_grows_ret (A : Type) (a : A) : log_grows (ret a).
Proof. intros w a' w' [= <- <-]. exists []. symmetry; apply app_nil_r. Qed.

Lemma log_grows_bind (A B : Type) (c : M A) (f : A -> M B) :
  log_grows c -> (forall a, log_grows (f a)) -> log_grows (bind c f).
Proof.
  intros Hc Hf w b w'. unfold bind.
  destruct (c w) as [[a w1]|] eqn:E; [|discriminate].
  intros H. apply Hc in E as [evs1 E1]. apply Hf in H as [evs2 E2].
  exists (evs1 ++ evs2). rewrite E2, E1, app_assoc. reflexivity.
Qed.

Lemma log_grows_lift (A : Type) (o : option A) : log_grows (lift o).
Proof. destruct o; [apply log_grows_ret | intros w a w'; discriminate]. Qed.

Lemma log_grows_emit (e : Event) : log_grows (emit e).
Proof. intros w a w' [= <- <-]. exists [e]. reflexivity. Qed.

Lemma log_grows_read (filepath : str) : log_grows (read_file filepath).
Proof.
  intros w a w'. rewrite read_file_run.
  destruct (dict_get (disk w) filepath); [|discriminate].
  intros [= <- <-]. eexists; reflexivity.
Qed.

Lemma log_grows_write (filepath file_text : str) :
  log_grows (write_file filepath file_text).
Proof.
  intros w a w'. unfold write_file, bind, emit. intros [= <- <-].
  eexists; reflexivity.
Qed.

Lemma log_grows_pip (env : Env) (installation_path : option str)
  (outdated : bool) :
  log_grows (execute_pip_list env installation_path outdated).
Proof.
  apply log_grows_bind; [apply log_grows_emit | intros; apply log_grows_ret].
Qed.

Lemma log_grows_generate (env : Env) (cpython_tag : str)
  (packages : list (str * Versions)) (lines_to_write : dict str) :
  log_grows (generate_blocks env cpython_tag packages lines_to_write).
Proof.
  intros w r w' H. apply generate_blocks_spec in H as [_ [H _]].
  eexists; exact H.
Qed.

Lemma log_grows_rewrite_file (env : Env) (filepath : str)
  (lines_to_write : list (str * str)) (file_text : str) :
  log_grows (rewrite_file env filepath lines_to_write file_text).
Proof.
  revert file_text.
  induction lines_to_write as [|[package_name updated_line] lines IH];
    intros file_text; cbn [rewrite_file].
  - apply log_grows_ret.
  - apply log_grows_bind; [apply log_grows_lift|]. intros t.
    apply log_grows_bind; [apply log_grows_write | intros; apply IH].
Qed.

Lemma log_grows_rewrite_files (env : Env) (filepaths : list str)
  (lines_to_write : dict str) :
  log_grows (rewrite_files env filepaths lines_to_write).
Proof.
  induction filepaths as [|filepath filepaths IH]; cbn [rewrite_files].
  - apply log_grows_ret.
  - apply log_grows_bind; [apply log_grows_read|]. intros t.
    apply log_grows_bind; [apply log_grows_rewrite_file | intros; apply IH].
Qed.

Lemma log_grows_update (env : Env) (packages : dict Versions)
  (directory cpython_tag : str) :
  log_grows (update_external_project_python_packages env packages directory
               cpython_tag).
Proof.
  apply log_grows_bind; [apply log_grows_generate|]. intros lines.
  apply log_grows_bind; [|intros; apply log_grows_rewrite_files].
  intros w a w' [= <- <-]. exists []. symmetry; apply app_nil_r.
Qed.

End LogGrows.

(** C3: [main] runs the validator first: it reads every file of the tree
    before anything else happens.  When [--validate] is given or a
    mismatch exists, [main] ends there by [sys.exit]: the exit status is
    zero exactly when there is no mismatch, and with a mismatch the
    argument of [sys.exit] is the summary; the tree is as it was and the
    log holds nothing but the validator's reads, so nothing was written.
    In every run that ends, the validator's reads come first. *)
Theorem main_validates_first (env : Env) (args : Args) (w : World) :
  let mismatches := mismatches_of (disk w) in
  let validated :=
    MkWorld (disk w) (log w ++ map EvRead (keys (disk w))) in
  validate_external_project_python_package_hints
    (or_default (search_directory args) (default_search_directory env)) w
  = Some (mismatches, validated)
  /\ (validate args = true \/ mismatches <> [] ->
      exists outcome,
        main env args w = Some (outcome, validated)
        /\ (exit_status outcome = 0 <-> mismatches = [])
        /\ (exit_status outcome <> 0 <-> mismatches <> [])
        /\ (mismatches <> [] ->
            outcome
            = SysExitStr (hint_validation_mismatch_summary mismatches)))
  /\ (forall outcome w',
        main env args w = Some (outcome, w') ->
        exists events,
          log w' = log w ++ map EvRead (keys (disk w)) ++ events).
Proof.
  intros mismatches validated.
  split; [apply validate_run|]. split.
  - intros Hgate. unfold main, bind. rewrite validate_run.
    fold mismatches. fold validated.
    assert (Hif : validate args || (0 <? length mismatches) = true).
    { destruct Hgate as [-> | Hm]; [reflexivity|].
      destruct mismatches; [congruence|]. apply orb_true_r. }
    rewrite Hif. destruct mismatches as [|x l].
    + exists (SysExitInt 0). simpl. repeat split; auto; congruence.
    + eexists. split; [reflexivity|]. simpl.
      repeat split; auto; try congruence; try discriminate.
  - intros outcome w'. unfold main.
    set (c := fun ms : list Mismatch => _).
    unfold bind. rewrite validate_run. fold mismatches. fold validated.
    intros H.
    assert (G : log_grows (c mismatches)).
    { unfold c.
      destruct (validate args || (0 <? length mismatches));
        [apply log_grows_ret|].
      apply log_grows_bind.
      { destruct (from_installed_packages args);
          [apply log_grows_pip|].
        destruct (str_eqb _ _); apply log_grows_pip. }
      intros lines. apply log_grows_bind; [apply log_grows_lift|].
      intros packages. apply log_grows_bind; [apply log_grows_update|].
      intros; apply log_grows_ret. }
    apply G in H as [events H]. exists events.
    rewrite H. unfold validated. cbn [log]. rewrite app_assoc. reflexivity.
Qed.

Lemma main_validates_first_witness :
  exists outcome,
    main Sample.foo_env (MkArgs None None false true None)
      Sample.nested_world
    = Some (outcome,
            MkWorld (disk Sample.nested_world)
              (log Sample.nested_world
               ++ map EvRead (keys (disk Sample.nested_world))))
    /\ (exit_status outcome = 0
        <-> mismatches_of (disk Sample.nested_world) = [])
    /\ (exit_status outcome <> 0
        <-> mismatches_of (disk Sample.nested_world) <> [])
    /\ (mismatches_of (disk Sample.nested_world) <> [] ->
        outcome
        = SysExitStr (hint_validation_mismatch_summary
                        (mismatches_of (disk Sample.nested_world)))).
Proof.
  apply (main_validates_first Sample.foo_env
           (MkArgs None None false true None) Sample.nested_world).
  left; reflexivity.
Defined.

(** ** The matcher on the hint pattern *)

Lemma m_bol (A : Type) (k : mstate -> option A) st :
  m Bol k st = if at_bol (prev st) then k st else None.
Proof. reflexivity. Qed.

Lemma m_star_greedy (A : Type) (cs : charset) (k : mstate -> option A) st :
  m (Star true cs) k st
  = star_greedy cs (fun p s => k (MState p s (caps st))) (prev st) (rest st).
Proof. reflexivity. Qed.

Lemma m_opt (A : Type) (r : regex) (k : mstate -> option A) st :
  m (Opt r) k st
  = match m r k st with Some x => Some x | None => k st end.
Proof. reflexivity. Qed.

Lemma m_chr (A : Type) (cs : charset) (k : mstate -> option A) st :
  m (Chr cs) k st
  = match rest st with
    | c :: s' =>
        if cs_mem cs c then k (MState (Some c) s' (caps st)) else None
    | [] => None
    end.
Proof. reflexivity. Qed.

Lemma m_plus (A : Type) (cs : charset) (k : mstate -> option A) st :
  m (Plus cs) k st
  = match rest st with
    | c :: s' =>
        if cs_mem cs c
        then star_greedy cs (fun p s => k (MState p s (caps st)))
               (Some c) s'
        else None
    | [] => None
    end.
Proof. reflexivity. Qed.

Lemma m_eol (A : Type) (k : mstate -> option A) st :
  m Eol k st = if at_eol (rest st) then k st else None.
Proof. reflexivity. Qed.

Lemma star_greedy_ext (A : Type) (cs : charset)
  (k k' : option ascii -> str -> option A) (p : option ascii) (s : str) :
  (forall p' s', k p' s' = k' p' s') ->
  star_greedy cs k p s = star_greedy cs k' p s.
Proof.
  intros H. revert p; induction s as [|c s IH]; intros p; simpl.
  - apply H.
  - rewrite IH, H. reflexivity.
Qed.

Lemma star_greedy_space (A : Type) (k : option ascii -> str -> option A)
  (p : option ascii) (s : str) :
  (forall p' c s', isspace c = true -> k p' (c :: s') = None) ->
  exists p', star_greedy CSpace k p s = k p' (lstrip s).
Proof.
  intros Hk. revert p; induction s as [|c s IH]; intros p; simpl.
  - eauto.
  - destruct (isspace c) eqn:E; [|eauto].
    destruct (IH (Some c)) as [p' H]. rewrite H.
    destruct (k p' (lstrip s)) eqn:E'; [eauto|].
    rewrite Hk by exact E. eauto.
Qed.

Lemma star_greedy_ident (A : Type) (f : str -> A)
  (k : option ascii -> str -> option A) (p : option ascii) (v : str) :
  (forall p' s',
      k p' s'
      = match s' with
        | c :: s'' =>
            if Ascii.eqb c "]" && at_eol s'' then Some (f s') else None
        | [] => None
        end) ->
  star_greedy hint_class k p v
  = match ident_end v with
    | Some r => Some (f (skipn (length r) v))
    | None => None
    end.
Proof.
  intros Hk. revert p; induction v as [|c v IH]; intros p.
  - simpl. rewrite Hk. reflexivity.
  - cbn [star_greedy ident_end].
    destruct (cs_mem hint_class c) eqn:E.
    + rewrite IH. destruct (ident_end v) as [r|]; [reflexivity|].
      rewrite Hk. destruct (Ascii.eqb c "]" && at_eol v); reflexivity.
    + rewrite Hk. destruct (Ascii.eqb c "]") eqn:E'; [|reflexivity].
      apply Ascii.eqb_eq in E'. subst. discriminate.
Qed.

Lemma ident_end_spec (v r : str) :
  ident_end v = Some r ->
  exists after,
    v = r ++ "]"%char :: after /\ at_eol after = true
    /\ Forall (fun c => cs_mem hint_class c = true) r.
Proof.
  revert r; induction v as [|c v IH]; intros r; cbn [ident_end];
    [discriminate|].
  destruct (cs_mem hint_class c) eqn:E; [|discriminate].
  destruct (ident_end v) as [r'|].
  - intros [= <-]. destruct (IH r' eq_refl) as [after [-> [H1 H2]]].
    exists after. repeat split; auto.
  - destruct (Ascii.eqb c "]") eqn:E'; [|discriminate].
    destruct (at_eol v) eqn:E''; [|discriminate].
    intros [= <-]. apply Ascii.eqb_eq in E'. subst.
    exists v. repeat split; auto.
Qed.

Lemma hint_ident_spec (v g : str) :
  hint_ident v = Some g ->
  exists after,
    v = g ++ "]"%char :: after /\ at_eol after = true
    /\ g <> [] /\ Forall (fun c => cs_mem hint_class c = true) g.
Proof.
  unfold hint_ident. destruct v as [|c v]; [discriminate|].
  destruct (cs_mem hint_class c) eqn:E; [|discriminate].
  destruct (ident_end v) as [r|] eqn:Er; [|discriminate].
  intros [= <-]. apply ident_end_spec in Er as [after [-> [H1 H2]]].
  exists after. repeat split; auto. discriminate.
Qed.

Lemma skipn_exact (g x : str) : skipn (length g) (g ++ x) = x.
Proof. induction g; simpl; auto. Qed.

Lemma skipn_exact1 (g : str) (c : ascii) (x : str) :
  skipn (length g + 1) (g ++ c :: x) = x.
Proof. induction g; simpl; auto. Qed.

Lemma captured_app (g rest : str) :
  captured (g ++ rest) rest = g.
Proof.
  unfold captured. rewrite length_app.
  replace (length g + length rest - length rest) with (length g) by lia.
  rewrite firstn_app, Nat.sub_diag, firstn_all. simpl. apply app_nil_r.
Qed.

Lemma pmatch_startswith (x s : str) :
  pmatch (literal x) s = startswith s x.
Proof.
  revert s; induction x as [|c x IH]; intros [|d s]; simpl; auto.
  rewrite IH, (Ascii.eqb_sym d c). reflexivity.
Qed.

Lemma lstrip_length (s : str) : length (lstrip s) <= length s.
Proof.
  induction s as [|c s IH]; simpl; [lia|].
  destruct (isspace c); simpl; lia.
Qed.

Lemma tl_skipn (n : nat) (v : str) : tl (skipn n v) = skipn (n + 1) v.
Proof.
  revert v; induction n as [|n IH]; intros [|c v]; simpl; auto.
Qed.

Lemma startswith_hash (c : ascii) (s : str) :
  isspace c = true -> startswith (c :: s) (lit "# [") = false.
Proof.
  intros H. change (lit "# [") with ("#"%char :: lit " [").
  cbn [startswith]. destruct (Ascii.eqb "#" c) eqn:E; [|reflexivity].
  apply Ascii.eqb_eq in E. subst. discriminate.
Qed.

(** One attempt of the hint pattern. *)
Lemma match_at_hint (p : option ascii) (s : str) :
  match_at hint_regex p s
  = if at_bol p
    then match hint_at s with
         | Some (n, g) => Some (n, [(1, g)])
         | None => None
         end
    else None.
Proof.
  unfold match_at, hint_regex.
  rewrite m_seq, m_bol. cbn [prev].
  destruct (at_bol p); [|reflexivity].
  rewrite m_seq, m_star_greedy. cbn [prev rest caps].
  match goal with
  | |- context [star_greedy CSpace ?k p s] =>
      destruct (star_greedy_space _ k p s) as [p' ->]
  end.
  { intros p' c s' Hc. rewrite m_seq, m_chars. cbn [rest].
    rewrite pmatch_startswith, startswith_hash by exact Hc.
    reflexivity. }
  rewrite m_seq, m_chars. cbn [rest prev caps].
  rewrite pmatch_startswith. unfold hint_at.
  pose proof (lstrip_length s) as Hls.
  set (t := lstrip s) in *.
  destruct (startswith t (lit "# [")) eqn:Est; [|reflexivity].
  apply startswith_spec in Est as [u Eu].
  change (length (literal (lit "# ["))) with 3.
  rewrite Eu. change (skipn 3 (lit "# [" ++ u)) with u.
  assert (Hlen : length t = 3 + length u).
  { rewrite Eu, length_app. reflexivity. }
  rewrite m_seq, m_group, m_seq, m_opt, m_chr. cbn [rest prev caps].
  (* the continuation behind the identifier *)
  assert (Hplus : forall q v,
             m (Plus hint_class)
               (fun st' =>
                  m (Seq (Chr (CChar "]")) Eol) (fun st => Some st)
                    (MState (prev st') (rest st')
                       ((1, captured u (rest st')) :: caps st')))
               (MState q v [])
             = match hint_ident v with
               | Some g =>
                   Some (MState (Some "]"%char)
                           (skipn (length g + 1) v)
                           [(1, captured u (skipn (length g) v))])
               | None => None
               end).
  { intros q v. rewrite m_plus. cbn [rest caps]. unfold hint_ident.
    destruct v as [|c v]; [reflexivity|].
    destruct (cs_mem hint_class c); [|reflexivity].
    rewrite (star_greedy_ident _
               (fun s' => MState (Some "]"%char) (tl s')
                            [(1, captured u s')])).
    - destruct (ident_end v) as [r|] eqn:Er; [|reflexivity].
      cbn [option_map]. change (length (c :: r)) with (S (length r)).
      cbn [Nat.add skipn]. rewrite tl_skipn. reflexivity.
    - intros p'' s'. cbn [prev rest caps].
      rewrite m_seq, m_chr. cbn [rest caps].
      destruct s' as [|c' s'']; [reflexivity|].
      cbn [cs_mem]. destruct (Ascii.eqb c' "]") eqn:E; [|reflexivity].
      rewrite m_eol. cbn [rest andb tl].
      apply Ascii.eqb_eq in E. subst.
      destruct (at_eol s''); reflexivity. }
  rewrite !Hplus.
  destruct u as [|c v].
  - reflexivity.
  - cbn [cs_mem]. destruct (Ascii.eqb c "/") eqn:Ec.
    + apply Ascii.eqb_eq in Ec. subst c. rewrite Hplus.
      destruct (hint_ident v) as [g|] eqn:Eg.
      * apply hint_ident_spec in Eg as [after [-> _]].
        rewrite skipn_exact, skipn_exact1. cbn [rest caps].
        change ("/"%char :: g ++ "]"%char :: after)
          with (("/"%char :: g) ++ "]"%char :: after).
        rewrite captured_app. f_equal. f_equal.
        rewrite Eu, !length_app in *. cbn [length] in *.
        rewrite !length_app in *. cbn [length] in *. lia.
      * reflexivity.
    + destruct (hint_ident (c :: v)) as [g|] eqn:Eg; [|reflexivity].
      apply hint_ident_spec in Eg as [after [Ev _]]. rewrite Ev.
      rewrite skipn_exact, skipn_exact1. cbn [rest caps].
      rewrite captured_app. f_equal. f_equal.
      rewrite Eu, Ev, !length_app in *. cbn [length] in *.
      rewrite ?length_app in *. cbn [length] in *. lia.
Qed.

(** ** The hint of a line *)

Lemma isspace_nl : isspace nl = true.
Proof. reflexivity. Qed.

Lemma hint_class_nl : cs_mem hint_class nl = false.
Proof. reflexivity. Qed.

Lemma ident_end_line (v rest : str) :
  ~ In nl v -> ident_end (v ++ nl :: rest) = ident_end v.
Proof.
  induction v as [|c v IH]; intros Hnl.
  - cbn [app ident_end]. rewrite hint_class_nl. reflexivity.
  - cbn [app ident_end]. rewrite IH by (intros H; apply Hnl; right; exact H).
    destruct v as [|c' v]; [reflexivity|].
    cbn [app at_eol].
    reflexivity.
Qed.

Lemma hint_ident_line (v rest : str) :
  ~ In nl v -> v <> [] -> hint_ident (v ++ nl :: rest) = hint_ident v.
Proof.
  intros Hnl Hv. destruct v as [|c v]; [congruence|].
  cbn [app hint_ident].
  rewrite ident_end_line by (intros H; apply Hnl; right; exact H).
  reflexivity.
Qed.

Lemma hint_ident_nl (rest : str) : hint_ident (nl :: rest) = None.
Proof. reflexivity. Qed.

Lemma lstrip_app (l x : str) :
  lstrip l <> [] -> lstrip (l ++ x) = lstrip l ++ x.
Proof.
  induction l as [|c l IH]; simpl; [congruence|].
  destruct (isspace c); [exact IH | reflexivity].
Qed.

Lemma lstrip_blank (l x : str) :
  lstrip l = [] -> lstrip (l ++ nl :: x) = lstrip x.
Proof.
  induction l as [|c l IH]; simpl; [reflexivity|].
  destruct (isspace c); [exact IH | discriminate].
Qed.

Lemma startswith_line (t rest : str) :
  startswith (t ++ nl :: rest) (lit "# [") = startswith t (lit "# [").
Proof.
  destruct t as [|c1 [|c2 [|c3 t]]]; cbn [app].
  - reflexivity.
  - change (lit "# [") with ["#"; " "; "["]%char. cbn [startswith].
    destruct (Ascii.eqb "#" c1); reflexivity.
  - change (lit "# [") with ["#"; " "; "["]%char. cbn [startswith].
    destruct (Ascii.eqb "#" c1); [|reflexivity].
    destruct (Ascii.eqb " " c2); reflexivity.
  - reflexivity.
Qed.

Lemma hint_at_line (l rest : str) :
  ~ In nl l -> lstrip l <> [] -> hint_at (l ++ nl :: rest) = hint_at l.
Proof.
  intros Hnl Hl. unfold hint_at.
  rewrite lstrip_app by exact Hl.
  rewrite startswith_line.
  rewrite !length_app.
  replace (length l + length (nl :: rest)
           - (length (lstrip l) + length (nl :: rest)))
    with (length l - length (lstrip l)) by lia.
  destruct (startswith (lstrip l) (lit "# [")) eqn:Es; [|reflexivity].
  apply startswith_spec in Es as [u Eu].
  assert (Hu : ~ In nl u).
  { intros H. apply Hnl.
    assert (Hin : In nl (lstrip l)) by (rewrite Eu; apply in_or_app; auto).
    clear - Hin. induction l as [|c l IH]; simpl in *; [tauto|].
    destruct (isspace c); [right; apply IH, Hin|].
    exact Hin. }
  rewrite Eu, <- app_assoc.
  change (skipn 3 (lit "# [" ++ u ++ nl :: rest)) with (u ++ nl :: rest).
  change (skipn 3 (lit "# [" ++ u)) with u.
  destruct u as [|c v].
  - cbn [app]. rewrite hint_ident_nl. reflexivity.
  - cbn [app].
    assert (Hv : ~ In nl v) by (intros H; apply Hu; right; exact H).
    change (hint_ident (c :: v ++ nl :: rest))
      with (hint_ident ((c :: v) ++ nl :: rest)).
    rewrite (hint_ident_line (c :: v)) by (auto; discriminate).
    destruct (Ascii.eqb c "/"); [|reflexivity].
    destruct v as [|c' v']; [reflexivity|].
    rewrite (hint_ident_line (c' :: v')) by (auto; discriminate).
    reflexivity.
Qed.

Lemma hint_at_blank (l rest : str) :
  lstrip l = [] ->
  hint_at (l ++ nl :: rest)
  = match hint_at rest with
    | Some (n, g) => Some (length l + 1 + n, g)
    | None => None
    end.
Proof.
  intros Hl. unfold hint_at. rewrite lstrip_blank by exact Hl.
  pose proof (lstrip_length rest) as Hr.
  rewrite length_app. cbn [length].
  destruct (startswith (lstrip rest) (lit "# [")); [|reflexivity].
  destruct (match skipn 3 (lstrip rest) with
            | [] => None
            | c :: v => if Ascii.eqb c "/" then hint_ident v else None
            end) as [g|].
  - f_equal. f_equal. lia.
  - destruct (hint_ident (skipn 3 (lstrip rest))); [|reflexivity].
    f_equal. f_equal. lia.
Qed.

Lemma hint_at_blank_line (l : str) : lstrip l = [] -> hint_at l = None.
Proof. intros Hl. unfold hint_at. rewrite Hl. reflexivity. Qed.

Lemma hint_at_length (l : str) (n : nat) (g : str) :
  ~ In nl l -> hint_at l = Some (n, g) -> n = length l.
Proof.
  intros Hnl. unfold hint_at.
  pose proof (lstrip_length l) as Hls.
  destruct (startswith (lstrip l) (lit "# [")) eqn:Es; [|discriminate].
  apply startswith_spec in Es as [u Eu].
  assert (Hu : ~ In nl u).
  { intros H. apply Hnl.
    assert (Hin : In nl (lstrip l)) by (rewrite Eu; apply in_or_app; auto).
    clear - Hin. induction l as [|c l IH]; simpl in *; [tauto|].
    destruct (isspace c); [right; apply IH, Hin|].
    exact Hin. }
  assert (Hlen : length (lstrip l) = 3 + length u)
    by (rewrite Eu, length_app; reflexivity).
  rewrite Eu. change (skipn 3 (lit "# [" ++ u)) with u.
  rewrite <- Eu.
  assert (Hend : forall v g',
             hint_ident v = Some g' -> ~ In nl v ->
             length v = length g' + 1).
  { intros v g' Hg Hv. apply hint_ident_spec in Hg as [after [-> [He _]]].
    destruct after as [|a after].
    - rewrite length_app. reflexivity.
    - exfalso. apply Hv. apply in_or_app. right. right. left.
      simpl in He. apply Ascii.eqb_eq in He. exact He. }
  destruct u as [|c v].
  - discriminate.
  - destruct (Ascii.eqb c "/" ) eqn:Ec.
    + destruct (hint_ident v) as [g'|] eqn:Eg.
      * intros [= <- <-]. apply Hend in Eg.
        -- simpl in Hlen. lia.
        -- intros H. apply Hu. right; exact H.
      * destruct (hint_ident (c :: v)) as [g'|] eqn:Eg'; [|discriminate].
        intros [= <- <-]. apply Hend in Eg'; [|exact Hu]. lia.
    + destruct (hint_ident (c :: v)) as [g'|] eqn:Eg'; [|discriminate].
      intros [= <- <-]. apply Hend in Eg'; [|exact Hu]. lia.
Qed.

Lemma hint_at_positive (s : str) (n : nat) (g : str) :
  hint_at s = Some (n, g) -> 0 < n.
Proof.
  unfold hint_at.
  destruct (startswith _ _); [|discriminate].
  destruct (match skipn 3 (lstrip s) with
            | [] => None
            | c :: v => if Ascii.eqb c "/" then hint_ident v else None
            end).
  - intros [= <- _]. lia.
  - destruct (hint_ident _); [|discriminate]. intros [= <- _]. lia.
Qed.

(** ** The scan of [re.findall] over the lines of a file *)

Lemma findall_step_none (p : option ascii) (c : ascii) (s : str) :
  at_bol p = false \/ hint_at (c :: s) = None ->
  findall_from hint_regex p (c :: s) 0
  = findall_from hint_regex (Some c) s 0.
Proof.
  intros H. cbn [findall_from]. rewrite match_at_hint.
  destruct (at_bol p); [|reflexivity].
  destruct H as [H | ->]; [discriminate | reflexivity].
Qed.

Lemma findall_step_some (p : option ascii) (c : ascii) (s : str)
  (n : nat) (g : str) :
  at_bol p = true -> hint_at (c :: s) = Some (S n, g) ->
  findall_from hint_regex p (c :: s) 0
  = g :: findall_from hint_regex (Some c) s n.
Proof.
  intros Hp H. cbn [findall_from]. rewrite match_at_hint, Hp, H.
  reflexivity.
Qed.

Lemma findall_skip_app (r : regex) (u : str) (p : option ascii) (c : ascii)
  (s : str) (k : nat) :
  findall_from r p (u ++ c :: s) (length u + S k)
  = findall_from r (Some c) s k.
Proof.
  revert p; induction u as [|d u IH]; intros p; [reflexivity|].
  cbn [app length Nat.add findall_from]. apply IH.
Qed.

Lemma findall_skip_all (r : regex) (u : str) (p : option ascii) :
  findall_from r p u (length u) = [].
Proof.
  revert p; induction u as [|d u IH]; intros p; [reflexivity|].
  cbn [length findall_from]. apply IH.
Qed.

Lemma findall_skip_line (u : str) (p : option ascii) (rest : str) :
  at_bol p = false -> ~ In nl u ->
  findall_from hint_regex p (u ++ nl :: rest) (length u)
  = findall_from hint_regex (Some nl) rest 0.
Proof.
  revert p; induction u as [|d u IH]; intros p Hp Hnl.
  - cbn [app length]. apply findall_step_none. left; exact Hp.
  - cbn [app length findall_from]. apply IH.
    + simpl. apply Ascii.eqb_neq. intros ->. apply Hnl. left; reflexivity.
    + intros H. apply Hnl. right; exact H.
Qed.

Lemma findall_walk_line (u : str) (p : option ascii) (rest : str) :
  at_bol p = false -> ~ In nl u ->
  findall_from hint_regex p (u ++ nl :: rest) 0
  = findall_from hint_regex (Some nl) rest 0.
Proof.
  revert p; induction u as [|d u IH]; intros p Hp Hnl.
  - cbn [app]. apply findall_step_none. left; exact Hp.
  - cbn [app]. rewrite findall_step_none by (left; exact Hp). apply IH.
    + simpl. apply Ascii.eqb_neq. intros ->. apply Hnl. left; reflexivity.
    + intros H. apply Hnl. right; exact H.
Qed.

Lemma findall_walk_end (u : str) (p : option ascii) :
  at_bol p = false -> ~ In nl u ->
  findall_from hint_regex p u 0 = [].
Proof.
  revert p; induction u as [|d u IH]; intros p Hp Hnl; [reflexivity|].
  rewrite findall_step_none by (left; exact Hp). apply IH.
  - simpl. apply Ascii.eqb_neq. intros ->. apply Hnl. left; reflexivity.
  - intros H. apply Hnl. right; exact H.
Qed.

Lemma not_nl_bol (c : ascii) (l : str) :
  ~ In nl (c :: l) -> at_bol (Some c) = false.
Proof.
  intros H. simpl. apply Ascii.eqb_neq. intros ->. apply H. left; reflexivity.
Qed.

Lemma findall_line (p : option ascii) (l rest : str) :
  at_bol p = true -> ~ In nl l ->
  findall_from hint_regex p (l ++ nl :: rest) 0
  = hint_of_line l ++ findall_from hint_regex (Some nl) rest 0.
Proof.
  intros Hp Hnl. unfold hint_of_line.
  destruct (lstrip l) as [|t0 t] eqn:El.
  - (* a blank line: the attempt reads on into the next lines *)
    rewrite (hint_at_blank_line l El). cbn [app].
    pose proof (hint_at_blank l rest El) as Hb.
    destruct (hint_at rest) as [[n g]|] eqn:Er.
    + pose proof (hint_at_positive _ _ _ Er) as Hn.
      destruct n as [|n]; [lia|].
      destruct rest as [|c0 rest'];
        [unfold hint_at in Er; simpl in Er; discriminate|].
      rewrite (findall_step_some (Some nl) c0 rest' n g eq_refl Er).
      destruct l as [|c l'].
      * cbn [app length Nat.add] in *.
        rewrite (findall_step_some p nl (c0 :: rest') (S n) g Hp Hb).
        reflexivity.
      * cbn [app length] in *.
        replace (S (length l') + 1 + S n) with (S (length l' + 1 + S n))
          in Hb by lia.
        rewrite (findall_step_some p c _ _ g Hp Hb). f_equal.
        change (l' ++ nl :: c0 :: rest')
          with (l' ++ [nl] ++ c0 :: rest').
        rewrite app_assoc.
        replace (length l' + 1 + S n) with (length (l' ++ [nl]) + S n)
          by (rewrite length_app; reflexivity).
        apply findall_skip_app.
    + destruct l as [|c l'].
      * cbn [app] in *. apply findall_step_none. right; exact Hb.
      * cbn [app] in *. rewrite findall_step_none by (right; exact Hb).
        apply findall_walk_line.
        -- apply (not_nl_bol c l'), Hnl.
        -- intros H. apply Hnl. right; exact H.
  - assert (Hne : lstrip l <> []) by (rewrite El; discriminate).
    pose proof (hint_at_line l rest Hnl Hne) as Hl.
    destruct l as [|c l']; [discriminate|].
    destruct (hint_at (c :: l')) as [[n g]|] eqn:Eh.
    + pose proof (hint_at_length _ _ _ Hnl Eh) as Hn. subst n.
      cbn [app length] in *.
      rewrite (findall_step_some p c _ _ g Hp Hl). f_equal.
      apply findall_skip_line.
      * apply (not_nl_bol c l'), Hnl.
      * intros H. apply Hnl. right; exact H.
    + cbn [app] in *. rewrite findall_step_none by (right; exact Hl).
      apply findall_walk_line.
      * apply (not_nl_bol c l'), Hnl.
      * intros H. apply Hnl. right; exact H.
Qed.

Lemma findall_last_line (p : option ascii) (l : str) :
  at_bol p = true -> ~ In nl l ->
  findall_from hint_regex p l 0 = hint_of_line l.
Proof.
  intros Hp Hnl. unfold hint_of_line.
  destruct l as [|c l']; [reflexivity|].
  destruct (hint_at (c :: l')) as [[n g]|] eqn:Eh.
  - pose proof (hint_at_length _ _ _ Hnl Eh) as Hn. subst n.
    cbn [length] in Eh.
    rewrite (findall_step_some p c _ _ g Hp Eh). f_equal.
    apply findall_skip_all.
  - rewrite findall_step_none by (right; exact Eh).
    apply findall_walk_end.
    + apply (not_nl_bol c l'), Hnl.
    + intros H. apply Hnl. right; exact H.
Qed.

(** The hints of a file are the hints of its lines, in order. *)
Lemma findall_unlines (lines : list str) :
  is_lines lines ->
  findall hint_regex (unlines lines) = flat_map hint_of_line lines.
Proof.
  unfold findall, unlines. generalize (@None ascii) (eq_refl : at_bol None = true).
  intros p Hp H. revert p Hp.
  induction H as [|l lines Hl Hlines IH]; intros p Hp; [reflexivity|].
  destruct lines as [|l2 lines].
  - cbn [join flat_map]. rewrite app_nil_r. apply findall_last_line; auto.
  - change (join [nl] (l :: l2 :: lines))
      with (l ++ nl :: join [nl] (l2 :: lines)).
    rewrite findall_line by auto.
    cbn [flat_map]. f_equal. apply IH. reflexivity.
Qed.

(** ** Delimiter lines *)

Lemma lstrip_white (white : str) (c : ascii) (x : str) :
  blank white -> isspace c = false -> lstrip (white ++ c :: x) = c :: x.
Proof.
  intros Hw Hc. induction Hw as [|d white [Hd _] _ IH]; simpl.
  - rewrite Hc. reflexivity.
  - rewrite Hd. exact IH.
Qed.

Lemma ident_end_name (r : str) :
  Forall (fun c => cs_mem hint_class c = true) r ->
  ident_end (r ++ ["]"%char]) = Some r.
Proof.
  induction 1 as [|c r Hc _ IH]; [reflexivity|].
  cbn [app ident_end]. rewrite Hc, IH. reflexivity.
Qed.

Lemma hint_ident_name (name : str) :
  hint_name name -> hint_ident (name ++ lit "]") = Some name.
Proof.
  intros [Hne Hall]. destruct name as [|c name]; [congruence|].
  inversion Hall as [|? ? Hc Hr]; subst.
  cbn [app hint_ident]. rewrite Hc.
  change (lit "]") with ["]"%char]. rewrite ident_end_name by exact Hr.
  reflexivity.
Qed.

Lemma hint_name_no_slash (c : ascii) (name : str) :
  hint_name (c :: name) -> Ascii.eqb c "/" = false.
Proof.
  intros [_ H]. inversion H as [|? ? Hc _]; subst.
  destruct (Ascii.eqb c "/") eqn:E; [|reflexivity].
  apply Ascii.eqb_eq in E. subst. discriminate.
Qed.

Lemma hint_of_opening_line (white name : str) :
  blank white -> hint_name name ->
  hint_of_line (opening_line white name) = [name].
Proof.
  intros Hw Hn. unfold hint_of_line, hint_at, opening_line.
  change (lit "# [" ++ name ++ lit "]")
    with ("#"%char :: lit " [" ++ name ++ lit "]").
  rewrite lstrip_white by (auto; reflexivity).
  change ("#"%char :: lit " [" ++ name ++ lit "]")
    with (lit "# [" ++ name ++ lit "]").
  replace (startswith (lit "# [" ++ name ++ lit "]") (lit "# ["))
    with true by (symmetry; apply startswith_spec; eauto).
  change (skipn 3 (lit "# [" ++ name ++ lit "]")) with (name ++ lit "]").
  rewrite (hint_ident_name name Hn).
  destruct name as [|c name]; [destruct Hn; congruence|].
  cbn [app]. rewrite (hint_name_no_slash c name Hn). reflexivity.
Qed.


Lemma flat_map_none (lines : list str) :
  Forall (fun line => hint_of_line line = []) lines ->
  flat_map hint_of_line lines = [].
Proof.
  induction 1 as [|l lines Hl _ IH]; [reflexivity|].
  cbn [flat_map]. rewrite Hl, IH. reflexivity.
Qed.




Lemma one_opening_hints (file_text name : str) :
  one_opening file_text name -> findall hint_regex file_text = [name].
Proof.
  intros [before [after [w [-> [Hl [Hw [Hname Hn]]]]]]].
  rewrite findall_unlines by exact Hl.
  apply Forall_app in Hn as [Hb Ha].
  rewrite flat_map_app. cbn [flat_map].
  rewrite hint_of_opening_line, !flat_map_none by assumption.
  reflexivity.
Qed.



Lemma pairwise_odd (A : Type) (l : list A) (x : A) :
  Nat.even (length l) = true -> _pairwise (l ++ [x]) = _pairwise l.
Proof.
  remember (length l) as n eqn:Hn. revert l Hn.
  induction n as [n IH] using lt_wf_ind. intros l Hn He.
  destruct l as [|a [|b l]]; [reflexivity | subst; discriminate |].
  cbn [app _pairwise]. f_equal.
  apply (IH (length l)); subst; simpl in *; auto.
Qed.



(** C9: when the scan of a file yields an odd number of hints, the last
    one is dropped by the pairing: the mismatches of the file are those
    of the hints before it.  A file whose only delimiter line is an
    opening line has the one hint of that line and no mismatch. *)
Theorem odd_hint_dropped (filepath file_text : str) :
  (forall hints last,
      findall hint_regex file_text = hints ++ [last] ->
      Nat.even (length hints) = true ->
      file_mismatches filepath file_text
      = check_pairs filepath (_pairwise hints))
  /\ (forall name,
        one_opening file_text name ->
        findall hint_regex file_text = [name]
        /\ file_mismatches filepath file_text = []).
Proof.
  split.
  - intros hints last H He. unfold file_mismatches.
    rewrite H, pairwise_odd by exact He. reflexivity.
  - intros name H. apply one_opening_hints in H.
    unfold file_mismatches. rewrite H. split; reflexivity.
Qed.

Lemma odd_hint_dropped_witness :
  let file_text := lit "# [numpy]" ++ [nl] ++ lit "  numpy==1.26.4" ++ [nl] in
  findall hint_regex file_text = [lit "numpy"]
  /\ file_mismatches (lit "a.cmake") file_text = [].
Proof.
  intros file_text.
  apply (proj2 (odd_hint_dropped (lit "a.cmake") file_text) (lit "numpy")).
  exists [], [lit "  numpy==1.26.4"; []], [].
  repeat split; try reflexivity;
    repeat constructor; simpl; intuition discriminate.
Defined.

(** * Further properties *)

(** ** The listing parser on other inputs *)

Lemma split_from_token (tok cur rest : str) :
  Forall (fun c => isspace c = false) tok ->
  split_from cur (tok ++ rest) = split_from (rev tok ++ cur) rest.
Proof.
  intros H. revert cur. induction H as [|c tok Hc _ IH]; intros cur.
  - reflexivity.
  - cbn [app split_from]. rewrite Hc, IH. cbn [rev].
    rewrite <- app_assoc. reflexivity.
Qed.

Lemma split_three (a b c : str) :
  is_token a -> is_token b -> is_token c ->
  split (a ++ lit " " ++ b ++ lit " " ++ c) = [a; b; c].
Proof.
  intros [Ha Ha'] [Hb Hb'] [Hc Hc']. unfold split.
  rewrite split_from_token by exact Ha'. rewrite app_nil_r.
  change (lit " " ++ b ++ lit " " ++ c) with (" "%char :: b ++ lit " " ++ c).
  cbn [split_from]. change (isspace " ") with true. cbn iota.
  destruct (rev a) as [|x ra] eqn:Era.
  { apply (f_equal (@rev ascii)) in Era. rewrite rev_involutive in Era.
    contradiction. }
  rewrite <- Era, rev_involutive. f_equal.
  rewrite split_from_token by exact Hb'. rewrite app_nil_r.
  change (lit " " ++ c) with (" "%char :: c).
  cbn [split_from]. change (isspace " ") with true. cbn iota.
  destruct (rev b) as [|y rb] eqn:Erb.
  { apply (f_equal (@rev ascii)) in Erb. rewrite rev_involutive in Erb.
    contradiction. }
  rewrite <- Erb, rev_involutive. f_equal.
  rewrite <- (app_nil_r c) at 1.
  rewrite split_from_token by exact Hc'. rewrite app_nil_r.
  cbn [split_from].
  destruct (rev c) as [|z rc] eqn:Erc.
  { apply (f_equal (@rev ascii)) in Erc. rewrite rev_involutive in Erc.
    contradiction. }
  rewrite <- Erc, rev_involutive. reflexivity.
Qed.

Lemma row_entry_listing_row (entry : str * Versions) :
  entry_tokens entry -> row_entry (listing_row entry) = Some entry.
Proof.
  destruct entry as [name [current latest]]. intros [Hn [Hc Hl]].
  unfold row_entry, listing_row. cbn [fst snd] in *.
  rewrite split_three by assumption. reflexivity.
Qed.

Lemma dict_set_fresh (V : Type) (d : dict V) (k : str) (v : V) :
  ~ In k (keys d) -> dict_set d k v = d ++ [(k, v)].
Proof.
  induction d as [|[k0 v0] d IH]; intros H; [reflexivity|].
  cbn [dict_set app].
  destruct (str_eqb k k0) eqn:E.
  - apply str_eqb_eq in E. subst. exfalso. apply H. left; reflexivity.
  - rewrite IH; [reflexivity|]. intros Hin. apply H. right; exact Hin.
Qed.

Lemma fold_add_row_fresh (entries : list (str * Versions))
  (packages : dict Versions) :
  Forall entry_tokens entries ->
  NoDup (keys packages ++ keys entries) ->
  fold_left add_row (map listing_row entries) packages
  = packages ++ entries.
Proof.
  intros He. revert packages.
  induction He as [|[name v] entries H _ IH]; intros packages Hnd.
  - simpl. rewrite app_nil_r. reflexivity.
  - cbn [map fold_left]. unfold add_row at 2.
    rewrite (row_entry_listing_row _ H).
    rewrite dict_set_fresh.
    + rewrite IH.
      * rewrite <- app_assoc. reflexivity.
      * unfold keys in *. rewrite map_app, <- app_assoc. exact Hnd.
    + unfold keys in *. cbn [map fst] in Hnd.
      apply NoDup_remove_2 in Hnd. intros Hin. apply Hnd.
      apply in_or_app. left; exact Hin.
Qed.

Lemma listing_row_tokens (entry : str * Versions) :
  entry_tokens entry -> 2 <= length (split (listing_row entry)).
Proof.
  destruct entry as [name [current latest]]. intros [Hn [Hc Hl]].
  unfold listing_row. cbn [fst snd] in *.
  rewrite split_three by assumption. simpl. lia.
Qed.

(** X1: printing a mapping and parsing it gives the mapping back: for
    entries of three tokens each and distinct names, the listing of two
    header lines, one row [name current latest] per entry and an empty
    last line is parsed to exactly these entries, in their order. *)
Theorem parse_listing_rows_round_trip (h1 h2 : str)
  (entries : dict Versions) :
  Forall entry_tokens entries ->
  NoDup (keys entries) ->
  parse_pip_list_output (h1 :: h2 :: map listing_row entries ++ [[]])
  = Some entries.
Proof.
  intros He Hnd. unfold parse_pip_list_output, data_lines. simpl skipn.
  rewrite removelast_app by discriminate. cbn [removelast].
  rewrite parse_rows_app.
  - cbn [parse_rows]. rewrite fold_add_row_fresh by assumption.
    reflexivity.
  - apply Forall_map. revert He. apply Forall_impl.
    intros entry. apply listing_row_tokens.
Qed.

Lemma parse_listing_rows_round_trip_witness :
  parse_pip_list_output
    (lit "Package Version Latest"
     :: lit "------- ------- ------"
     :: map listing_row
          [(lit "six", (lit "1.15.0", lit "1.16.0"));
           (lit "idna", (lit "3.4", lit "3.7"))]
     ++ [[]])
  = Some [(lit "six", (lit "1.15.0", lit "1.16.0"));
          (lit "idna", (lit "3.4", lit "3.7"))].
Proof.
  apply (parse_listing_rows_round_trip (lit "Package Version Latest")
           (lit "------- ------- ------")).
  - repeat constructor; discriminate.
  - repeat constructor; simpl; intuition discriminate.
Defined.

Lemma split_nonempty_not_blank (line : str) :
  split line <> [] -> strip line <> [].
Proof.
  intros H E. apply strip_nil, split_blank in E. contradiction.
Qed.

(** X2: a data row with a single token makes the parser raise
    ([details[1]] is out of range): when the rows before it have two
    tokens or more and a further line follows it, there is no result. *)
Theorem parse_single_token_row_raises (h1 h2 : str) (rows : list str)
  (line : str) (more : list str) :
  Forall (fun row => 2 <= length (split row)) rows ->
  length (split line) = 1 ->
  more <> [] ->
  parse_pip_list_output (h1 :: h2 :: rows ++ line :: more) = None.
Proof.
  intros Hrows Hline Hmore. unfold parse_pip_list_output, data_lines.
  simpl skipn. rewrite removelast_app by discriminate.
  rewrite parse_rows_app by exact Hrows.
  destruct more as [|x more]; [congruence|].
  cbn [removelast parse_rows].
  assert (Hs : strip line <> []).
  { apply split_nonempty_not_blank. intros E. rewrite E in Hline.
    discriminate. }
  destruct (strip line) as [|c t]; [congruence|].
  destruct (split line) as [|a [|b l]]; simpl in Hline; try lia.
  reflexivity.
Qed.

Lemma parse_single_token_row_raises_witness :
  parse_pip_list_output
    [lit "Package Version"; lit "------- -------"; lit "six 1.16.0";
     lit "WARNING"; lit ""]
  = None.
Proof.
  apply (parse_single_token_row_raises (lit "Package Version")
           (lit "------- -------") [lit "six 1.16.0"] (lit "WARNING")
           [lit ""]).
  - repeat constructor.
  - reflexivity.
  - discriminate.
Defined.

(** X3: a listing of at most three lines has no data row that is read:
    the result is the empty mapping, whatever the lines hold. *)
Theorem parse_short_listing (lines : list str) :
  length lines <= 3 -> parse_pip_list_output lines = Some [].
Proof.
  intros H. destruct lines as [|a [|b [|c [|d l]]]]; try reflexivity.
  simpl in H. lia.
Qed.

Lemma parse_short_listing_witness :
  parse_pip_list_output
    [lit "Package Version"; lit "------- -------"; lit "six 1.16.0"]
  = Some [].
Proof.
  apply (parse_short_listing
           [lit "Package Version"; lit "------- -------"; lit "six 1.16.0"]).
  simpl; lia.
Defined.

(** ** From the text of [pip list] to the mapping *)

Lemma split_on_from_line (line cur rest : str) :
  ~ In nl line ->
  split_on_from nl cur (line ++ nl :: rest)
  = (rev cur ++ line) :: split_on_from nl [] rest.
Proof.
  revert cur; induction line as [|c line IH]; intros cur Hnl.
  - cbn [app split_on_from]. rewrite Ascii.eqb_refl, app_nil_r.
    reflexivity.
  - cbn [app split_on_from].
    replace (Ascii.eqb c nl) with false.
    + rewrite IH by (intros H; apply Hnl; right; exact H).
      cbn [rev]. rewrite <- app_assoc. reflexivity.
    + symmetry. apply Ascii.eqb_neq. intros ->. apply Hnl. left; reflexivity.
Qed.

Lemma split_on_terminated (lines : list str) :
  is_lines lines -> split_on nl (terminated lines) = lines ++ [[]].
Proof.
  unfold split_on, terminated.
  induction 1 as [|line lines Hl _ IH]; [reflexivity|].
  cbn [map concat]. rewrite <- app_assoc. cbn [app].
  rewrite split_on_from_line by exact Hl. rewrite IH. reflexivity.
Qed.

(** X4: what [execute_pip_list] returns for a text whose lines all end
    with a newline is these lines and one empty line, so that
    [parse_pip_list_output] reads every data row of it: for two header
    lines and rows of two tokens or more, running [pip list] and parsing
    gives, for every name, the versions of the last row of that name;
    the only effect is the call of [pip]. *)
Theorem pip_list_then_parse (env : Env) (installation_path : option str)
  (outdated : bool) (h1 h2 : str) (rows : list str) (w : World) :
  pip_list_output env installation_path outdated
  = terminated (h1 :: h2 :: rows) ->
  is_lines (h1 :: h2 :: rows) ->
  Forall (fun row => 2 <= length (split row)) rows ->
  exists packages,
    (lines <- execute_pip_list env installation_path outdated ;;
     lift (parse_pip_list_output lines)) w
    = Some (packages,
            MkWorld (disk w)
              (log w ++ [EvPipList installation_path outdated]))
    /\ (forall name, dict_get packages name = last_entry rows name)
    /\ length packages <= length rows.
Proof.
  intros Htext Hlines Hrows.
  exists (fold_left add_row rows []).
  destruct (rows_parsed rows Hrows) as [Hget [_ [Hlen _]]].
  split; [|split; assumption].
  unfold execute_pip_list, bind, emit, ret. cbn [disk log].
  rewrite Htext, split_on_terminated by exact Hlines.
  unfold parse_pip_list_output, data_lines.
  cbn [app skipn]. rewrite removelast_app by discriminate.
  cbn [removelast]. rewrite parse_rows_app by exact Hrows.
  reflexivity.
Qed.

Lemma pip_list_then_parse_witness :
  exists packages,
    (lines <- execute_pip_list Sample.nested_env None true ;;
     lift (parse_pip_list_output lines)) Sample.nested_world
    = Some (packages,
            MkWorld (disk Sample.nested_world)
              (log Sample.nested_world ++ [EvPipList None true]))
    /\ (forall name,
          dict_get packages name
          = last_entry [lit "vtk     9.2.6   9.3.0  wheel";
                        lit "foo     1.0.0   2.0.0  wheel"] name)
    /\ length packages <= 2.
Proof.
  refine (pip_list_then_parse Sample.nested_env None true
            (lit "Package Version Latest Type")
            (lit "------- ------- ------ -----")
            [lit "vtk     9.2.6   9.3.0  wheel";
             lit "foo     1.0.0   2.0.0  wheel"]
            Sample.nested_world _ _ _).
  - vm_compute. reflexivity.
  - repeat constructor; vm_compute; intuition discriminate.
  - repeat (apply Forall_cons; [vm_compute; lia|]). apply Forall_nil.
Defined.

(** ** The summary of the mismatches *)

Lemma split_on_join (lines : list str) :
  lines <> [] -> is_lines lines -> split_on nl (join [nl] lines) = lines.
Proof.
  unfold split_on. intros Hne H.
  induction H as [|line lines Hl Hlines IH]; [contradiction|].
  destruct lines as [|l2 lines].
  - cbn [join]. clear IH Hne Hlines.
    assert (G : forall cur, split_on_from nl cur line = [rev cur ++ line]).
    { induction line as [|c line IHl]; intros cur.
      - simpl. rewrite app_nil_r. reflexivity.
      - cbn [split_on_from]. replace (Ascii.eqb c nl) with false.
        + rewrite IHl by (intros H; apply Hl; right; exact H).
          cbn [rev]. rewrite <- app_assoc. reflexivity.
        + symmetry. apply Ascii.eqb_neq. intros ->. apply Hl.
          left; reflexivity. }
    apply G.
  - change (join [nl] (line :: l2 :: lines))
      with (line ++ nl :: join [nl] (l2 :: lines)).
    rewrite split_on_from_line by exact Hl.
    rewrite IH by discriminate. reflexivity.
Qed.

Lemma join_cons2 (sep a r : str) (rs : list str) :
  join sep (a :: r :: rs) = a ++ sep ++ join sep (r :: rs).
Proof. reflexivity. Qed.

Lemma summary_as_lines (mismatches : list Mismatch) :
  hint_validation_mismatch_summary mismatches
  = join [nl] (flat_map mismatch_lines mismatches).
Proof.
  unfold hint_validation_mismatch_summary.
  induction mismatches as [|[[filepath first] second] mismatches IH];
    [reflexivity|].
  destruct mismatches as [|[[filepath2 first2] second2] mismatches].
  - reflexivity.
  - cbn [map]. rewrite join_cons2. cbn [map] in IH.
    etransitivity.
    { apply (f_equal (fun t => _ ++ [nl] ++ t)). exact IH. }
    cbn [flat_map mismatch_lines app]. rewrite !join_cons2.
    repeat (rewrite <- app_assoc; cbn [app]). reflexivity.
Qed.

(** X5: the summary of the mismatches reads back line by line: for
    mismatches whose path and names hold no newline, it has two lines per
    mismatch, in order: the path, then [  first != second]. *)
Theorem mismatch_summary_lines (mismatches : list Mismatch) :
  mismatches <> [] ->
  Forall mismatch_one_line mismatches ->
  split_on nl (hint_validation_mismatch_summary mismatches)
  = flat_map mismatch_lines mismatches.
Proof.
  intros Hne H. rewrite summary_as_lines. apply split_on_join.
  - destruct mismatches as [|[[fp a] b] ms]; [contradiction | discriminate].
  - unfold is_lines. clear Hne.
    induction H as [|[[fp a] b] ms [H1 [H2 H3]] _ IH];
      [constructor|].
    cbn [flat_map mismatch_lines app]. constructor; [exact H1|].
    constructor; [|exact IH].
    intros Hin. apply in_app_or in Hin as [Hin | Hin];
      [vm_compute in Hin; intuition discriminate|].
    apply in_app_or in Hin as [Hin | Hin]; [contradiction|].
    apply in_app_or in Hin as [Hin | Hin];
      [vm_compute in Hin; intuition discriminate | contradiction].
Qed.

Lemma mismatch_summary_lines_witness :
  split_on nl
    (hint_validation_mismatch_summary
       [(lit "b.cmake", lit "scipy", lit "numpy")])
  = [lit "b.cmake"; lit "  scipy != numpy"].
Proof.
  apply (mismatch_summary_lines [(lit "b.cmake", lit "scipy", lit "numpy")]).
  - discriminate.
  - repeat constructor; vm_compute; intuition discriminate.
Defined.

(** ** Delimiter lines the validator pairs or passes over *)

Lemma two_openings_hints (file_text first second : str) :
  two_openings file_text first second ->
  findall hint_regex file_text = [first; second].
Proof.
  intros [before [body [after [w1 [w2 [-> [Hl [Hw1 [Hw2 [Hf [Hs Hn]]]]]]]]]]].
  rewrite findall_unlines by exact Hl.
  apply Forall_app in Hn as [Hb Hn]. apply Forall_app in Hn as [Hbody Ha].
  rewrite flat_map_app. cbn [flat_map]. rewrite flat_map_app.
  cbn [flat_map].
  rewrite !hint_of_opening_line, !flat_map_none by assumption.
  reflexivity.
Qed.

(** X6: the second hint of a pair loses its first character whether or
    not that is a slash: in a file whose only delimiter lines are two
    opening ones, [# [first]] and then [# [second]], the validator
    compares [first] with [second] without its first character and, when
    they differ, reports this shortened name. *)
Theorem two_openings_mismatch (filepath file_text first second : str) :
  two_openings file_text first second ->
  file_mismatches filepath file_text
  = if str_eqb first (tl second) then []
    else [(filepath, first, tl second)].
Proof.
  intros H. unfold file_mismatches. rewrite (two_openings_hints _ _ _ H).
  cbn [_pairwise check_pairs].
  destruct (str_eqb first (tl second)); reflexivity.
Qed.

Lemma two_openings_mismatch_witness :
  file_mismatches (lit "a.cmake")
    (unlines [lit "# [numpy]"; lit "  numpy==1.26.4"; lit "# [scipy]"])
  = [(lit "a.cmake", lit "numpy", lit "cipy")].
Proof.
  apply (two_openings_mismatch (lit "a.cmake")
           (unlines [lit "# [numpy]"; lit "  numpy==1.26.4"; lit "# [scipy]"])
           (lit "numpy") (lit "scipy")).
  exists [], [lit "  numpy==1.26.4"], [], [], [].
  repeat split; try reflexivity; try discriminate;
    repeat constructor; vm_compute; intuition discriminate.
Defined.

Lemma ident_end_stop (r : str) (c : ascii) (t : str) :
  Forall (fun x => cs_mem hint_class x = true) r ->
  cs_mem hint_class c = false -> c <> nl ->
  ident_end (r ++ c :: t) = None.
Proof.
  intros Hr Hc Hnl. induction Hr as [|x r Hx Hr IH].
  - cbn [app ident_end]. rewrite Hc. reflexivity.
  - cbn [app ident_end]. rewrite Hx, IH.
    destruct r as [|y r].
    + cbn [app at_eol]. replace (Ascii.eqb c nl) with false.
      * rewrite andb_false_r. reflexivity.
      * symmetry. apply Ascii.eqb_neq. exact Hnl.
    + cbn [app at_eol]. inversion Hr as [|? ? Hy _]; subst.
      replace (Ascii.eqb y nl) with false.
      * rewrite andb_false_r. reflexivity.
      * symmetry. apply Ascii.eqb_neq. intros ->. discriminate.
Qed.

Lemma hint_ident_stop (name : str) (c : ascii) (t : str) :
  hint_name name -> cs_mem hint_class c = false -> c <> nl ->
  hint_ident (name ++ lit "]" ++ c :: t) = None.
Proof.
  intros [Hne Hall] Hc Hnl. destruct name as [|n0 name]; [congruence|].
  inversion Hall as [|? ? H0 Hr]; subst.
  cbn [app hint_ident]. rewrite H0.
  change (name ++ lit "]" ++ c :: t) with (name ++ ["]"%char] ++ c :: t).
  rewrite app_assoc, ident_end_stop; auto.
  apply Forall_app. split; [exact Hr | repeat constructor].
Qed.

Lemma hidden_line_no_hint (line : str) :
  hidden_line line -> ~ In nl line -> hint_of_line line = [].
Proof.
  intros H Hnl. unfold hint_of_line, hint_at.
  destruct H as [white name c t Hw Hn Hc | white name c t Hw Hn Hc
                | white c t Hw Hc Hh].
  - assert (Hcnl : c <> nl).
    { intros ->. apply Hnl. apply in_or_app. right. left; reflexivity. }
    unfold opening_line. rewrite <- !app_assoc.
    change (lit "# [" ++ name ++ lit "]" ++ c :: t)
      with ("#"%char :: lit " [" ++ name ++ lit "]" ++ c :: t).
    rewrite lstrip_white by (auto; reflexivity).
    change ("#"%char :: lit " [" ++ name ++ lit "]" ++ c :: t)
      with (lit "# [" ++ name ++ lit "]" ++ c :: t).
    replace (startswith (lit "# [" ++ name ++ lit "]" ++ c :: t) (lit "# ["))
      with true by (symmetry; apply startswith_spec; eauto).
    change (skipn 3 (lit "# [" ++ name ++ lit "]" ++ c :: t))
      with (name ++ lit "]" ++ c :: t).
    rewrite (hint_ident_stop name c t Hn Hc Hcnl).
    destruct name as [|n0 name]; [destruct Hn; congruence|].
    cbn [app]. rewrite (hint_name_no_slash n0 name Hn). reflexivity.
  - assert (Hcnl : c <> nl).
    { intros ->. apply Hnl. apply in_or_app. right. left; reflexivity. }
    unfold closing_line. rewrite <- !app_assoc.
    change (lit "# [/" ++ name ++ lit "]" ++ c :: t)
      with ("#"%char :: lit " [/" ++ name ++ lit "]" ++ c :: t).
    rewrite lstrip_white by (auto; reflexivity).
    change ("#"%char :: lit " [/" ++ name ++ lit "]" ++ c :: t)
      with (lit "# [" ++ "/"%char :: name ++ lit "]" ++ c :: t).
    replace (startswith (lit "# [" ++ "/"%char :: name ++ lit "]" ++ c :: t)
               (lit "# ["))
      with true by (symmetry; apply startswith_spec; eauto).
    change (skipn 3 (lit "# [" ++ "/"%char :: name ++ lit "]" ++ c :: t))
      with ("/"%char :: name ++ lit "]" ++ c :: t).
    cbn [Ascii.eqb]. rewrite (hint_ident_stop name c t Hn Hc Hcnl).
    reflexivity.
  - rewrite lstrip_white by auto.
    change (lit "# [") with ("#"%char :: lit " ["). cbn [startswith].
    replace (Ascii.eqb "#" c) with false; [reflexivity|].
    symmetry. apply Ascii.eqb_neq. congruence.
Qed.

(** X7: the validator sees a delimiter only when it stands alone on its
    line.  A delimiter followed on its line by a character outside the
    class (a trailing space, say), or a line with something else than
    white space before the marker, gives no hint: the hints of the file
    are those of the file without that line. *)
Theorem hidden_line_skipped (before after : list str) (line : str) :
  hidden_line line ->
  is_lines (before ++ line :: after) ->
  findall hint_regex (unlines (before ++ line :: after))
  = findall hint_regex (unlines (before ++ after)).
Proof.
  intros H Hl.
  assert (Hl' : is_lines (before ++ after)).
  { apply Forall_app in Hl as [Hb Ha]. inversion Ha; subst.
    apply Forall_app. split; assumption. }
  assert (Hline : ~ In nl line).
  { apply Forall_app in Hl as [_ Ha]. inversion Ha; subst. assumption. }
  rewrite !findall_unlines by assumption.
  rewrite !flat_map_app. cbn [flat_map].
  rewrite (hidden_line_no_hint line H Hline). reflexivity.
Qed.

Lemma hidden_line_skipped_witness :
  findall hint_regex
    (unlines ([lit "# [numpy]"] ++ lit "# [/numpy] " :: [lit "# [scipy]"]))
  = findall hint_regex (unlines ([lit "# [numpy]"] ++ [lit "# [scipy]"])).
Proof.
  apply (hidden_line_skipped [lit "# [numpy]"] [lit "# [scipy]"]
           (lit "# [/numpy] ")).
  - apply (hidden_closing [] (lit "numpy") " "%char []).
    + constructor.
    + split; [discriminate | repeat constructor].
    + reflexivity.
  - repeat constructor; vm_compute; intuition discriminate.
Defined.

(** ** The validator over the tree *)

Lemma dict_get_app_fresh (V : Type) (d1 d2 : dict V) (k : str) :
  ~ In k (keys d1) -> dict_get (d1 ++ d2) k = dict_get d2 k.
Proof.
  induction d1 as [|[k0 v0] d1 IH]; intros H; [reflexivity|].
  cbn [app dict_get]. destruct (str_eqb k k0) eqn:E.
  - apply str_eqb_eq in E. subst. exfalso. apply H. left; reflexivity.
  - apply IH. intros Hin. apply H. right; exact Hin.
Qed.

Lemma mismatches_of_entries (d : Directory) :
  NoDup (keys d) ->
  mismatches_of d
  = flat_map (fun entry => file_mismatches (fst entry) (snd entry)) d.
Proof.
  unfold mismatches_of.
  assert (G : forall d1 d2,
             NoDup (keys (d1 ++ d2)) ->
             flat_map
               (fun filepath =>
                  match dict_get (d1 ++ d2) filepath with
                  | Some file_text => file_mismatches filepath file_text
                  | None => []
                  end) (keys d2)
             = flat_map
                 (fun entry => file_mismatches (fst entry) (snd entry)) d2).
  { intros d1 d2. revert d1. induction d2 as [|[k v] d2 IH]; intros d1 Hnd;
      [reflexivity|].
    cbn [keys map flat_map fst snd].
    rewrite dict_get_app_fresh.
    - cbn [dict_get]. rewrite str_eqb_refl. f_equal.
      specialize (IH (d1 ++ [(k, v)])). rewrite <- app_assoc in IH.
      apply IH. exact Hnd.
    - unfold keys in Hnd. rewrite map_app in Hnd. cbn [map fst] in Hnd.
      apply NoDup_remove_2 in Hnd. intros Hin. apply Hnd.
      apply in_or_app. left; exact Hin. }
  intros Hnd. apply (G [] d). exact Hnd.
Qed.

(** X8: over a tree whose paths are distinct, the validator returns the
    mismatches of each file, file after file in the order of the walk; it
    reads every file once, in that order, and leaves the tree as it
    is. *)
Theorem validate_hints_aggregates (directory : str) (w : World) :
  NoDup (keys (disk w)) ->
  validate_external_project_python_package_hints directory w
  = Some (flat_map
            (fun entry => file_mismatches (fst entry) (snd entry)) (disk w),
          MkWorld (disk w) (log w ++ map EvRead (keys (disk w)))).
Proof.
  intros Hnd. rewrite validate_run, mismatches_of_entries by exact Hnd.
  reflexivity.
Qed.

Lemma validate_hints_aggregates_witness :
  let w :=
    MkWorld [(lit "a.cmake", unlines [lit "# [numpy]"; lit "# [/scipy]"]);
             (lit "b.cmake", unlines [lit "# [six]"; lit "# [/six]"])] [] in
  validate_external_project_python_package_hints (lit "SuperBuild") w
  = Some (flat_map
            (fun entry => file_mismatches (fst entry) (snd entry)) (disk w),
          MkWorld (disk w) (log w ++ map EvRead (keys (disk w)))).
Proof.
  intros w. apply (validate_hints_aggregates (lit "SuperBuild") w).
  repeat constructor; vm_compute; intuition discriminate.
Defined.

(** ** One block of a file *)

Lemma re_sub_modelled (env : Env) (package_name updated_line file_text t
  : str) :
  substitute_block package_name updated_line file_text = Some t ->
  re_sub env package_name updated_line file_text = Some t.
Proof. unfold re_sub. intros ->. reflexivity. Qed.

Lemma re_sub_eq (env : Env) (package_name updated_line : str)
  (name : list charset) (repl file_text : str) :
  pasted package_name = Some name ->
  expand_template (block_template package_name updated_line) = Some repl ->
  re_sub env package_name updated_line file_text
  = Some (sub_from (block_pattern name) repl None file_text 0).
Proof.
  intros Hp He. apply re_sub_modelled.
  apply (substitute_block_eq _ _ _ _ file_text Hp He).
Qed.

Lemma occurs_false (pat : list charset) (s : str) (i : nat) :
  occurs pat s = false -> pmatch pat (skipn i s) = false.
Proof.
  unfold occurs. destruct (find_first pat s) eqn:F; [discriminate|].
  intros _. apply find_first_none. exact F.
Qed.

Lemma opening_tag_length (package_name : str) (name : list charset) :
  pasted package_name = Some name ->
  length (opening_tag package_name) = length (opening_items name).
Proof.
  intros H. destruct (pasted_spec _ _ H) as [Hl _].
  unfold opening_tag. rewrite opening_items_length, !length_app, Hl.
  simpl. lia.
Qed.

Lemma closing_tag_length (package_name : str) (name : list charset) :
  pasted package_name = Some name ->
  length (closing_tag package_name) = length (closing_items name).
Proof.
  intros H. destruct (pasted_spec _ _ H) as [Hl _].
  unfold closing_tag. rewrite closing_items_length, !length_app, Hl.
  simpl. lia.
Qed.

Lemma removelast_length (s : str) :
  s <> [] -> length (removelast s) = length s - 1.
Proof.
  intros H. pose proof (app_removelast_last " "%char H) as E.
  apply (f_equal (@length ascii)) in E. rewrite length_app in E.
  simpl in E. lia.
Qed.

(** No match of [pat] starts in [u] when the text goes on with [tag]. *)
Lemma no_start_before (pat : list charset) (u tag rest : str) (i : nat) :
  length pat = length tag -> tag <> [] ->
  occurs pat (u ++ removelast tag) = false ->
  i < length u ->
  pmatch pat (skipn i (u ++ tag ++ rest)) = false.
Proof.
  intros Hlen Hne Ho Hi.
  rewrite (app_removelast_last " "%char Hne), <- !app_assoc.
  rewrite (app_assoc u). rewrite skipn_app_le
    by (rewrite length_app; lia).
  rewrite pmatch_app.
  - apply occurs_false, Ho.
  - rewrite length_skipn, length_app, removelast_length by exact Hne. lia.
Qed.

Lemma block_match_delimited (package_name : str) (name : list charset)
  (old after : str) :
  pasted package_name = Some name ->
  occurs (closing_items name) (old ++ removelast (closing_tag package_name))
  = false ->
  block_match_len name
    (opening_tag package_name ++ old ++ closing_tag package_name ++ after)
  = Some (length (opening_tag package_name ++ old
                  ++ closing_tag package_name)).
Proof.
  intros Hp Hc. unfold block_match_len.
  pose proof (opening_tag_length _ _ Hp) as Hlo.
  pose proof (closing_tag_length _ _ Hp) as Hlc.
  unfold opening_tag at 1.
  rewrite (opening_items_match package_name name _ Hp).
  fold (opening_tag package_name). rewrite <- Hlo, skipn_exact.
  rewrite (find_first_least _ _ (length old)).
  - rewrite !length_app, Hlc. f_equal. lia.
  - rewrite skipn_exact. unfold closing_tag.
    apply closing_items_match, Hp.
  - intros i Hi. apply no_start_before; auto.
    unfold closing_tag. destruct (lit "# [/" ++ package_name ++ lit "]") eqn:E;
      [discriminate E | discriminate].
Qed.

(** X9: one block of a file is replaced and the rest is kept.  Take a
    package name whose only special pattern character is the dot, and a
    replacement that the template processing of [re] takes without a
    group reference or an octal escape, [repl] being the text it makes
    of it.  When the pattern of the opening delimiter matches nowhere
    before the block and that of the closing delimiter nowhere between
    the two delimiters, [re.sub] puts [repl] in the place of the block,
    from its opening to its closing delimiter, keeps the text before it
    as it is and goes on in the same way with the text behind it. *)
Theorem substitute_block_replaces (env : Env)
  (package_name updated_line : str) (name : list charset)
  (repl before old after : str) :
  pasted package_name = Some name ->
  expand_template (block_template package_name updated_line) = Some repl ->
  occurs (opening_items name)
    (before ++ removelast (opening_tag package_name)) = false ->
  occurs (closing_items name)
    (old ++ removelast (closing_tag package_name)) = false ->
  exists after',
    re_sub env package_name updated_line after = Some after'
    /\ re_sub env package_name updated_line
         (before ++ opening_tag package_name ++ old
          ++ closing_tag package_name ++ after)
       = Some (before ++ repl ++ after').
Proof.
  intros Hp He Ho Hc.
  exists (sub_from (block_pattern name) repl None after 0).
  rewrite !(fun text => re_sub_eq env _ _ _ _ text Hp He).
  split; [reflexivity|]. f_equal.
  rewrite (sub_from_before _ _ _ (match_at_block name)).
  - f_equal.
    pose proof (block_match_delimited _ _ old after Hp Hc) as Hm.
    rewrite (sub_from_match _ _ _ (match_at_block name)
               (block_match_len_bounds name) None _ _ Hm).
    f_equal. rewrite !app_assoc. rewrite <- (app_assoc _ old).
    rewrite skipn_exact. reflexivity.
  - intros i Hi. unfold block_match_len.
    rewrite no_start_before; auto.
    + symmetry. apply opening_tag_length, Hp.
    + unfold opening_tag. destruct (lit "# [" ++ package_name ++ lit "]") eqn:E;
        [discriminate E | discriminate].
Qed.

Lemma substitute_block_replaces_witness :
  exists after',
    re_sub Sample.foo_env (lit "foo") (Sample.foo_continued_block ++ [nl])
      [nl] = Some after'
    /\ re_sub Sample.foo_env (lit "foo")
         (Sample.foo_continued_block ++ [nl])
         (lit "set(x" ++ [nl] ++ opening_tag (lit "foo")
          ++ ([nl] ++ lit "old text" ++ [nl] ++ lit "  ")
          ++ closing_tag (lit "foo") ++ [nl])
       = Some (lit "set(x" ++ [nl] ++ Sample.foo_rewritten ++ after').
Proof.
  refine (substitute_block_replaces Sample.foo_env (lit "foo")
            (Sample.foo_continued_block ++ [nl])
            (literal (lit "foo")) Sample.foo_rewritten
            (lit "set(x" ++ [nl])
            ([nl] ++ lit "old text" ++ [nl] ++ lit "  ") [nl] _ _ _ _);
    vm_compute; reflexivity.
Defined.

(** X10: a text without the two delimiters of a package is left as it
    is.  For a package name whose only special pattern character is the
    dot and a replacement that the template processing of [re] takes
    without a group reference or an octal escape, when the pattern of
    the opening delimiter or that of the closing delimiter matches
    nowhere in the text, [re.sub] returns the text unchanged. *)
Theorem substitute_block_unmatched (env : Env)
  (package_name updated_line : str) (name : list charset)
  (file_text : str) :
  pasted package_name = Some name ->
  plain_template (block_template package_name updated_line) ->
  occurs (opening_items name) file_text = false
  \/ occurs (closing_items name) file_text = false ->
  re_sub env package_name updated_line file_text = Some file_text.
Proof.
  intros Hp He Ho. unfold plain_template in He.
  destruct (expand_template (block_template package_name updated_line))
    as [repl|] eqn:Er; [clear He | congruence].
  rewrite (re_sub_eq env _ _ _ _ file_text Hp Er). f_equal.
  rewrite <- (app_nil_r file_text) at 1.
  rewrite (sub_from_before _ _ _ (match_at_block name)).
  - apply app_nil_r.
  - intros i _. rewrite app_nil_r. unfold block_match_len.
    destruct Ho as [Ho | Ho].
    + rewrite (occurs_false _ _ i Ho). reflexivity.
    + destruct (pmatch (opening_items name) (skipn i file_text));
        [|reflexivity].
      destruct (find_first (closing_items name) _) as [j|] eqn:F;
        [|reflexivity].
      apply find_first_some in F as [F _].
      rewrite !skipn_skipn in F.
      rewrite (occurs_false _ _ _ Ho) in F. discriminate.
Qed.

Lemma substitute_block_unmatched_witness :
  re_sub Sample.foo_env (lit "foo") (Sample.foo_continued_block ++ [nl])
    (lit "# [foo]" ++ [nl] ++ lit "  foo==1.0" ++ [nl])
  = Some (lit "# [foo]" ++ [nl] ++ lit "  foo==1.0" ++ [nl]).
Proof.
  refine (substitute_block_unmatched Sample.foo_env (lit "foo")
            (Sample.foo_continued_block ++ [nl]) (literal (lit "foo"))
            (lit "# [foo]" ++ [nl] ++ lit "  foo==1.0" ++ [nl]) _ _ _).
  - vm_compute. reflexivity.
  - vm_compute. discriminate.
  - right. vm_compute. reflexivity.
Defined.

(** ** The generated text as a replacement template *)

Lemma expand_template_continuation (b : str) :
  expand_template (backslash :: nl :: b)
  = option_map (fun r => backslash :: nl :: r) (expand_template b).
Proof. reflexivity. Qed.

Lemma literal_plain (a b : str) :
  Forall (fun c => c <> backslash) a ->
  expand_template b = Some b ->
  expand_template (a ++ b) = Some (a ++ b).
Proof.
  intros Ha Hb. rewrite expand_template_plain, Hb by exact Ha. reflexivity.
Qed.

Lemma literal_continuation (b : str) :
  expand_template b = Some b ->
  expand_template (backslash :: nl :: b) = Some (backslash :: nl :: b).
Proof.
  intros Hb. rewrite expand_template_continuation, Hb. reflexivity.
Qed.

Lemma spaces_plain (n : nat) : Forall (fun c => c <> backslash) (spaces n).
Proof.
  unfold spaces. induction n; simpl; constructor; auto. discriminate.
Qed.

Lemma lit_plain (s : string) :
  forallb (fun c => negb (Ascii.eqb c backslash)) (lit s) = true ->
  Forall (fun c => c <> backslash) (lit s).
Proof.
  intros H. apply Forall_forall. intros c Hc.
  rewrite forallb_forall in H. specialize (H c Hc).
  apply negb_true_iff, Ascii.eqb_neq in H. exact H.
Qed.

Lemma literal_joined (joiner_tail tail : str) (hashes : list str) :
  Forall (fun c => c <> backslash) joiner_tail ->
  Forall (Forall (fun c => c <> backslash)) hashes ->
  expand_template tail = Some tail ->
  expand_template
    (join (lit " " ++ [backslash; nl] ++ joiner_tail) hashes ++ tail)
  = Some (join (lit " " ++ [backslash; nl] ++ joiner_tail) hashes ++ tail).
Proof.
  intros Hj Hh Ht. induction Hh as [|h hashes Hh _ IH]; [exact Ht|].
  destruct hashes as [|h2 hashes].
  - cbn [join]. apply literal_plain; assumption.
  - rewrite join_cons2. rewrite <- !app_assoc.
    apply literal_plain; [exact Hh|].
    apply literal_plain; [apply lit_plain; reflexivity|].
    cbn [app]. apply literal_continuation.
    apply literal_plain; [exact Hj|]. exact IH.
Qed.

Lemma literal_lines (lines : list str) (tail : str) :
  Forall (Forall (fun c => c <> backslash)) lines ->
  expand_template tail = Some tail ->
  expand_template (join [nl] lines ++ tail) = Some (join [nl] lines ++ tail).
Proof.
  intros Hl Ht. induction Hl as [|l lines Hl _ IH]; [exact Ht|].
  destruct lines as [|l2 lines].
  - cbn [join]. apply literal_plain; assumption.
  - rewrite join_cons2. rewrite <- !app_assoc.
    apply literal_plain; [exact Hl|].
    apply literal_plain; [repeat constructor; discriminate|]. exact IH.
Qed.

Lemma block_template_literal (cpython_tag package_name desired_version
  : str) (files : list ReleaseFile) :
  Forall (fun c => c <> backslash) package_name ->
  Forall (fun c => c <> backslash) desired_version ->
  Forall (fun release_file =>
            Forall (fun c => c <> backslash) (filename release_file)
            /\ Forall (fun c => c <> backslash) (sha256 release_file))
    files ->
  let updated_line :=
    generated_text cpython_tag package_name desired_version files ++ [nl] in
  expand_template (block_template package_name updated_line)
  = Some (block_template package_name updated_line).
Proof.
  intros Hn Hv Hf updated_line. unfold updated_line, block_template.
  rewrite generated_text_kept.
  set (kept := filter (keep_release_file cpython_tag) files).
  assert (Hk : Forall (fun release_file =>
                         Forall (fun c => c <> backslash)
                           (filename release_file)
                         /\ Forall (fun c => c <> backslash)
                              (sha256 release_file)) kept).
  { apply Forall_forall. intros rf Hrf. apply filter_In in Hrf as [Hrf _].
    rewrite Forall_forall in Hf. apply Hf, Hrf. }
  assert (Hfn : Forall (Forall (fun c => c <> backslash))
                  (map filename_line kept)).
  { apply Forall_map. revert Hk. apply Forall_impl. intros rf [H1 _].
    unfold filename_line. apply Forall_app. split; [apply spaces_plain|].
    apply Forall_app. split; [apply lit_plain; reflexivity | exact H1]. }
  assert (Hhs : Forall (Forall (fun c => c <> backslash))
                  (map hash_line kept)).
  { apply Forall_map. revert Hk. apply Forall_impl. intros rf [_ H2].
    unfold hash_line. apply Forall_app.
    split; [apply lit_plain; reflexivity | exact H2]. }
  assert (Htail : expand_template
                    ([nl] ++ spaces indentation ++ lit "# [/" ++ package_name
                     ++ lit "]")
                  = Some ([nl] ++ spaces indentation ++ lit "# [/"
                          ++ package_name ++ lit "]")).
  { rewrite <- (app_nil_r (lit "]")), !app_assoc.
    apply literal_plain; [|reflexivity].
    repeat (apply Forall_app; split); try exact Hn;
      try (apply lit_plain; reflexivity); try apply spaces_plain.
    repeat constructor; discriminate. }
  assert (Hall : expand_template
                   (all_hashes package_name desired_version
                      (map hash_line kept)
                    ++ [nl] ++ spaces indentation ++ lit "# [/"
                    ++ package_name ++ lit "]")
                 = Some (all_hashes package_name desired_version
                           (map hash_line kept)
                         ++ [nl] ++ spaces indentation ++ lit "# [/"
                         ++ package_name ++ lit "]")).
  { unfold all_hashes, hashes_joiner_text. rewrite <- !app_assoc.
    apply literal_plain.
    - unfold simple_package_version.
      repeat (apply Forall_app; split); auto;
        try (apply lit_plain; reflexivity); apply spaces_plain.
    - apply (literal_joined
               (spaces (length (simple_package_version package_name
                                  desired_version)))).
      + apply spaces_plain.
      + exact Hhs.
      + exact Htail. }
  rewrite (app_assoc (lit "# [")), (app_assoc _ (lit "]")),
    (app_assoc _ [nl]).
  apply literal_plain.
  { repeat (apply Forall_app; split); try exact Hn;
      try (apply lit_plain; reflexivity).
    repeat constructor; discriminate. }
  unfold block_text.
  destruct (1 <? length (map filename_line kept)).
  - rewrite <- !app_assoc.
    apply (literal_lines (_ :: map filename_line kept)).
    + constructor; [|exact Hfn].
      apply Forall_app. split; [apply spaces_plain|].
      apply lit_plain; reflexivity.
    + cbn [app]. change (nl :: ?x) with ([nl] ++ x).
      apply literal_plain; [repeat constructor; discriminate|].
      rewrite <- ?app_assoc in Hall. exact Hall.
  - rewrite <- ?app_assoc. rewrite <- ?app_assoc in Hall. exact Hall.
Qed.

(** X11: the text generated for a package is its own replacement: when
    neither the package name, the version nor the file names and digests
    of the release files hold a backslash, the template processing of
    [re.sub] leaves the replacement as it is built, the backslash at the
    end of each continued line included. *)
Theorem generated_block_literal (cpython_tag package_name desired_version
  : str) (files : list ReleaseFile) :
  Forall (fun c => c <> backslash) package_name ->
  Forall (fun c => c <> backslash) desired_version ->
  Forall (fun release_file =>
            Forall (fun c => c <> backslash) (filename release_file)
            /\ Forall (fun c => c <> backslash) (sha256 release_file))
    files ->
  let updated_line :=
    generated_text cpython_tag package_name desired_version files ++ [nl] in
  expand_template (block_template package_name updated_line)
  = Some (block_template package_name updated_line).
Proof.
  exact (block_template_literal cpython_tag package_name desired_version
           files).
Qed.

Lemma generated_block_literal_witness :
  let updated_line :=
    generated_text (lit "cp311") (lit "foo") (lit "2.0.0")
      [Sample.foo_win32; Sample.foo_any] ++ [nl] in
  expand_template (block_template (lit "foo") updated_line)
  = Some (block_template (lit "foo") updated_line).
Proof.
  refine (generated_block_literal (lit "cp311") (lit "foo") (lit "2.0.0")
            [Sample.foo_win32; Sample.foo_any] _ _ _);
    repeat constructor; vm_compute; discriminate.
Defined.

(** ** The comment header of a block *)

Lemma join_terminated (lines : list str) :
  lines <> [] -> join [nl] lines ++ [nl] = terminated lines.
Proof.
  unfold terminated. induction lines as [|l lines IH]; [congruence|].
  intros _. destruct lines as [|l2 lines].
  - simpl. rewrite app_nil_r. reflexivity.
  - rewrite join_cons2.
    change (concat (map (fun line => line ++ [nl]) (l :: l2 :: lines)))
      with ((l ++ [nl])
            ++ concat (map (fun line => line ++ [nl]) (l2 :: lines))).
    rewrite <- IH by discriminate.
    rewrite <- !app_assoc. reflexivity.
Qed.

(** X12: when two release files or more are kept, the block starts with
    the comment [  # Hashes correspond to the following packages:] and
    one line [  #  - <filename>] for each kept file, in the order of the
    index, each on a line of its own; the version and the hashes
    follow. *)
Theorem generated_text_header (cpython_tag package_name desired_version
  : str) (files : list ReleaseFile) :
  let kept := filter (keep_release_file cpython_tag) files in
  2 <= length kept ->
  generated_text cpython_tag package_name desired_version files
  = terminated (hashes_header :: map filename_line kept)
    ++ all_hashes package_name desired_version (map hash_line kept).
Proof.
  intros kept H. rewrite generated_text_kept. fold kept.
  unfold block_text. rewrite length_map.
  replace (1 <? length kept) with true
    by (symmetry; apply Nat.ltb_lt; lia).
  rewrite app_assoc. f_equal. apply join_terminated. discriminate.
Qed.

Lemma generated_text_header_witness :
  generated_text (lit "cp311") (lit "foo") (lit "2.0.0")
    [Sample.foo_any; Sample.foo_win32; Sample.foo_any]
  = terminated
      (hashes_header
       :: map filename_line
            (filter (keep_release_file (lit "cp311"))
               [Sample.foo_any; Sample.foo_win32; Sample.foo_any]))
    ++ all_hashes (lit "foo") (lit "2.0.0")
         (map hash_line
            (filter (keep_release_file (lit "cp311"))
               [Sample.foo_any; Sample.foo_win32; Sample.foo_any])).
Proof.
  refine (generated_text_header (lit "cp311") (lit "foo") (lit "2.0.0")
            [Sample.foo_any; Sample.foo_win32; Sample.foo_any] _).
  vm_compute. lia.
Defined.

(** ** Rewriting twice *)

Lemma occurs_nowhere (pat : list charset) (s : str) :
  (forall i, pmatch pat (skipn i s) = false) -> occurs pat s = false.
Proof.
  intros H. unfold occurs.
  destruct (find_first pat s) as [j|] eqn:F; [|reflexivity].
  apply find_first_some in F as [F _]. rewrite H in F. discriminate.
Qed.

Lemma pmatch_literal_inv (x : str) (pat : list charset) (s : str) :
  pmatch (literal x ++ pat) s = true -> exists t, s = x ++ t.
Proof.
  revert s. induction x as [|c x IH]; intros s; [exists s; reflexivity|].
  cbn [literal map app pmatch]. destruct s as [|d s]; [discriminate|].
  intros H. apply andb_true_iff in H as [Hc H]. cbn [cs_mem] in Hc.
  apply Ascii.eqb_eq in Hc. subst.
  destruct (IH _ H) as [t ->]. exists t. reflexivity.
Qed.

Lemma name_char_spec (c : ascii) :
  name_char c = true ->
  (Ascii.eqb c "." = false -> ismeta c = false)
  /\ c <> "/"%char /\ no_bracket c = true /\ c <> backslash.
Proof.
  destruct c as [[] [] [] [] [] [] [] []]; vm_compute; intros H;
    try discriminate H; repeat split;
    try (intros E; first [discriminate E | exact E]).
Qed.

Lemma block_char_spec (c : ascii) :
  block_char c = true -> no_bracket c = true /\ c <> backslash.
Proof.
  unfold block_char, no_bracket. intros H.
  apply andb_true_iff in H as [H1 H2]. split; [exact H1|].
  apply negb_true_iff, Ascii.eqb_neq in H2. exact H2.
Qed.

Lemma name_chars_pasted (s : str) :
  forallb name_char s = true -> exists name, pasted s = Some name.
Proof.
  induction s as [|c s IH]; [exists []; reflexivity|].
  cbn [forallb]. intros H. apply andb_true_iff in H as [Hc Hs].
  destruct (IH Hs) as [name Hn]. cbn [pasted]. rewrite Hn.
  destruct (Ascii.eqb c ".") eqn:Ed; [eexists; reflexivity|].
  destruct (name_char_spec c Hc) as [Hm _]. rewrite (Hm Ed).
  eexists; reflexivity.
Qed.

Lemma forallb_impl (f g : ascii -> bool) (s : str) :
  (forall c, f c = true -> g c = true) ->
  forallb f s = true -> forallb g s = true.
Proof.
  intros Hfg H. apply forallb_forall. intros c Hc.
  rewrite forallb_forall in H. apply Hfg, H, Hc.
Qed.

Lemma forallb_not_backslash (f : ascii -> bool) (s : str) :
  (forall c, f c = true -> c <> backslash) ->
  forallb f s = true -> Forall (fun c => c <> backslash) s.
Proof.
  intros Hf H. apply Forall_forall. intros c Hc.
  rewrite forallb_forall in H. apply Hf, H, Hc.
Qed.

Lemma forallb_join (f : ascii -> bool) (sep : str) (parts : list str) :
  forallb f sep = true ->
  forallb (forallb f) parts = true ->
  forallb f (join sep parts) = true.
Proof.
  intros Hs. induction parts as [|p parts IH]; [reflexivity|].
  cbn [forallb]. intros H. apply andb_true_iff in H as [Hp Hps].
  destruct parts as [|p2 parts]; [exact Hp|].
  rewrite join_cons2, !forallb_app, Hp, Hs. cbn [andb]. apply IH, Hps.
Qed.

Lemma spaces_no_bracket (n : nat) : forallb no_bracket (spaces n) = true.
Proof. unfold spaces. induction n; simpl; auto. Qed.

Lemma generated_text_no_bracket
  (cpython_tag package_name desired_version : str)
  (files : list ReleaseFile) :
  forallb no_bracket package_name = true ->
  forallb no_bracket desired_version = true ->
  forallb (fun release_file =>
             forallb no_bracket (filename release_file)
             && forallb no_bracket (sha256 release_file)) files = true ->
  forallb no_bracket
    (generated_text cpython_tag package_name desired_version files) = true.
Proof.
  intros Hn Hv Hf. rewrite generated_text_kept.
  set (kept := filter (keep_release_file cpython_tag) files).
  assert (Hk : forall rf, In rf kept ->
                          forallb no_bracket (filename rf) = true
                          /\ forallb no_bracket (sha256 rf) = true).
  { intros rf Hrf. apply filter_In in Hrf as [Hrf _].
    rewrite forallb_forall in Hf. apply andb_true_iff, Hf, Hrf. }
  assert (Hfn : forallb (forallb no_bracket) (map filename_line kept)
                = true).
  { apply forallb_forall. intros l Hl.
    apply in_map_iff in Hl as [rf [<- Hrf]]. unfold filename_line.
    rewrite !forallb_app, spaces_no_bracket.
    rewrite (proj1 (Hk rf Hrf)). reflexivity. }
  assert (Hhs : forallb (forallb no_bracket) (map hash_line kept) = true).
  { apply forallb_forall. intros l Hl.
    apply in_map_iff in Hl as [rf [<- Hrf]]. unfold hash_line.
    rewrite !forallb_app. rewrite (proj2 (Hk rf Hrf)). reflexivity. }
  assert (Hall : forallb no_bracket
                   (all_hashes package_name desired_version
                      (map hash_line kept)) = true).
  { unfold all_hashes, simple_package_version.
    rewrite !forallb_app, spaces_no_bracket, Hn, Hv. cbn [andb].
    replace (forallb no_bracket (lit "==")) with true by reflexivity.
    replace (forallb no_bracket (lit " ")) with true by reflexivity.
    cbn [andb]. apply forallb_join; [|exact Hhs].
    unfold hashes_joiner_text. rewrite !forallb_app, spaces_no_bracket.
    reflexivity. }
  unfold block_text. destruct (1 <? length (map filename_line kept)).
  - rewrite !forallb_app, Hall.
    rewrite (forallb_join no_bracket [nl] (_ :: map filename_line kept)).
    + reflexivity.
    + reflexivity.
    + cbn [forallb]. rewrite Hfn, forallb_app, spaces_no_bracket.
      reflexivity.
  - exact Hall.
Qed.

(** In the text of a replacement the closing delimiter comes once, at
    the end. *)
Lemma closing_once (package_name : str) (name : list charset) (x : str) :
  length name = length package_name ->
  forallb no_bracket x = true ->
  nth_error x 0 <> Some "/"%char ->
  occurs (closing_items name)
    (lit "# [" ++ x ++ lit "# [/" ++ package_name) = false.
Proof.
  intros Hlen Hx Hhd. apply occurs_nowhere. intros i.
  destruct (pmatch _ _) eqn:E; [exfalso | reflexivity].
  pose proof (pmatch_length _ _ E) as Hl.
  rewrite closing_items_length, length_skipn, !length_app in Hl.
  change (length (lit "# [")) with 3 in Hl.
  change (length (lit "# [/")) with 4 in Hl.
  unfold closing_items in E. apply pmatch_literal_inv in E as [t Et].
  assert (H2 : nth_error (lit "# [" ++ x ++ lit "# [/" ++ package_name)
                 (i + 2) = Some "["%char).
  { rewrite <- nth_error_skipn, Et. reflexivity. }
  assert (H3 : nth_error (lit "# [" ++ x ++ lit "# [/" ++ package_name)
                 (i + 3) = Some "/"%char).
  { rewrite <- nth_error_skipn, Et. reflexivity. }
  clear Et. destruct i as [|i].
  - change (nth_error (x ++ lit "# [/" ++ package_name) 0
            = Some "/"%char) in H3.
    destruct x as [|c x]; [discriminate H3|]. apply Hhd. exact H3.
  - rewrite nth_error_app2 in H2
      by (change (length (lit "# [")) with 3; lia).
    change (length (lit "# [")) with 3 in H2.
    destruct (lt_dec (S i + 2 - 3) (length x)) as [L | L].
    + rewrite nth_error_app1 in H2 by exact L.
      apply nth_error_In in H2. rewrite forallb_forall in Hx.
      specialize (Hx _ H2). discriminate Hx.
    + rewrite nth_error_app2 in H2 by lia.
      destruct (S i + 2 - 3 - length x) as [|[|k]] eqn:Ek;
        [discriminate H2 | discriminate H2 | lia].
Qed.

(** C8: the substitution is idempotent.  For every file and every block
    generated for a package, rewriting the file with the block and
    rewriting the result again with the same block give the same text.
    The block is the one made from what the index and [pip] deliver: a
    name of letters, digits, dots, hyphens and underscores, and a
    version, file names and digests without an opening bracket and a
    backslash, as versions, the names of wheels and hex digests are. *)
Theorem generated_block_idempotent (env : Env)
  (cpython_tag package_name desired_version : str)
  (files : list ReleaseFile) (file_text : str) :
  forallb name_char package_name = true ->
  forallb block_char desired_version = true ->
  forallb (fun release_file =>
             forallb block_char (filename release_file)
             && forallb block_char (sha256 release_file)) files = true ->
  let updated_line :=
    generated_text cpython_tag package_name desired_version files ++ [nl] in
  exists t,
    re_sub env package_name updated_line file_text = Some t
    /\ re_sub env package_name updated_line t = Some t.
Proof.
  intros Hn Hv Hf updated_line.
  destruct (name_chars_pasted _ Hn) as [name Hp].
  assert (Hnb : forallb no_bracket package_name = true).
  { revert Hn. apply forallb_impl. intros c Hc.
    apply (name_char_spec c Hc). }
  assert (Hfiles : forall rf, In rf files ->
                     forallb block_char (filename rf) = true
                     /\ forallb block_char (sha256 rf) = true).
  { intros rf Hrf. rewrite forallb_forall in Hf.
    apply andb_true_iff, Hf, Hrf. }
  assert (He : expand_template (block_template package_name updated_line)
               = Some (block_template package_name updated_line)).
  { apply block_template_literal.
    - revert Hn. apply forallb_not_backslash. intros c Hc.
      apply (name_char_spec c Hc).
    - revert Hv. apply forallb_not_backslash. intros c Hc.
      apply (block_char_spec c Hc).
    - apply Forall_forall. intros rf Hrf.
      destruct (Hfiles rf Hrf) as [H1 H2]. split.
      + revert H1. apply forallb_not_backslash. intros c Hc.
        apply (block_char_spec c Hc).
      + revert H2. apply forallb_not_backslash. intros c Hc.
        apply (block_char_spec c Hc). }
  assert (Hc : block_closed_once package_name updated_line = true).
  { unfold block_closed_once. rewrite Hp, He. apply negb_true_iff.
    set (x := package_name ++ lit "]" ++ [nl] ++ updated_line
              ++ spaces indentation).
    assert (E : block_template package_name updated_line
                = (lit "# [" ++ x ++ lit "# [/" ++ package_name)
                  ++ ["]"%char]).
    { unfold block_template, x. rewrite <- !app_assoc. reflexivity. }
    rewrite E, removelast_last.
    apply closing_once.
    - apply (pasted_spec _ _ Hp).
    - unfold x, updated_line.
      rewrite !forallb_app, Hnb, spaces_no_bracket.
      rewrite generated_text_no_bracket; [reflexivity | exact Hnb | |].
      + revert Hv. apply forallb_impl. intros c Hc.
        apply (block_char_spec c Hc).
      + apply forallb_forall. intros rf Hrf.
        destruct (Hfiles rf Hrf) as [H1 H2]. apply andb_true_iff. split.
        * revert H1. apply forallb_impl. intros c Hc.
          apply (block_char_spec c Hc).
        * revert H2. apply forallb_impl. intros c Hc.
          apply (block_char_spec c Hc).
    - unfold x. destruct package_name as [|c pn]; [discriminate|].
      cbn [app nth_error]. intros [= ->].
      cbn [forallb] in Hn. apply andb_true_iff in Hn as [Hn _].
      discriminate Hn. }
  destruct (closed_block_idempotent package_name updated_line file_text Hc)
    as [t [H1 H2]].
  exists t. split; apply re_sub_modelled; assumption.
Qed.

Lemma generated_block_idempotent_witness :
  let updated_line :=
    generated_text (lit "cp311") (lit "foo") (lit "2.0.0")
      [Sample.foo_win32; Sample.foo_any] ++ [nl] in
  exists t,
    re_sub Sample.foo_env (lit "foo") updated_line Sample.foo_file = Some t
    /\ re_sub Sample.foo_env (lit "foo") updated_line t = Some t.
Proof.
  refine (generated_block_idempotent Sample.foo_env (lit "cp311")
            (lit "foo") (lit "2.0.0") [Sample.foo_win32; Sample.foo_any]
            Sample.foo_file _ _ _); reflexivity.
Defined.

(** ** The second loop *)

Lemma write_file_run (filepath file_text : str) (w : World) :
  write_file filepath file_text w
  = Some (tt, MkWorld (dict_set (disk w) filepath file_text)
                (log w ++ [EvWrite filepath file_text])).
Proof. reflexivity. Qed.

Lemma dict_set_set (V : Type) (d : dict V) (k : str) (v v' : V) :
  dict_set (dict_set d k v) k v' = dict_set d k v'.
Proof.
  induction d as [|[k0 v0] d IH]; cbn [dict_set].
  - rewrite str_eqb_refl. reflexivity.
  - destruct (str_eqb k k0) eqn:E; cbn [dict_set]; rewrite E;
      [reflexivity | rewrite IH; reflexivity].
Qed.

Lemma keys_set_present (V : Type) (d : dict V) (k : str) (v : V) :
  In k (keys d) -> keys (dict_set d k v) = keys d.
Proof.
  intros H. rewrite keys_set. apply mem_spec in H. rewrite H. reflexivity.
Qed.

Lemma accesses_app (a b : list Event) :
  accesses (a ++ b) = accesses a ++ accesses b.
Proof. apply flat_map_app. Qed.

Lemma accesses_gets (names : list str) : accesses (map EvGet names) = [].
Proof. induction names; simpl; auto. Qed.

(** What the inner loop does to one file. *)
Lemma rewrite_file_spec (env : Env) (filepath : str)
  (lines_to_write : list (str * str)) (file_text : str) (w w' : World)
  (u : unit) :
  rewrite_file env filepath lines_to_write file_text w = Some (u, w') ->
  exists t events,
    substitute_all env lines_to_write file_text = Some t
    /\ disk w' = match lines_to_write with
                 | [] => disk w
                 | _ => dict_set (disk w) filepath t
                 end
    /\ log w' = log w ++ events
    /\ accesses events = repeat (true, filepath) (length lines_to_write).
Proof.
  revert file_text w.
  induction lines_to_write as [|[package_name updated_line] lines IH];
    intros file_text w.
  - cbn [rewrite_file]. intros [= <- <-]. exists file_text, [].
    rewrite app_nil_r. auto.
  - cbn [rewrite_file substitute_all]. unfold bind.
    destruct (re_sub env package_name updated_line file_text)
      as [t1|]; [|discriminate].
    cbn [lift ret]. rewrite write_file_run. intros H.
    apply IH in H as [t [events [Hs [Hd [Hl Ha]]]]].
    cbn [disk log] in *.
    exists t, (EvWrite filepath t1 :: events). repeat split.
    + exact Hs.
    + rewrite Hd. destruct lines; [|apply dict_set_set].
      cbn [substitute_all] in Hs. congruence.
    + rewrite Hl, <- app_assoc. reflexivity.
    + cbn [accesses flat_map app length repeat]. f_equal. exact Ha.
Qed.

Lemma rewrite_files_spec (env : Env) (filepaths : list str)
  (lines_to_write : dict str) (w w' : World) (u : unit) :
  rewrite_files env filepaths lines_to_write w = Some (u, w') ->
  keys (disk w') = keys (disk w)
  /\ (exists events,
        log w' = log w ++ events
        /\ accesses events
           = flat_map
               (fun filepath =>
                  (false, filepath)
                  :: repeat (true, filepath) (length lines_to_write))
               filepaths)
  /\ (NoDup filepaths ->
      forall filepath file_text,
        dict_get (disk w) filepath = Some file_text ->
        (In filepath filepaths ->
         exists t,
           substitute_all env lines_to_write file_text = Some t
           /\ dict_get (disk w') filepath = Some t)
        /\ (~ In filepath filepaths ->
            dict_get (disk w') filepath = Some file_text)).
Proof.
  revert w. induction filepaths as [|p filepaths IH]; intros w.
  - cbn [rewrite_files]. intros [= <- <-]. split; [reflexivity|]. split.
    + exists []. rewrite app_nil_r. auto.
    + intros _ filepath file_text Hget. split; [intros []|auto].
  - cbn [rewrite_files]. unfold bind. rewrite read_file_run.
    destruct (dict_get (disk w) p) as [text|] eqn:Ep; [|discriminate].
    destruct (rewrite_file env p lines_to_write text _) as [[u1 w1]|] eqn:Er;
      [|discriminate].
    apply rewrite_file_spec in Er as [t [events [Hs [Hd [Hl Ha]]]]].
    cbn [disk log] in *.
    intros H. apply IH in H as [Hk [[events' [Hl' Ha']] Hc]].
    assert (Hin : In p (keys (disk w))) by (apply dict_get_in; congruence).
    assert (Hk1 : keys (disk w1) = keys (disk w)).
    { rewrite Hd. destruct lines_to_write; [reflexivity|].
      apply keys_set_present, Hin. }
    split; [congruence|]. split.
    + exists (EvRead p :: events ++ events'). split.
      * rewrite Hl', Hl, <- !app_assoc. reflexivity.
      * change (EvRead p :: events ++ events')
          with ([EvRead p] ++ events ++ events').
        rewrite !accesses_app, Ha, Ha'. reflexivity.
    + intros Hnd filepath file_text Hget.
      inversion Hnd as [|? ? Hp Hnd']; subst.
      assert (Hget1 : filepath <> p ->
                      dict_get (disk w1) filepath = Some file_text).
      { intros Hne. rewrite Hd. destruct lines_to_write; [exact Hget|].
        rewrite dict_get_set. apply str_eqb_neq in Hne. rewrite Hne.
        exact Hget. }
      assert (Hgetp : dict_get (disk w1) p = Some t).
      { rewrite Hd. destruct lines_to_write.
        - cbn [substitute_all] in Hs. congruence.
        - rewrite dict_get_set, str_eqb_refl. reflexivity. }
      split.
      * intros [<- | Hin'].
        -- exists t. split; [congruence|].
           apply (Hc Hnd' p t Hgetp). exact Hp.
        -- assert (Hne : filepath <> p) by (intros ->; contradiction).
           apply (Hc Hnd' filepath file_text (Hget1 Hne)). exact Hin'.
      * intros Hnin.
        assert (Hne : filepath <> p).
        { intros ->. apply Hnin. left; reflexivity. }
        apply (Hc Hnd' filepath file_text (Hget1 Hne)).
        intros Hin'. apply Hnin. right; exact Hin'.
Qed.

Lemma update_inv (env : Env) (packages : dict Versions)
  (directory cpython_tag : str) (w w' : World) (u : unit) :
  update_external_project_python_packages env packages directory
    cpython_tag w = Some (u, w') ->
  exists lines_to_write w1,
    generate_blocks env cpython_tag packages [] w
    = Some (lines_to_write, w1)
    /\ disk w1 = disk w
    /\ log w1
       = log w ++ map EvGet (map fst (filter not_skipped packages))
    /\ rewrite_files env (keys (disk w)) lines_to_write w1 = Some (u, w').
Proof.
  unfold update_external_project_python_packages, bind,
    external_project_filepaths.
  destruct (generate_blocks env cpython_tag packages [] w)
    as [[lines_to_write w1]|] eqn:G; [|discriminate].
  destruct (generate_blocks_spec _ _ _ _ _ _ _ G) as [Hd [Hl _]].
  rewrite Hd. intros H. exists lines_to_write, w1. auto.
Qed.

(** X13: where a run of the update ends.  In a tree of distinct paths,
    whenever the update returns, every file holds the text it had before
    with the [re.sub] of every generated block applied to it, one after
    the other in the order in which the blocks were generated. *)
Theorem update_end_state (env : Env) (packages : dict Versions)
  (directory cpython_tag : str) (w w' : World) :
  NoDup (keys (disk w)) ->
  update_external_project_python_packages env packages directory
    cpython_tag w = Some (tt, w') ->
  exists lines_to_write w1,
    generate_blocks env cpython_tag packages [] w
    = Some (lines_to_write, w1)
    /\ forall filepath file_text,
         dict_get (disk w) filepath = Some file_text ->
         exists t,
           substitute_all env lines_to_write file_text = Some t
           /\ dict_get (disk w') filepath = Some t.
Proof.
  intros Hnd H.
  apply update_inv in H as [lines_to_write [w1 [G [Hd [_ H]]]]].
  exists lines_to_write, w1. split; [exact G|].
  intros filepath file_text Hget.
  apply rewrite_files_spec in H as [_ [_ Hc]].
  rewrite Hd in Hc. apply (Hc Hnd filepath file_text Hget).
  apply dict_get_in. congruence.
Qed.

Lemma update_end_state_witness :
  exists lines_to_write w1,
    generate_blocks Sample.foo_env (lit "cp311") Sample.nested_packages []
      Sample.nested_world
    = Some (lines_to_write, w1)
    /\ forall filepath file_text,
         dict_get (disk Sample.nested_world) filepath = Some file_text ->
         exists t,
           substitute_all Sample.foo_env lines_to_write file_text = Some t
           /\ dict_get
                [(lit "SuperBuild/External_python-foo.cmake",
                  lit "# [foo]" ++ [nl]
                  ++ lit "  foo==2.0.0 --hash=sha256:deadbeef" ++ [nl]
                  ++ lit "  # [/foo]" ++ [nl])]
                filepath = Some t.
Proof.
  refine (update_end_state Sample.foo_env Sample.nested_packages
            (lit "SuperBuild") (lit "cp311") Sample.nested_world
            (MkWorld
               [(lit "SuperBuild/External_python-foo.cmake",
                 lit "# [foo]" ++ [nl]
                 ++ lit "  foo==2.0.0 --hash=sha256:deadbeef" ++ [nl]
                 ++ lit "  # [/foo]" ++ [nl])]
               _) _ _).
  - repeat constructor; vm_compute; intuition discriminate.
  - vm_compute. reflexivity.
Defined.

(** X14: the update neither adds nor removes a file: whenever it
    returns, the tree has the paths it had before, in the same order. *)
Theorem update_keeps_paths (env : Env) (packages : dict Versions)
  (directory cpython_tag : str) (w w' : World) :
  update_external_project_python_packages env packages directory
    cpython_tag w = Some (tt, w') ->
  keys (disk w') = keys (disk w).
Proof.
  intros H. apply update_inv in H as [lines_to_write [w1 [_ [Hd [_ H]]]]].
  apply rewrite_files_spec in H as [Hk _]. congruence.
Qed.

Lemma update_keeps_paths_witness :
  keys [(lit "SuperBuild/External_python-foo.cmake",
         lit "# [foo]" ++ [nl]
         ++ lit "  foo==2.0.0 --hash=sha256:deadbeef" ++ [nl]
         ++ lit "  # [/foo]" ++ [nl])]
  = keys (disk Sample.nested_world).
Proof.
  refine (update_keeps_paths Sample.foo_env Sample.nested_packages
            (lit "SuperBuild") (lit "cp311") Sample.nested_world
            (MkWorld
               [(lit "SuperBuild/External_python-foo.cmake",
                 lit "# [foo]" ++ [nl]
                 ++ lit "  foo==2.0.0 --hash=sha256:deadbeef" ++ [nl]
                 ++ lit "  # [/foo]" ++ [nl])]
               _) _).
  vm_compute. reflexivity.
Defined.

(** X15: whenever the update returns, it has read every file of the
    tree once, in the order of the walk, and written it once for every
    generated block, whether or not the block changes it; when no block
    is generated, nothing is written. *)
Theorem update_accesses (env : Env) (packages : dict Versions)
  (directory cpython_tag : str) (w w' : World) :
  update_external_project_python_packages env packages directory
    cpython_tag w = Some (tt, w') ->
  exists lines_to_write w1,
    generate_blocks env cpython_tag packages [] w
    = Some (lines_to_write, w1)
    /\ accesses (log w')
       = accesses (log w)
         ++ flat_map
              (fun filepath =>
                 (false, filepath)
                 :: repeat (true, filepath) (length lines_to_write))
              (keys (disk w)).
Proof.
  intros H. apply update_inv in H as [lines_to_write [w1 [G [Hd [Hl H]]]]].
  exists lines_to_write, w1. split; [exact G|].
  apply rewrite_files_spec in H as [_ [[events [Hl' Ha]] _]].
  rewrite Hl', Hl, !accesses_app, accesses_gets, Ha, app_nil_r.
  reflexivity.
Qed.

Lemma update_accesses_witness :
  exists lines_to_write w1,
    generate_blocks Sample.foo_env (lit "cp311") Sample.nested_packages []
      Sample.nested_world
    = Some (lines_to_write, w1)
    /\ accesses
         [EvGet (lit "foo");
          EvRead (lit "SuperBuild/External_python-foo.cmake");
          EvWrite (lit "SuperBuild/External_python-foo.cmake")
            (lit "# [foo]" ++ [nl]
             ++ lit "  foo==2.0.0 --hash=sha256:deadbeef" ++ [nl]
             ++ lit "  # [/foo]" ++ [nl])]
       = accesses (log Sample.nested_world)
         ++ flat_map
              (fun filepath =>
                 (false, filepath)
                 :: repeat (true, filepath) (length lines_to_write))
              (keys (disk Sample.nested_world)).
Proof.
  refine (update_accesses Sample.foo_env Sample.nested_packages
            (lit "SuperBuild") (lit "cp311") Sample.nested_world
            (MkWorld _ _) _).
  vm_compute. reflexivity.
Defined.

(** ** The blocks of the first loop *)

Lemma in_keys (V : Type) (d : dict V) (k : str) (v : V) :
  In (k, v) d -> In k (keys d).
Proof. intros H. apply in_map_iff. exists (k, v). auto. Qed.

Lemma generate_blocks_step (env : Env) (cpython_tag package_name : str)
  (versions : Versions) (packages : list (str * Versions))
  (lines_to_write : dict str) (w : World) :
  skipped package_name = false ->
  generate_blocks env cpython_tag ((package_name, versions) :: packages)
    lines_to_write w
  = match pypi_releases env package_name with
    | None => None
    | Some releases =>
        generate_blocks env cpython_tag packages
          match kept_files env cpython_tag releases versions with
          | [] => lines_to_write
          | _ :: _ =>
              dict_set lines_to_write package_name
                (block_text package_name
                   (desired_version_of env cpython_tag versions)
                   (map filename_line
                      (kept_files env cpython_tag releases versions))
                   (map hash_line
                      (kept_files env cpython_tag releases versions))
                 ++ [nl])
          end
          (MkWorld (disk w) (log w ++ [EvGet package_name]))
    end.
Proof.
  unfold skipped. intros Es. cbn [generate_blocks]. rewrite Es.
  unfold bind. rewrite get_releases_run.
  destruct (pypi_releases env package_name) as [releases|]; [|reflexivity].
  rewrite select_files_filter. cbn [app]. unfold kept_files.
  destruct (filter _ _) as [|rf kept]; reflexivity.
Qed.

Lemma generate_blocks_skip (env : Env) (cpython_tag package_name : str)
  (versions : Versions) (packages : list (str * Versions))
  (lines_to_write : dict str) (w : World) :
  skipped package_name = true ->
  generate_blocks env cpython_tag ((package_name, versions) :: packages)
    lines_to_write w
  = generate_blocks env cpython_tag packages lines_to_write w.
Proof.
  unfold skipped. intros Es. cbn [generate_blocks]. rewrite Es. reflexivity.
Qed.

Lemma generate_blocks_entries (env : Env) (cpython_tag : str)
  (packages : list (str * Versions)) (lines_to_write r : dict str)
  (w w' : World) :
  NoDup (keys packages) ->
  generate_blocks env cpython_tag packages lines_to_write w = Some (r, w') ->
  (forall package_name,
     ~ In package_name (keys packages) ->
     dict_get r package_name = dict_get lines_to_write package_name)
  /\ (forall package_name versions,
        In (package_name, versions) packages ->
        if skipped package_name
        then dict_get r package_name = dict_get lines_to_write package_name
        else
          exists releases,
            pypi_releases env package_name = Some releases
            /\ dict_get r package_name
               = match kept_files env cpython_tag releases versions with
                 | [] => dict_get lines_to_write package_name
                 | _ :: _ =>
                     Some (block_text package_name
                             (desired_version_of env cpython_tag versions)
                             (map filename_line
                                (kept_files env cpython_tag releases
                                   versions))
                             (map hash_line
                                (kept_files env cpython_tag releases
                                   versions))
                           ++ [nl])
                 end).
Proof.
  revert lines_to_write w.
  induction packages as [|[p v] packages IH]; intros lines_to_write w Hnd.
  - cbn [generate_blocks ret]. intros [= <- <-].
    split; [reflexivity | intros ? ? []].
  - cbn [keys map fst] in Hnd. inversion Hnd as [|? ? Hp Hnd']; subst.
    fold (keys packages) in Hp, Hnd'.
    destruct (skipped p) eqn:Es.
    + rewrite generate_blocks_skip by exact Es. intros H.
      apply IH in H as [HA HB]; [|exact Hnd']. split.
      * intros name Hn. apply HA. intros Hin. apply Hn. right; exact Hin.
      * intros name versions [[= <- <-] | Hin].
        -- rewrite Es. apply HA, Hp.
        -- apply HB, Hin.
    + rewrite generate_blocks_step by exact Es.
      destruct (pypi_releases env p) as [releases|] eqn:Er; [|discriminate].
      intros H. apply IH in H as [HA HB]; [|exact Hnd'].
      assert (Hother : forall name,
                name <> p ->
                dict_get
                  match kept_files env cpython_tag releases v with
                  | [] => lines_to_write
                  | _ :: _ =>
                      dict_set lines_to_write p
                        (block_text p
                           (desired_version_of env cpython_tag v)
                           (map filename_line
                              (kept_files env cpython_tag releases v))
                           (map hash_line
                              (kept_files env cpython_tag releases v))
                         ++ [nl])
                  end name
                = dict_get lines_to_write name).
      { intros name Hne.
        destruct (kept_files env cpython_tag releases v); [reflexivity|].
        rewrite dict_get_set. apply str_eqb_neq in Hne. rewrite Hne.
        reflexivity. }
      split.
      * intros name Hn. rewrite HA.
        -- apply Hother. intros ->. apply Hn. left; reflexivity.
        -- intros Hin. apply Hn. right; exact Hin.
      * intros name versions [[= <- <-] | Hin].
        -- rewrite Es. exists releases. split; [exact Er|].
           rewrite (HA p Hp).
           destruct (kept_files env cpython_tag releases v) eqn:Ek;
             [reflexivity|].
           rewrite dict_get_set, str_eqb_refl. reflexivity.
        -- assert (Hne : name <> p).
           { intros ->. apply Hp. apply (in_keys _ _ _ _ Hin). }
           specialize (HB name versions Hin).
           destruct (skipped name); [rewrite HB; apply Hother, Hne|].
           destruct HB as [releases' [Er' HB]]. exists releases'.
           split; [exact Er'|]. rewrite HB.
           destruct (kept_files env cpython_tag releases' versions);
             [apply Hother, Hne | reflexivity].
Qed.

(** X16: the blocks of the first loop.  For a mapping from distinct
    names, when the loop ends, a block is produced exactly for the
    packages of the mapping that are not skipped and have at least one
    kept release file of the desired version; the block is the generated
    text of these files followed by a newline.  A package without a kept
    file, a skipped one and a name outside the mapping get no block. *)
Theorem generated_blocks_of_packages (env : Env) (cpython_tag : str)
  (packages : dict Versions) (lines_to_write : dict str) (w w' : World) :
  NoDup (keys packages) ->
  generate_blocks env cpython_tag packages [] w
  = Some (lines_to_write, w') ->
  (forall package_name,
     ~ In package_name (keys packages) ->
     dict_get lines_to_write package_name = None)
  /\ (forall package_name versions,
        In (package_name, versions) packages ->
        if skipped package_name
        then dict_get lines_to_write package_name = None
        else
          exists releases,
            pypi_releases env package_name = Some releases
            /\ dict_get lines_to_write package_name
               = match kept_files env cpython_tag releases versions with
                 | [] => None
                 | _ :: _ =>
                     Some (block_text package_name
                             (desired_version_of env cpython_tag versions)
                             (map filename_line
                                (kept_files env cpython_tag releases
                                   versions))
                             (map hash_line
                                (kept_files env cpython_tag releases
                                   versions))
                           ++ [nl])
                 end).
Proof.
  intros Hnd H. apply (generate_blocks_entries _ _ _ _ _ _ _ Hnd H).
Qed.

Lemma generated_blocks_of_packages_witness :
  dict_get [(lit "foo", lit "  foo==2.0.0 --hash=sha256:deadbeef" ++ [nl])]
    (lit "bar") = None.
Proof.
  refine (proj1 (generated_blocks_of_packages Sample.foo_env (lit "cp311")
                   Sample.nested_packages
                   [(lit "foo",
                     lit "  foo==2.0.0 --hash=sha256:deadbeef" ++ [nl])]
                   Sample.nested_world
                   (MkWorld (disk Sample.nested_world) [EvGet (lit "foo")])
                   _ _) (lit "bar") _).
  - repeat constructor; vm_compute; intuition discriminate.
  - vm_compute. reflexivity.
  - vm_compute. intuition discriminate.
Defined.

Lemma generate_blocks_failure (env : Env) (cpython_tag : str)
  (packages : list (str * Versions)) (package_name : str)
  (versions : Versions) (lines_to_write : dict str) (w : World) :
  In (package_name, versions) packages ->
  skipped package_name = false ->
  pypi_releases env package_name = None ->
  generate_blocks env cpython_tag packages lines_to_write w = None.
Proof.
  intros Hin Es Er. revert lines_to_write w.
  induction packages as [|[p v] packages IH]; intros lines_to_write w;
    [destruct Hin|].
  destruct Hin as [[= -> ->] | Hin].
  - rewrite generate_blocks_step by exact Es. rewrite Er. reflexivity.
  - destruct (skipped p) eqn:Esp.
    + rewrite generate_blocks_skip by exact Esp. apply IH, Hin.
    + rewrite generate_blocks_step by exact Esp.
      destruct (pypi_releases env p); [apply IH, Hin | reflexivity].
Qed.

(** X17: a package the index does not answer for makes the update
    raise.  When the mapping has a package that is not skipped and the
    request for its releases fails, the first loop raises and so does the
    update, whatever the other packages, their place in the mapping and
    the files are. *)
Theorem update_index_failure (env : Env) (packages : dict Versions)
  (directory cpython_tag package_name : str) (versions : Versions)
  (w : World) :
  In (package_name, versions) packages ->
  skipped package_name = false ->
  pypi_releases env package_name = None ->
  generate_blocks env cpython_tag packages [] w = None
  /\ update_external_project_python_packages env packages directory
       cpython_tag w = None.
Proof.
  intros Hin Es Er.
  pose proof (generate_blocks_failure env cpython_tag packages package_name
                versions [] w Hin Es Er) as G.
  split; [exact G|].
  unfold update_external_project_python_packages, bind. rewrite G.
  reflexivity.
Qed.

Lemma update_index_failure_witness :
  let env :=
    MkEnv (lit "cp311") Sample.nopip
      (fun package_name =>
         if str_eqb package_name (lit "foo")
         then Sample.foo_index package_name
         else None)
      (lit "SuperBuild") Sample.no_other in
  generate_blocks env (lit "cp311")
    [(lit "foo", (lit "1.0.0", lit "2.0.0"));
     (lit "bar", (lit "1.0", lit "1.1"))] [] Sample.nested_world = None
  /\ update_external_project_python_packages env
       [(lit "foo", (lit "1.0.0", lit "2.0.0"));
        (lit "bar", (lit "1.0", lit "1.1"))]
       (lit "SuperBuild") (lit "cp311") Sample.nested_world = None.
Proof.
  intros env.
  refine (update_index_failure env
            [(lit "foo", (lit "1.0.0", lit "2.0.0"));
             (lit "bar", (lit "1.0", lit "1.1"))]
            (lit "SuperBuild") (lit "cp311") (lit "bar")
            (lit "1.0", lit "1.1") Sample.nested_world _ _ _).
  - right; left; reflexivity.
  - vm_compute. reflexivity.
  - vm_compute. reflexivity.
Defined.

(** ** The order of the requests and the file accesses *)

Lemma rewrite_file_events (env : Env) (filepath : str)
  (lines_to_write : list (str * str)) (file_text : str) (w w' : World)
  (u : unit) :
  rewrite_file env filepath lines_to_write file_text w = Some (u, w') ->
  exists events,
    log w' = log w ++ events /\ forallb file_access events = true.
Proof.
  revert file_text w.
  induction lines_to_write as [|[package_name updated_line] lines IH];
    intros file_text w.
  - cbn [rewrite_file]. intros [= <- <-]. exists [].
    rewrite app_nil_r. auto.
  - cbn [rewrite_file]. unfold bind.
    destruct (re_sub env package_name updated_line file_text)
      as [t1|]; [|discriminate].
    cbn [lift ret]. rewrite write_file_run. intros H.
    apply IH in H as [events [Hl Ha]]. cbn [log] in Hl.
    exists (EvWrite filepath t1 :: events). split.
    + rewrite Hl, <- app_assoc. reflexivity.
    + exact Ha.
Qed.

Lemma rewrite_files_events (env : Env) (filepaths : list str)
  (lines_to_write : dict str) (w w' : World) (u : unit) :
  rewrite_files env filepaths lines_to_write w = Some (u, w') ->
  exists events,
    log w' = log w ++ events /\ forallb file_access events = true.
Proof.
  revert w. induction filepaths as [|p filepaths IH]; intros w.
  - cbn [rewrite_files]. intros [= <- <-]. exists [].
    rewrite app_nil_r. auto.
  - cbn [rewrite_files]. unfold bind. rewrite read_file_run.
    destruct (dict_get (disk w) p) as [text|]; [|discriminate].
    destruct (rewrite_file env p lines_to_write text _) as [[u1 w1]|] eqn:Er;
      [|discriminate].
    apply rewrite_file_events in Er as [events [Hl Ha]]. cbn [log] in Hl.
    intros H. apply IH in H as [events' [Hl' Ha']].
    exists (EvRead p :: events ++ events'). split.
    + rewrite Hl', Hl, <- !app_assoc. reflexivity.
    + cbn [forallb file_access andb]. rewrite forallb_app, Ha, Ha'.
      reflexivity.
Qed.

(** X21: the index is asked first.  Whenever the update returns, the log
    has grown by one request for every package of the mapping that is
    not skipped, in the order of the mapping, and behind them by reads
    and writes of files only: every request to the index is made before
    the first file is opened. *)
Theorem update_requests_first (env : Env) (packages : dict Versions)
  (directory cpython_tag : str) (w w' : World) :
  update_external_project_python_packages env packages directory
    cpython_tag w = Some (tt, w') ->
  exists events,
    log w'
    = log w ++ map EvGet (map fst (filter not_skipped packages)) ++ events
    /\ forallb file_access events = true.
Proof.
  intros H. apply update_inv in H as [lines_to_write [w1 [_ [_ [Hl H]]]]].
  apply rewrite_files_events in H as [events [Hl' Ha]].
  exists events. split; [|exact Ha].
  rewrite Hl', Hl, <- app_assoc. reflexivity.
Qed.

Lemma update_requests_first_witness :
  exists events,
    [EvGet (lit "foo");
     EvRead (lit "SuperBuild/External_python-foo.cmake");
     EvWrite (lit "SuperBuild/External_python-foo.cmake")
       (lit "# [foo]" ++ [nl]
        ++ lit "  foo==2.0.0 --hash=sha256:deadbeef" ++ [nl]
        ++ lit "  # [/foo]" ++ [nl])]
    = log Sample.nested_world
      ++ map EvGet (map fst (filter not_skipped Sample.nested_packages))
      ++ events
    /\ forallb file_access events = true.
Proof.
  refine (update_requests_first Sample.foo_env Sample.nested_packages
            (lit "SuperBuild") (lit "cp311") Sample.nested_world
            (MkWorld _ _) _).
  vm_compute. reflexivity.
Defined.

(** ** Files without a delimiter of an updated package *)

Lemma substitute_all_no_opening (env : Env)
  (lines_to_write : list (str * str)) (file_text : str) :
  (forall package_name updated_line,
     In (package_name, updated_line) lines_to_write ->
     plain_template (block_template package_name updated_line)
     /\ exists name,
          pasted package_name = Some name
          /\ occurs (opening_items name) file_text = false) ->
  substitute_all env lines_to_write file_text = Some file_text.
Proof.
  induction lines_to_write as [|[package_name updated_line] lines IH];
    intros Hall; cbn [substitute_all]; [reflexivity|].
  destruct (Hall package_name updated_line (or_introl eq_refl))
    as [He [name [Hp Ho]]].
  unfold plain_template in He.
  destruct (expand_template (block_template package_name updated_line))
    as [repl|] eqn:Er; [clear He | congruence].
  pose proof (re_sub_eq env _ _ _ _ file_text Hp Er) as E.
  rewrite E.
  rewrite (substitute_block_no_opening package_name updated_line name
             file_text _ Hp Ho
             (substitute_block_eq _ _ _ _ file_text Hp Er)).
  apply IH. intros p u Hin. apply (Hall p u). right; exact Hin.
Qed.

(** X18: a file that has no opening delimiter of an updated package
    keeps its text.  Take a tree of distinct paths and a run of the
    update that returns, in which every package with a generated block
    has a name whose only special pattern character is the dot and a
    replacement that the template processing of [re] takes without a
    group reference or an octal escape.  A file in which the pattern of
    the opening delimiter of none of these packages matches holds after
    the run the text it held before. *)
Theorem update_keeps_other_files (env : Env) (packages : dict Versions)
  (directory cpython_tag : str) (w w1 w' : World)
  (lines_to_write : dict str) (filepath file_text : str) :
  NoDup (keys (disk w)) ->
  generate_blocks env cpython_tag packages [] w
  = Some (lines_to_write, w1) ->
  update_external_project_python_packages env packages directory
    cpython_tag w = Some (tt, w') ->
  dict_get (disk w) filepath = Some file_text ->
  (forall package_name updated_line,
     In (package_name, updated_line) lines_to_write ->
     plain_template (block_template package_name updated_line)
     /\ exists name,
          pasted package_name = Some name
          /\ occurs (opening_items name) file_text = false) ->
  dict_get (disk w') filepath = Some file_text.
Proof.
  intros Hnd G H Hget Hall.
  apply update_inv in H as [lines' [w1' [G' [Hd [_ H]]]]].
  assert (lines' = lines_to_write) by congruence. subst lines'.
  apply rewrite_files_spec in H as [_ [_ Hc]].
  rewrite Hd in Hc.
  destruct (Hc Hnd filepath file_text Hget) as [Hin _].
  destruct Hin as [t [Hs Ht]]; [apply dict_get_in; congruence|].
  rewrite (substitute_all_no_opening env _ _ Hall) in Hs. congruence.
Qed.

Lemma update_keeps_other_files_witness :
  dict_get
    [(lit "SuperBuild/External_python-acb.cmake", Sample.other_file)]
    (lit "SuperBuild/External_python-acb.cmake")
  = Some Sample.other_file.
Proof.
  refine (update_keeps_other_files Sample.foo_env
            [(lit "foo", (lit "1.0.0", lit "2.0.0"))]
            (lit "SuperBuild") (lit "cp311") Sample.other_world
            (MkWorld (disk Sample.other_world) [EvGet (lit "foo")])
            (MkWorld [(lit "SuperBuild/External_python-acb.cmake",
                       Sample.other_file)] _)
            [(lit "foo", lit "  foo==2.0.0 --hash=sha256:deadbeef" ++ [nl])]
            (lit "SuperBuild/External_python-acb.cmake")
            Sample.other_file _ _ _ _ _).
  - repeat constructor; vm_compute; intuition discriminate.
  - vm_compute. reflexivity.
  - vm_compute. reflexivity.
  - vm_compute. reflexivity.
  - intros package_name updated_line [[= <- <-] | []]. split.
    + vm_compute. discriminate.
    + exists (literal (lit "foo")). split; vm_compute; reflexivity.
Defined.

(** ** The orchestrator past the gate *)

Lemma main_past_gate (env : Env) (args : Args) (w : World) :
  validate args = false ->
  mismatches_of (disk w) = [] ->
  main env args w
  = (lines <-
       execute_pip_list env (path args)
         (negb (from_installed_packages args)
          && str_eqb
               (or_default (cpython_tag_arg args)
                  (interpreter_cpython_tag env))
               (interpreter_cpython_tag env)) ;;
     packages_to_update <- lift (parse_pip_list_output lines) ;;
     update_external_project_python_packages env packages_to_update
       (or_default (search_directory args) (default_search_directory env))
       (or_default (cpython_tag_arg args) (interpreter_cpython_tag env)) ;;;
     ret Returned)
      (MkWorld (disk w) (log w ++ map EvRead (keys (disk w)))).
Proof.
  intros Hv Hm. unfold main. unfold bind at 1. rewrite validate_run, Hm, Hv.
  cbn [length Nat.ltb Nat.leb orb].
  destruct (from_installed_packages args); cbn [negb andb];
    [reflexivity|].
  destruct (str_eqb _ _); reflexivity.
Qed.

(** X19: what [main] does past the gate.  Without [--validate] and
    without a mismatch, a run of [main] that ends returns normally; [pip
    list] was called once, after the validator's reads, with [--outdated]
    exactly when [--from-installed-packages] is not given and the tag is
    the interpreter's; the mapping parsed from its lines is what the
    update was run on, with the search directory and the tag of the
    arguments or their defaults. *)
Theorem main_runs_update (env : Env) (args : Args) (w w' : World)
  (outcome : Outcome) :
  validate args = false ->
  mismatches_of (disk w) = [] ->
  main env args w = Some (outcome, w') ->
  let directory :=
    or_default (search_directory args) (default_search_directory env) in
  let cpython_tag :=
    or_default (cpython_tag_arg args) (interpreter_cpython_tag env) in
  let outdated :=
    negb (from_installed_packages args)
    && str_eqb cpython_tag (interpreter_cpython_tag env) in
  outcome = Returned
  /\ exists packages,
       parse_pip_list_output
         (split_on nl (pip_list_output env (path args) outdated))
       = Some packages
       /\ update_external_project_python_packages env packages directory
            cpython_tag
            (MkWorld (disk w)
               (log w ++ map EvRead (keys (disk w))
                ++ [EvPipList (path args) outdated]))
          = Some (tt, w').
Proof.
  intros Hv Hm H directory cpython_tag outdated.
  rewrite (main_past_gate env args w Hv Hm) in H.
  fold directory cpython_tag outdated in H.
  unfold execute_pip_list, bind, emit, ret in H. cbn [disk log] in H.
  destruct (parse_pip_list_output _) as [packages|]; [|discriminate].
  cbn [lift ret] in H. rewrite <- app_assoc in H.
  destruct (update_external_project_python_packages _ _ _ _ _)
    as [[[] w2]|] eqn:U; [|discriminate].
  injection H as <- <-. split; [reflexivity|].
  exists packages. split; [reflexivity | exact U].
Qed.

Lemma main_runs_update_witness :
  exists w',
    Returned = Returned
    /\ exists packages,
         parse_pip_list_output
           (split_on nl (Sample.nested_listing None true))
         = Some packages
         /\ update_external_project_python_packages Sample.nested_env
              packages (lit "SuperBuild") (lit "cp311")
              (MkWorld (disk Sample.nested_world)
                 (log Sample.nested_world
                  ++ map EvRead (keys (disk Sample.nested_world))
                  ++ [EvPipList None true]))
            = Some (tt, w').
Proof.
  eexists.
  refine (main_runs_update Sample.nested_env
            (MkArgs None None false false None) Sample.nested_world _
            Returned _ _ _).
  - reflexivity.
  - vm_compute. reflexivity.
  - vm_compute. reflexivity.
Defined.

Lemma rewrite_files_no_block (env : Env) (filepaths : list str)
  (w : World) :
  (forall filepath, In filepath filepaths -> In filepath (keys (disk w))) ->
  rewrite_files env filepaths [] w
  = Some (tt, MkWorld (disk w) (log w ++ map EvRead filepaths)).
Proof.
  revert w. induction filepaths as [|filepath filepaths IH]; intros w Hin.
  - simpl. rewrite app_nil_r. destruct w; reflexivity.
  - cbn [rewrite_files]. unfold bind. rewrite read_file_run.
    destruct (dict_get (disk w) filepath) as [file_text|] eqn:E.
    + cbn [rewrite_file ret]. rewrite IH.
      * cbn [disk log map]. rewrite <- app_assoc. reflexivity.
      * intros p Hp. apply Hin. right; exact Hp.
    + exfalso. apply (dict_get_in _ (disk w) filepath); [|exact E].
      apply Hin. left; reflexivity.
Qed.

Lemma parse_few_lines (lines : list str) :
  length lines <= 3 -> parse_pip_list_output lines = Some [].
Proof.
  intros H. destruct lines as [|a [|b [|c [|d l]]]]; try reflexivity.
  simpl in H. lia.
Qed.

(** X20: nothing to update, nothing written.  Without [--validate] and
    without a mismatch, when [pip list] prints at most three lines (what
    it prints when no package is outdated is among them), [main] returns
    normally and leaves the tree as it is: after the validator's reads
    and the call of [pip] every file is read once more, no request goes
    to the index and no file is written. *)
Theorem main_nothing_to_update (env : Env) (args : Args) (w : World) :
  let outdated :=
    negb (from_installed_packages args)
    && str_eqb
         (or_default (cpython_tag_arg args) (interpreter_cpython_tag env))
         (interpreter_cpython_tag env) in
  validate args = false ->
  mismatches_of (disk w) = [] ->
  length (split_on nl (pip_list_output env (path args) outdated)) <= 3 ->
  main env args w
  = Some (Returned,
          MkWorld (disk w)
            (log w ++ map EvRead (keys (disk w))
             ++ [EvPipList (path args) outdated]
             ++ map EvRead (keys (disk w)))).
Proof.
  intros outdated Hv Hm Hl.
  rewrite (main_past_gate env args w Hv Hm). fold outdated.
  unfold execute_pip_list, bind, emit, ret. cbn [disk log].
  rewrite (parse_few_lines _ Hl). cbn [lift ret].
  unfold update_external_project_python_packages, bind,
    external_project_filepaths.
  cbn [generate_blocks ret disk]. rewrite rewrite_files_no_block by auto.
  cbn [disk log]. rewrite <- !app_assoc. reflexivity.
Qed.

Lemma main_nothing_to_update_witness :
  main Sample.foo_env (MkArgs None None false false None)
    Sample.nested_world
  = Some (Returned,
          MkWorld (disk Sample.nested_world)
            (log Sample.nested_world
             ++ map EvRead (keys (disk Sample.nested_world))
             ++ [EvPipList None true]
             ++ map EvRead (keys (disk Sample.nested_world)))).
Proof.
  refine (main_nothing_to_update Sample.foo_env
            (MkArgs None None false false None) Sample.nested_world _ _ _).
  - reflexivity.
  - vm_compute. reflexivity.
  - vm_compute. lia.
Defined.
